(** * LinkWave chatbot: request gating, response normalisation, client store

    A shallow embedding of the chat server (server.js: classifiers,
    normalisers, validator, the POST /api/chat handler) and of the browser
    widget (chatbot/chatbot.js: history persistence and markdown rendering),
    followed by the properties proved about them.

    Strings.  A JavaScript string is a sequence of UTF-16 code units.  The
    model covers the code units below 256 (ASCII and Latin-1), one [ascii]
    per code unit: on that range [toLowerCase], [trim], the regular
    expression classes [\s], [\d], [\b], [.] and the [/i] flag are closed
    and are written out below exactly. *)

From Stdlib Require Import List Ascii String NArith ZArith Bool Lia.
From Stdlib Require Import DecimalString DecimalPos.
From stdpp Require Import gmap strings.
Import ListNotations.

Set Warnings "-register-all".
Local Open Scope bool_scope.
Local Open Scope list_scope.

(** ** Code units and strings *)

Definition jsstring : Type := list ascii.

(** A string literal of the source. *)
Definition str (s : string) : jsstring := list_ascii_of_string s.

Definition code (c : ascii) : N := N_of_ascii c.

Definition inRange (lo hi : N) (c : ascii) : bool :=
  (lo <=? code c)%N && (code c <=? hi)%N.

(** WhiteSpace and LineTerminator code units: what [trim] strips and what
    [\s] matches (TAB, LF, VT, FF, CR, SP, NBSP). *)
Definition isWhiteSpace (c : ascii) : bool :=
  existsb (N.eqb (code c)) [9; 10; 11; 12; 13; 32; 160]%N.

(** LineTerminator: what [.] refuses (LF, CR). *)
Definition isLineTerminator (c : ascii) : bool :=
  existsb (N.eqb (code c)) [10; 13]%N.

(** [\d] *)
Definition isDigit (c : ascii) : bool := inRange 48 57 c.

(** [[A-Za-z]] *)
Definition isAsciiLetter (c : ascii) : bool :=
  inRange 65 90 c || inRange 97 122 c.

(** [\w], the word characters of [\b]. *)
Definition isWordChar (c : ascii) : bool :=
  isAsciiLetter c || isDigit c || (code c =? 95)%N.

(** String.prototype.toLowerCase, one code unit: A-Z and the Latin-1
    capitals (all of U+00C0..U+00DE but the multiplication sign). *)
Definition lowerChar (c : ascii) : ascii :=
  if inRange 65 90 c || (inRange 192 222 c && negb (code c =? 215)%N)
  then ascii_of_N (code c + 32) else c.

Definition toLowerCase (s : jsstring) : jsstring := map lowerChar s.

(** Canonicalize of the [/i] flag (through toUpperCase): a-z and the Latin-1
    small letters U+00E0..U+00FE but the division sign.  The sharp s, the
    micro sign and y-diaeresis have no upper case below 256 that another
    code unit of the range shares, so they stay distinct from every other. *)
Definition canonChar (c : ascii) : ascii :=
  if inRange 97 122 c || (inRange 224 254 c && negb (code c =? 247)%N)
  then ascii_of_N (code c - 32) else c.

Definition ciEqb (a b : ascii) : bool := Ascii.eqb (canonChar a) (canonChar b).

Fixpoint dropWhile (p : ascii -> bool) (s : jsstring) : jsstring :=
  match s with
  | c :: s' => if p c then dropWhile p s' else s
  | [] => []
  end.

Fixpoint takeWhile (p : ascii -> bool) (s : jsstring) : jsstring :=
  match s with
  | c :: s' => if p c then c :: takeWhile p s' else []
  | [] => []
  end.

(** String.prototype.trim *)
Definition trimStart (s : jsstring) : jsstring := dropWhile isWhiteSpace s.
Definition trimEnd (s : jsstring) : jsstring := rev (dropWhile isWhiteSpace (rev s)).
Definition trim (s : jsstring) : jsstring := trimEnd (trimStart s).

(** [===] on strings. *)
Fixpoint jsstring_eqb (a b : jsstring) : bool :=
  match a, b with
  | [], [] => true
  | x :: a', y :: b' => Ascii.eqb x y && jsstring_eqb a' b'
  | _, _ => false
  end.

(** String.prototype.startsWith, with the comparison of code units as a
    parameter: [Ascii.eqb] for the method, [ciEqb] for a literal under [/i]. *)
Fixpoint startsWithBy (eqc : ascii -> ascii -> bool) (s p : jsstring)
    {struct p} : bool :=
  match p with
  | [] => true
  | a :: p' =>
      match s with
      | [] => false
      | c :: s' => eqc c a && startsWithBy eqc s' p'
      end
  end.

Definition startsWith : jsstring -> jsstring -> bool := startsWithBy Ascii.eqb.

(** What is left of [s] after the literal [p] matched at its start. *)
Definition stripPrefixBy (eqc : ascii -> ascii -> bool) (p s : jsstring)
  : option jsstring :=
  if startsWithBy eqc s p then Some (skipn (length p) s) else None.

(** String.prototype.includes; with [ciEqb], RegExp.test of a literal
    under [/i]. *)
Fixpoint includesBy (eqc : ascii -> ascii -> bool) (s k : jsstring) : bool :=
  startsWithBy eqc s k ||
  match s with
  | [] => false
  | _ :: s' => includesBy eqc s' k
  end.

Definition includes : jsstring -> jsstring -> bool := includesBy Ascii.eqb.

Definition LF : ascii := ascii_of_N 10.

(** String.prototype.split('\n'): never empty, one more line than there are
    line feeds. *)
Fixpoint splitLines (s : jsstring) : list jsstring :=
  match s with
  | [] => [[]]
  | c :: s' =>
      if Ascii.eqb c LF then [] :: splitLines s'
      else match splitLines s' with
           | l :: ls => (c :: l) :: ls
           | [] => [[c]]
           end
  end.

(** Array.prototype.join, with the separator as a parameter. *)
Fixpoint joinWith (sep : jsstring) (ls : list jsstring) : jsstring :=
  match ls with
  | [] => []
  | [l] => l
  | l :: ls' => l ++ sep ++ joinWith sep ls'
  end.

Definition joinLines (ls : list jsstring) : jsstring := joinWith [LF] ls.

(** Array.prototype.slice(-n): the last [n] elements. *)
Definition sliceLast {A} (n : nat) (l : list A) : list A :=
  skipn (length l - n) l.

(** Number.prototype.toString of a natural number. *)
Definition natToString (n : nat) : jsstring :=
  str (NilZero.string_of_uint (Nat.to_uint n)).

(** ** Messages and the text classifiers (server.js) *)

Inductive Role : Type := user | assistant | system.

Definition Role_eqb (a b : Role) : bool :=
  match a, b with
  | user, user | assistant, assistant | system, system => true
  | _, _ => false
  end.

(** A history entry [{ role, content }].  The classifiers only see entries
    that went through [validateConversationHistory], whose content is a
    string, so [(m.content || '')] is [m.content]. *)
Record Message : Type := mkMessage { role : Role; content : jsstring }.

Definition isUser (m : Message) : bool := Role_eqb (role m) user.

Definition CONSULTATION_KEYWORDS : list jsstring :=
  map str
    ["consultation"; "consult"; "meeting"; "discuss"; "talk"; "speak";
     "quote"; "pricing"; "cost"; "price"; "estimate"; "project";
     "book"; "schedule"; "appointment"; "contact"; "reach out";
     "interested"; "learn more"; "details"]%string.

Definition DOMAIN_KEYWORDS : list jsstring :=
  map str
    ["das"; "distributed antenna"; "in-building"; "signal"; "coverage";
     "carrier"; "cellular"; "5g"; "lte"; "public safety"; "radio";
     "wifi"; "wireless"; "linkwave"; "network"; "installation";
     "design"; "testing"; "maintenance"; "deployment"; "building";
     "tunnel"; "transit"; "hospital"; "stadium"; "campus"; "office";
     "rf"; "antenna"; "website"; "services"; "careers"; "projects";
     "team"; "faq"; "learn"; "company"]%string.

(** [KEYWORDS.some(k => s.toLowerCase().includes(k))] *)
Definition mentionsAny (keywords : list jsstring) (s : jsstring) : bool :=
  existsb (fun k => includes (toLowerCase s) k) keywords.

Definition detectConsultationIntent (message : jsstring) (history : list Message)
  : bool :=
  if mentionsAny CONSULTATION_KEYWORDS message then true
  else
    let recent := List.filter isUser (sliceLast 3 history) in
    existsb (fun m => mentionsAny CONSULTATION_KEYWORDS (content m)) recent.

Definition hasDomainContext (history : list Message) : bool :=
  let recent := List.filter isUser (sliceLast 3 history) in
  existsb (fun m => mentionsAny DOMAIN_KEYWORDS (content m)) recent.

(** [\b] right after a matched word character: the next code unit is not a
    word character, or the input ends. *)
Definition boundaryAfterWord (rest : jsstring) : bool :=
  match rest with
  | [] => true
  | c :: _ => negb (isWordChar c)
  end.

(** "/^(hi|hello|hey|good\s*(morning|afternoon|evening))\b/i": some
    alternative matches at the start and a word boundary follows it. *)
Definition greetingRe (s : jsstring) : bool :=
  let ends (w : string) (r : jsstring) : bool :=
    match stripPrefixBy ciEqb (str w) r with
    | Some r' => boundaryAfterWord r'
    | None => false
    end in
  ends "hi" s || ends "hello" s || ends "hey" s ||
  match stripPrefixBy ciEqb (str "good") s with
  | Some r =>
      let r' := dropWhile isWhiteSpace r in
      ends "morning" r' || ends "afternoon" r' || ends "evening" r'
  | None => false
  end.

(** [/^(list|summarize|summary|bullet|outline)/i] *)
Definition metaRe (s : jsstring) : bool :=
  existsb (fun w => startsWithBy ciEqb s (str w))
    ["list"; "summarize"; "summary"; "bullet"; "outline"]%string.

Definition isOffTopic (message : jsstring) (history : list Message) : bool :=
  let lower := trim (toLowerCase message) in
  if greetingRe lower then false
  else if metaRe lower && hasDomainContext history then false
  else if existsb (fun k => includes lower k) DOMAIN_KEYWORDS then false
  else negb (hasDomainContext history).

(** [s.toLowerCase().trim()] *)
Definition normalize (s : jsstring) : jsstring := trim (toLowerCase s).

Definition isRepeated (message : jsstring) (history : list Message) : bool :=
  let norm := normalize message in
  let recent := sliceLast 3 (List.filter isUser history) in
  if length recent <? 3 then false
  else forallb (fun m => jsstring_eqb (normalize (content m)) norm) recent.

(** ** Response normalisers (server.js) *)

(** The optional bold marker (two stars, as a group with [?]) in front of
    something that cannot start with a star: taken whenever it is there. *)
Definition skipBold (s : jsstring) : jsstring :=
  if startsWith s (str "**") then skipn 2 s else s.

Definition isDotOrParen (c : ascii) : bool :=
  Ascii.eqb c "."%char || Ascii.eqb c ")"%char.

(** [line.match] of the ordered-item pattern, giving [(match[1], match[6])].
    The pattern is anchored at both ends and has six groups: blanks [\s],
    starred (group 1, the indent); optional bold marker; digits [\d+]; one of
    [.] and [)]; optional bold marker; then blanks [\s+] and any characters,
    starred (group 6, the content).  Every quantifier is followed by something its
    own class excludes, so the greedy choice is the only one; [.] refuses
    line terminators, so the content after the blanks must have none. *)
Definition matchOrderedItem (line : jsstring) : option (jsstring * jsstring) :=
  let indent := takeWhile isWhiteSpace line in
  let r1 := skipBold (dropWhile isWhiteSpace line) in
  match takeWhile isDigit r1, dropWhile isDigit r1 with
  | _ :: _, c :: r2 =>
      if isDotOrParen c then
        let r3 := skipBold r2 in
        match takeWhile isWhiteSpace r3 with
        | _ :: _ =>
            let text := dropWhile isWhiteSpace r3 in
            if existsb isLineTerminator text then None
            else Some (indent, text)
        | [] => None
        end
      else None
  | _, _ => None
  end.

Definition isBlank (line : jsstring) : bool :=
  match trim line with [] => true | _ :: _ => false end.

(** The loop of [fixNumberedLists], over the lines still to visit, with the
    counter [num] as it stands before them. *)
Fixpoint renumber (num : nat) (lines : list jsstring) : list jsstring :=
  match lines with
  | [] => []
  | line :: rest =>
      match matchOrderedItem line with
      | Some (indent, text) =>
          (indent ++ natToString num ++ str ". " ++ text) :: renumber (S num) rest
      | None =>
          if isBlank line then line :: renumber 1 rest
          else line :: renumber num rest
      end
  end.

Definition fixNumberedLists (text : jsstring) : jsstring :=
  joinLines (renumber 1 (splitLines text)).

(** [text.replace(/([.!?])([A-Za-z])/g, '$1 $2')] *)
Fixpoint fixSpacing (s : jsstring) : jsstring :=
  match s with
  | c :: ((l :: rest) as t) =>
      if (Ascii.eqb c "."%char || Ascii.eqb c "!"%char || Ascii.eqb c "?"%char)
         && isAsciiLetter l
      then c :: " "%char :: l :: fixSpacing rest
      else c :: fixSpacing t
  | _ => s
  end.

(** The test of "/^\s*(\d+[.\)]|[-*])\s+/" on the line. *)
Definition isListItem (line : jsstring) : bool :=
  let r := dropWhile isWhiteSpace line in
  let afterMarker : option jsstring :=
    match takeWhile isDigit r, dropWhile isDigit r with
    | _ :: _, c :: r' => if isDotOrParen c then Some r' else None
    | _, _ =>
        match r with
        | c :: r' =>
            if Ascii.eqb c "-"%char || Ascii.eqb c "*"%char then Some r' else None
        | [] => None
        end
    end in
  match afterMarker with
  | Some (c :: _) => isWhiteSpace c
  | _ => false
  end.

(** The loop of [limitList]: [listCount] and [inList] are its two variables,
    the result is what it pushes for the lines still to visit. *)
Fixpoint limitLoop (listCount : nat) (inList : bool) (lines : list jsstring)
  : list jsstring :=
  match lines with
  | [] => []
  | line :: rest =>
      if isListItem line then
        let listCount0 := if inList then listCount else 0 in
        let listCount1 := S listCount0 in
        if listCount1 <=? 3 then line :: limitLoop listCount1 true rest
        else limitLoop listCount1 true rest
      else if isBlank line && inList then line :: limitLoop 0 false rest
      else line :: limitLoop listCount inList rest
  end.

Definition limitList (text : jsstring) : jsstring :=
  joinLines (limitLoop 0 false (splitLines text)).

Definition DQUOTE : ascii := ascii_of_N 34.

Definition CTA : jsstring :=
  str "Please click the " ++ [DQUOTE] ++ str "Book Consultation" ++ [DQUOTE]
  ++ str " button below to connect with our team.".

(** [/book consultation|button below|click the button|use the button|press the button|select the button/i.test(base)] *)
Definition alreadyMentionsButton (base : jsstring) : bool :=
  existsb (fun p => includesBy ciEqb base (str p))
    ["book consultation"; "button below"; "click the button";
     "use the button"; "press the button"; "select the button"]%string.

Definition appendConsultationCTA (text : jsstring) : jsstring :=
  let base := trim text in
  match base with
  | [] => str "Thanks for your interest. " ++ CTA
  | _ :: _ =>
      if alreadyMentionsButton base then base
      else base ++ [LF; LF] ++ CTA
  end.

(** ** Request validation (server.js) *)

(** The values a request body is made of, after [express.json]; a property
    that is not there reads as [JUndefined]. *)
Inductive JsValue : Type :=
| JUndefined
| JNull
| JBool (b : bool)
| JNumber (n : Z)
| JString (s : jsstring)
| JArray (items : list JsValue)
| JObject (fields : list (jsstring * JsValue)).

(** Property read [v.key]: own properties of a parsed object (keys are
    unique there); anything else has no such property. *)
Fixpoint getField (key : jsstring) (fields : list (jsstring * JsValue)) : JsValue :=
  match fields with
  | [] => JUndefined
  | (k, v) :: rest => if jsstring_eqb k key then v else getField key rest
  end.

Definition getProp (v : JsValue) (key : string) : JsValue :=
  match v with
  | JObject fields => getField (str key) fields
  | _ => JUndefined
  end.

Definition NUL : ascii := ascii_of_N 0.

(** [str.substring(0, n)] *)
Definition substring0 (n : nat) (s : jsstring) : jsstring := firstn n s.

Definition sanitizeString (v : JsValue) (maxLength : nat) : jsstring :=
  match v with
  | JString s =>
      let sanitized := trim (List.filter (fun c => negb (Ascii.eqb c NUL)) s) in
      if maxLength <? length sanitized then substring0 maxLength sanitized
      else sanitized
  | _ => []
  end.

Definition isStringValue (v : JsValue) (s : string) : bool :=
  match v with
  | JString x => jsstring_eqb x (str s)
  | _ => false
  end.

(** The predicate handed to [filter] in [validateConversationHistory]:
    truthy, [typeof msg === 'object'], a role of the two, a content that is
    a string of 1 to 2000 code units. *)
Definition isValidEntry (msg : JsValue) : bool :=
  match msg with
  | JObject _ | JArray _ =>
      (isStringValue (getProp msg "role") "user"
       || isStringValue (getProp msg "role") "assistant")
      && match getProp msg "content" with
         | JString c => (0 <? length c) && (length c <=? 2000)
         | _ => false
         end
  | _ => false
  end.

(** The function handed to [map]: [{ role: msg.role, content:
    sanitizeString(msg.content, 250) }], on entries the filter kept. *)
Definition toMessage (msg : JsValue) : Message :=
  {| role := if isStringValue (getProp msg "role") "user" then user else assistant;
     content := sanitizeString (getProp msg "content") 250 |}.

Definition validateConversationHistory (history : JsValue) : list Message :=
  match history with
  | JArray items => map toMessage (List.filter isValidEntry (sliceLast 10 items))
  | _ => []
  end.

(** ** The POST /api/chat handler (server.js) *)

(** What is thrown: [name], [message] and the [status] a provider error may
    carry. *)
Record JsError : Type := mkError {
  err_name : jsstring;
  err_message : jsstring;
  err_status : option Z
}.

(** The request given to [openai.chat.completions.create] (the model name
    and the temperature are constants). *)
Record ProviderRequest : Type := mkRequest {
  req_messages : list Message;
  req_max_tokens : nat
}.

(** The awaited call either yields [completion.choices[0].message.content]
    or throws; an abort by the 20 s timer is a throw named AbortError. *)
Inductive ProviderOutcome : Type :=
| Completed (text : jsstring)
| Failed (e : JsError).

Inductive HttpBody : Type :=
| ChatReply (response : jsstring) (consultationIntent : bool)
| ErrorOnly (error : jsstring)
| ErrorWithMessage (error : jsstring) (message : jsstring).

Record HttpResponse : Type := mkResponse { status : Z; body : HttpBody }.

(** What the handler does besides answering. *)
Inductive Effect : Type :=
| CallProvider (req : ProviderRequest)
| LogError (message : jsstring).

Definition REFUSAL : jsstring :=
  str "I want to be helpful, but I can't keep repeating the same answer. Could you rephrase or ask a different question about DAS, wireless coverage, or the Linkwave website?".

Definition REDIRECT : jsstring :=
  str "I'm here to help with DAS, wireless coverage, and Linkwave services. If you have a question about those topics or the website, I'd be happy to help.".

Definition GENERIC_ERROR : jsstring :=
  str "An error occurred. Please try again later.".

(** [s.split(/\s+/).length]: one more than the runs of blanks. *)
Fixpoint blankRuns (inRun : bool) (s : jsstring) : nat :=
  match s with
  | [] => 0
  | c :: s' =>
      if isWhiteSpace c then (if inRun then 0 else 1) + blankRuns true s'
      else blankRuns false s'
  end.

Definition wordCount (s : jsstring) : nat := S (blankRuns false s).

(** [error.status || 500] *)
Definition statusOf (e : JsError) : Z :=
  match err_status e with
  | Some s => if (s =? 0)%Z then 500%Z else s
  | None => 500%Z
  end.

(** The [catch (error)] block of the handler. *)
Definition handleError (e : JsError) : HttpResponse * list Effect :=
  let statusCode := statusOf e in
  let errorMessage :=
    if (statusCode =? 500)%Z then GENERIC_ERROR
    else match err_message e with
         | [] => str "An error occurred"
         | _ :: _ => err_message e
         end in
  ({| status := statusCode;
      body := ErrorWithMessage (str "Request failed") errorMessage |},
   [LogError (err_message e)]).

Section Handler.

(** The provider, the persona text, and the two normalisers that are left
    abstract ([removeContactInfo], [fixButtonReferences]). *)
Variable complete : ProviderRequest -> ProviderOutcome.
Variable SYSTEM_PROMPT : jsstring.
Variable removeContactInfo : jsstring -> jsstring.
Variable fixButtonReferences : jsstring -> jsstring.

Definition postProcess (consultationIntent : bool) (response : jsstring)
  : jsstring :=
  let response := fixSpacing response in
  let response := fixNumberedLists response in
  let response := limitList response in
  if consultationIntent
  then appendConsultationCTA (fixButtonReferences (removeContactInfo response))
  else fixButtonReferences response.

(** The handler from [let { message, conversationHistory = [] } = req.body]
    on, that is after the express-validator chain accepted the body:
    [message] is then a string. *)
Definition chatHandler (message : jsstring) (conversationHistory : JsValue)
  : HttpResponse * list Effect :=
  let conversationHistory :=
    match conversationHistory with JUndefined => JArray [] | v => v end in
  let message := sanitizeString (JString message) 250 in
  match message with
  | [] => ({| status := 400; body := ErrorOnly (str "Message is required") |}, [])
  | _ :: _ =>
      let conversationHistory := validateConversationHistory conversationHistory in
      if isRepeated message conversationHistory then
        ({| status := 200; body := ChatReply REFUSAL false |}, [])
      else
        let consultationIntent :=
          detectConsultationIntent message conversationHistory in
        if negb consultationIntent && isOffTopic message conversationHistory then
          ({| status := 200; body := ChatReply REDIRECT false |}, [])
        else
          let messages :=
            [mkMessage system SYSTEM_PROMPT]
            ++ sliceLast 10 conversationHistory
            ++ [mkMessage user message] in
          let isShortQuery := wordCount (trim message) <=? 6 in
          let req := {| req_messages := messages;
                        req_max_tokens := if isShortQuery then 180 else 500 |} in
          match complete req with
          | Completed response =>
              ({| status := 200;
                  body := ChatReply (postProcess consultationIntent response)
                                    consultationIntent |},
               [CallProvider req])
          | Failed openaiError =>
              let error :=
                if jsstring_eqb (err_name openaiError) (str "AbortError")
                then mkError (str "Error") (str "Request timeout") None
                else openaiError in
              let '(res, log) := handleError error in
              (res, CallProvider req :: log)
          end
  end.

End Handler.

(** ** Client conversation store (chatbot/chatbot.js) *)

Definition storageKey : string := "linkwave_chatbot_history".
Definition storageTimestampKey : string := "linkwave_chatbot_timestamp".
Definition historyExpiryDays : Z := 30.
Definition msPerDay : Z := 1000 * 60 * 60 * 24.

(** The widget's [conversationHistory] and the browser's [localStorage]. *)
Record Widget : Type := mkWidget {
  conversationHistory : list Message;
  localStorage : gmap string jsstring
}.

(** [Date.now().toString()] *)
Definition timeToString (t : Z) : jsstring :=
  str (NilZero.string_of_int (Z.to_int t)).

Definition digitValue (c : ascii) : Z := Z.of_N (code c) - 48.

Definition digitsValue (ds : jsstring) : Z :=
  fold_left (fun acc c => 10 * acc + digitValue c)%Z ds 0%Z.

(** [parseInt(s, 10)]: blanks, a sign, then the longest run of digits;
    [None] is NaN. *)
Definition parseInt (s : jsstring) : option Z :=
  let s := trimStart s in
  let '(negative, s) :=
    match s with
    | c :: s' =>
        if Ascii.eqb c "-"%char then (true, s')
        else if Ascii.eqb c "+"%char then (false, s')
        else (false, s)
    | [] => (false, s)
    end in
  match takeWhile isDigit s with
  | [] => None
  | ds => Some (if negative then - digitsValue ds else digitsValue ds)%Z
  end.

Definition truthy (s : jsstring) : bool :=
  match s with [] => false | _ :: _ => true end.

Definition clearHistory (w : Widget) : Widget :=
  {| conversationHistory := [];
     localStorage := delete storageTimestampKey (delete storageKey (localStorage w)) |}.

Section Store.

(** The browser's JSON codec on histories ([None]: [JSON.parse] throws),
    and whether [localStorage.setItem] accepts a write (it throws when the
    quota is exceeded). *)
Variable JSON_stringify : list Message -> jsstring.
Variable JSON_parse : jsstring -> option (list Message).
Variable quota : string -> jsstring -> bool.

(** [daysSince < historyExpiryDays] with [daysSince = (now - savedTime) /
    msPerDay]: the times are integers and the bound is a whole number of
    days, so the quotient is below it exactly when the difference is below
    that many milliseconds. *)
Definition withinExpiry (now savedTime : Z) : bool :=
  (now - savedTime <? historyExpiryDays * msPerDay)%Z.

Definition loadHistory (now : Z) (w : Widget) : Widget :=
  match localStorage w !! storageKey, localStorage w !! storageTimestampKey with
  | Some stored, Some timestamp =>
      if truthy stored && truthy timestamp then
        match parseInt timestamp with
        | Some savedTime =>
            if withinExpiry now savedTime then
              match JSON_parse stored with
              | Some h => {| conversationHistory := h;
                             localStorage := localStorage w |}
              | None => clearHistory w
              end
            else clearHistory w
        | None => clearHistory w
        end
      else w
  | _, _ => w
  end.

(** The two writes sit in one [try]: when the first throws the second is
    not attempted. *)
Definition saveHistory (now : Z) (w : Widget) : Widget :=
  let stored := JSON_stringify (conversationHistory w) in
  if quota storageKey stored then
    let ls := <[storageKey := stored]> (localStorage w) in
    let timestamp := timeToString now in
    if quota storageTimestampKey timestamp then
      {| conversationHistory := conversationHistory w;
         localStorage := <[storageTimestampKey := timestamp]> ls |}
    else {| conversationHistory := conversationHistory w; localStorage := ls |}
  else w.

(** The part of the constructor that touches the store: a fresh widget
    over the browser's storage, then [loadHistory]. *)
Definition construct (now : Z) (storage : gmap string jsstring) : Widget :=
  loadHistory now {| conversationHistory := []; localStorage := storage |}.

End Store.

(** ** Markdown rendering (chatbot/chatbot.js) *)

Definition NBSP : ascii := ascii_of_N 160.

(** [escapeHtml]: the text is stored in a text node and read back through
    [innerHTML], which serialises the ampersand, the no-break space and the
    two angle brackets as entities. *)
Definition escapeChar (c : ascii) : jsstring :=
  if Ascii.eqb c "&"%char then str "&amp;"
  else if Ascii.eqb c NBSP then str "&nbsp;"
  else if Ascii.eqb c "<"%char then str "&lt;"
  else if Ascii.eqb c ">"%char then str "&gt;"
  else [c].

Definition escapeHtml (unsafe : jsstring) : jsstring := flat_map escapeChar unsafe.

(** The lazy middle of the bold pattern, from right after an opening pair
    of stars: the text up to the nearest closing pair, with no line
    terminator in it, and what follows the closing pair. *)
Fixpoint findClose (s : jsstring) : option (jsstring * jsstring) :=
  match s with
  | [] => None
  | c :: s' =>
      if startsWith s (str "**") then Some ([], skipn 2 s)
      else if isLineTerminator c then None
      else match findClose s' with
           | Some (inner, after) => Some (c :: inner, after)
           | None => None
           end
  end.

(** The bold pattern (a pair of stars, a lazy run of [.], a pair of stars)
    replaced globally by the [strong] element around [$1]; each step takes at
    least one code unit, [fuel] bounds the steps. *)
Fixpoint boldLoop (fuel : nat) (s : jsstring) : jsstring :=
  match fuel with
  | 0 => s
  | S fuel' =>
      match s with
      | [] => []
      | c :: s' =>
          if startsWith s (str "**") then
            match findClose (skipn 2 s) with
            | Some (inner, after) =>
                str "<strong>" ++ inner ++ str "</strong>" ++ boldLoop fuel' after
            | None => c :: boldLoop fuel' s'
            end
          else c :: boldLoop fuel' s'
      end
  end.

Definition replaceBold (s : jsstring) : jsstring := boldLoop (length s) s.

(** The tail of both item patterns, blanks [\s+] then the group [(.+)] up to
    the end: the group is what follows the blanks, without line terminator;
    when nothing follows them, the last blank is given back to the group. *)
Definition itemText (r : jsstring) : option jsstring :=
  match takeWhile isWhiteSpace r with
  | [] => None
  | ws =>
      match dropWhile isWhiteSpace r with
      | [] =>
          match rev ws with
          | c :: _ :: _ => if isLineTerminator c then None else Some [c]
          | _ => None
          end
      | text => if existsb isLineTerminator text then None else Some text
      end
  end.

(** [trimmed.match(/^(\d+)\.\s+(.+)$/)], giving [match[2]]. *)
Definition numberedMatch (trimmed : jsstring) : option jsstring :=
  match takeWhile isDigit trimmed, dropWhile isDigit trimmed with
  | _ :: _, c :: r => if Ascii.eqb c "."%char then itemText r else None
  | _, _ => None
  end.

(** The bullet class of the source file: hyphen, star, and the three
    characters its mis-encoded bullet is made of, two of them below 256. *)
Definition isBulletChar (c : ascii) : bool :=
  Ascii.eqb c "-"%char || Ascii.eqb c "*"%char
  || (code c =? 226)%N || (code c =? 162)%N.

(** [trimmed.match] of the bullet pattern, giving [match[1]]. *)
Definition bulletMatch (trimmed : jsstring) : option jsstring :=
  match trimmed with
  | c :: r => if isBulletChar c then itemText r else None
  | [] => None
  end.

Inductive ListKind : Type := ol | ul.

Definition ListKind_eqb (a b : ListKind) : bool :=
  match a, b with ol, ol | ul, ul => true | _, _ => false end.

Definition tagName (k : ListKind) : jsstring :=
  match k with ol => str "ol" | ul => str "ul" end.

Definition openTag (name : jsstring) : jsstring := str "<" ++ name ++ str ">".
Definition closeTag (name : jsstring) : jsstring := str "</" ++ name ++ str ">".

(** The variables of the rendering loop. *)
Record RenderState : Type := mkRender {
  result : list jsstring;
  currentList : option ListKind;
  listItems : list jsstring
}.

Definition closeCurrentList (st : RenderState) : RenderState :=
  match currentList st, listItems st with
  | Some k, _ :: _ =>
      {| result := result st
                   ++ [openTag (tagName k) ++ joinWith [] (listItems st)
                       ++ closeTag (tagName k)];
         currentList := None;
         listItems := [] |}
  | _, _ =>
      {| result := result st; currentList := None; listItems := listItems st |}
  end.

Definition listItem (text : jsstring) : jsstring :=
  str "<li>" ++ replaceBold (escapeHtml text) ++ str "</li>".

Definition isCurrent (k : ListKind) (st : RenderState) : bool :=
  match currentList st with
  | Some k' => ListKind_eqb k' k
  | None => false
  end.

(** A list item of kind [k]: unless the open list is of that kind it is
    closed and a list of kind [k] opened; then the item is pushed. *)
Definition pushItem (k : ListKind) (text : jsstring) (st : RenderState)
  : RenderState :=
  let st :=
    if isCurrent k st then st
    else let st' := closeCurrentList st in
         {| result := result st'; currentList := Some k;
            listItems := listItems st' |} in
  {| result := result st; currentList := currentList st;
     listItems := listItems st ++ [listItem text] |}.

(** One turn of the [for (let line of lines)] loop. *)
Definition renderLine (st : RenderState) (line : jsstring) : RenderState :=
  let trimmed := trim line in
  match numberedMatch trimmed with
  | Some text => pushItem ol text st
  | None =>
      match bulletMatch trimmed with
      | Some text => pushItem ul text st
      | None =>
          let st := closeCurrentList st in
          match trimmed with
          | [] => st
          | _ :: _ =>
              {| result := result st ++ [replaceBold (escapeHtml trimmed)];
                 currentList := currentList st;
                 listItems := listItems st |}
          end
      end
  end.

Definition mentionsList (line : jsstring) : bool :=
  includes line (str "<ol>") || includes line (str "<ul>").

(** The [map] callback over the filtered array: [prev] is the element before
    [line] in that array. *)
Fixpoint spaceAfterLists (prev : option jsstring) (lines : list jsstring)
  : list jsstring :=
  match lines with
  | [] => []
  | line :: rest =>
      (match prev with
       | Some p =>
           if truthy p && mentionsList p && truthy line
              && negb (startsWith line (str "<"))
           then str "<br>" ++ line else line
       | None => line
       end) :: spaceAfterLists (Some line) rest
  end.

Definition markdownToHTML (text : jsstring) : jsstring :=
  match text with
  | [] => []
  | _ :: _ =>
      let st := fold_left renderLine (splitLines text)
                  {| result := []; currentList := None; listItems := [] |} in
      let st := closeCurrentList st in
      let kept := List.filter (fun line => truthy (trim line)) (result st) in
      let joined := joinWith [] (spaceAfterLists None kept) in
      if truthy joined && negb (includes joined (str "<ol>"))
         && negb (includes joined (str "<ul>"))
      then str "<p>" ++ joined ++ str "</p>"
      else joined
  end.

(** ** Readings of the specification, to compare the code with *)

(** "Any of the last 3 user-role messages": the user turns first, then the
    last three of them. *)
Definition lastUserTurns (n : nat) (history : list Message) : list Message :=
  sliceLast n (List.filter isUser history).

(** Consultation intent as the specification words it: the message, or one
    of the last 3 user-role messages, mentions a consultation keyword. *)
Definition consultationIntentSpec (message : jsstring) (history : list Message)
  : bool :=
  mentionsAny CONSULTATION_KEYWORDS message
  || existsb (fun m => mentionsAny CONSULTATION_KEYWORDS (content m))
       (lastUserTurns 3 history).

(** [s] contains the term [k] case-insensitively: its lower-case form has
    the (lower-case) term as a substring. *)
Definition containsTerm (s k : jsstring) : Prop :=
  exists before after, toLowerCase s = before ++ k ++ after.

Definition mentionsKeyword (keywords : list jsstring) (s : jsstring) : Prop :=
  exists k, In k keywords /\ containsTerm s k.

(** The gating decision of the specification, derived from the three
    classifier results with its precedence: repeated first, then off-topic
    unless consultation intent was detected, else proceed. *)
Inductive GatingDecision : Type :=
| ShortCircuitRepeated
| ShortCircuitOffTopic
| Proceed.

Record ClassificationResult : Type := mkClassification {
  cr_consultationIntent : bool;
  cr_offTopic : bool;
  cr_repeated : bool
}.

Definition classify (message : jsstring) (history : list Message)
  : ClassificationResult :=
  {| cr_consultationIntent := detectConsultationIntent message history;
     cr_offTopic := isOffTopic message history;
     cr_repeated := isRepeated message history |}.

Definition gatingDecision (c : ClassificationResult) : GatingDecision :=
  if cr_repeated c then ShortCircuitRepeated
  else if negb (cr_consultationIntent c) && cr_offTopic c then ShortCircuitOffTopic
  else Proceed.

(** The requests the provider was invoked with, in order. *)
Definition providerCalls (effects : list Effect) : list ProviderRequest :=
  flat_map (fun e => match e with CallProvider r => [r] | LogError _ => [] end)
    effects.

(** The other order of the two steps of history validation: drop the invalid
    entries first, then keep the last 10. *)
Definition filterThenCap (items : list JsValue) : list Message :=
  sliceLast 10 (map toMessage (List.filter isValidEntry items)).

(** A kept entry: a role of the two, a content of at most 250 code units. *)
Definition sanitizedEntry (m : Message) : Prop :=
  (role m = user \/ role m = assistant) /\ length (content m) <= 250.

(** The [(message, history)] pair the gating code receives. *)
Definition validatedMessage (rawMessage : jsstring) : jsstring :=
  sanitizeString (JString rawMessage) 250.

Definition validatedHistory (rawHistory : JsValue) : list Message :=
  validateConversationHistory
    match rawHistory with JUndefined => JArray [] | v => v end.

(** A string is trimmed when it is empty or starts and ends with a code
    unit that is not a blank. *)
Definition isTrimmed (s : jsstring) : Prop :=
  match s, rev s with
  | c :: _, d :: _ => isWhiteSpace c = false /\ isWhiteSpace d = false
  | _, _ => s = []
  end.


(** The items counted back from the end of [before] to the nearest blank
    line ([r] is [before] reversed). *)
Fixpoint sinceBlankRev (isItem : jsstring -> bool) (r : list jsstring) : nat :=
  match r with
  | [] => 0
  | line :: r' =>
      if isItem line then S (sinceBlankRev isItem r')
      else if isBlank line then 0
      else sinceBlankRev isItem r'
  end.

(** How many of the lines [before] are items, counting from the last blank
    line among them (from the start when there is none). *)
Definition itemsSinceBlank (isItem : jsstring -> bool) (before : list jsstring)
  : nat :=
  sinceBlankRev isItem (rev before).


(** Whether the limit keeps [line] when the lines [before] precede it: a
    list item stays while fewer than 3 list items precede it since the last
    blank line, any other line stays. *)
Definition keptByLimit (before : list jsstring) (line : jsstring) : bool :=
  negb (isListItem line) || (itemsSinceBlank isListItem before <? 3).

Fixpoint keepFrom (before lines : list jsstring) : list jsstring :=
  match lines with
  | [] => []
  | line :: rest =>
      (if keptByLimit before line then [line] else [])
      ++ keepFrom (before ++ [line]) rest
  end.

(** The limit as the specification words it: every non-list line, blank or
    not, ends the run of list items, and the first 3 of each run stay. *)
Fixpoint limitRuns (run : nat) (lines : list jsstring) : list jsstring :=
  match lines with
  | [] => []
  | line :: rest =>
      if isListItem line then
        if run <? 3 then line :: limitRuns (S run) rest
        else limitRuns (S run) rest
      else line :: limitRuns 0 rest
  end.

Definition limitListSpec (text : jsstring) : jsstring :=
  joinLines (limitRuns 0 (splitLines text)).

(** No run of consecutive list items in [out] is longer than 3, [cur] being
    the length of the run that [out] continues. *)
Fixpoint boundedRuns (cur : nat) (out : list jsstring) : bool :=
  match out with
  | [] => true
  | line :: rest =>
      if isListItem line then (S cur <=? 3) && boundedRuns (S cur) rest
      else boundedRuns 0 rest
  end.

(** The count the loop of [limitList] works with: [listCount] matters only
    inside a list. *)
Definition effectiveCount (listCount : nat) (inList : bool) : nat :=
  if inList then listCount else 0.

(** The three characters that carry markup. *)
Definition isMarkupChar (c : ascii) : bool :=
  Ascii.eqb c "<"%char || Ascii.eqb c ">"%char || Ascii.eqb c "&"%char.

(** The escaped forms, and the tags the renderer itself writes. *)
Definition ENTITIES : list jsstring :=
  map str ["&amp;"; "&nbsp;"; "&lt;"; "&gt;"]%string.

Definition RENDERER_TAGS : list jsstring :=
  map str ["<ol>"; "</ol>"; "<ul>"; "</ul>"; "<li>"; "</li>";
           "<strong>"; "</strong>"; "<p>"; "</p>"; "<br>"]%string.

(** Safe markup: ordinary characters, entities and the renderer's own tags;
    so an angle bracket only occurs in one of those tags and an ampersand
    only at the head of an entity. *)
Inductive safeMarkup : jsstring -> Prop :=
| safe_nil : safeMarkup []
| safe_char (c : ascii) (s : jsstring) :
    isMarkupChar c = false -> safeMarkup s -> safeMarkup (c :: s)
| safe_entity (e s : jsstring) :
    In e ENTITIES -> safeMarkup s -> safeMarkup (e ++ s)
| safe_tag (t s : jsstring) :
    In t RENDERER_TAGS -> safeMarkup s -> safeMarkup (t ++ s).

(** The markup characters of a text, in order. *)
Definition markupOf (s : jsstring) : jsstring := List.filter isMarkupChar s.

(** [renders raw out]: the markup [out] is the text [raw], every character
    of it escaped, with tags of the renderer put in between. *)
Inductive renders : jsstring -> jsstring -> Prop :=
| renders_nil : renders [] []
| renders_raw (c : ascii) (raw out : jsstring) :
    renders raw out -> renders (c :: raw) (escapeChar c ++ out)
| renders_tag (t raw out : jsstring) :
    In t RENDERER_TAGS -> renders raw out -> renders raw (t ++ out).

(** The same for an array of pieces of markup, [raw] being the text of all
    of them in order. *)
Definition rendersAll (raw : jsstring) (outs : list jsstring) : Prop :=
  exists raws, Forall2 renders raws outs /\ concat raws = raw.

(** The rendering loop keeps pieces of markup whose text, the finished
    pieces first and the items of the open list after them, has the markup
    characters [m]; items are only kept while a list is open. *)
Definition stateRenders (m : jsstring) (st : RenderState) : Prop :=
  (currentList st = None -> listItems st = [])
  /\ exists r1 r2,
       rendersAll r1 (result st) /\ rendersAll r2 (listItems st)
       /\ markupOf (r1 ++ r2) = m.

(** ** Concrete inputs used below *)

Definition history_C4 : list Message :=
  [ mkMessage user (str "what is your pricing");
    mkMessage assistant (str "It depends on the building.");
    mkMessage user (str "ok");
    mkMessage assistant (str "Anything else?");
    mkMessage user (str "thanks");
    mkMessage assistant (str "You are welcome.") ].

Definition entry_C7 (r c : string) : JsValue :=
  JObject [(str "role", JString (str r)); (str "content", JString (str c))].

(** Ten valid entries followed by one the filter drops. *)
Definition items_C7 : list JsValue :=
  [ entry_C7 "user" "m1"; entry_C7 "assistant" "m2"; entry_C7 "user" "m3";
    entry_C7 "assistant" "m4"; entry_C7 "user" "m5"; entry_C7 "assistant" "m6";
    entry_C7 "user" "m7"; entry_C7 "assistant" "m8"; entry_C7 "user" "m9";
    entry_C7 "assistant" "m10"; entry_C7 "assistant" "" ].

(** A provider failure that carries a status. *)
Definition providerError_C2 : JsError :=
  {| err_name := str "APIError";
     err_message := str "503 upstream shard gpt-7 unavailable (request id req_81f3, key sk-live)";
     err_status := Some 503%Z |}.

Definition completeOk (text : string) : ProviderRequest -> ProviderOutcome :=
  fun _ => Completed (str text).

Definition noChange : jsstring -> jsstring := fun s => s.

Definition lines (ls : list string) : jsstring := joinLines (map str ls).

Definition text_C5 : jsstring := lines ["- a"; "- b"; "- c"; "note"; "- d"].


(** ** An instance of the JSON codec

    [JSON.stringify] of a history as the browser writes it, and the reading
    back of such text, for contents whose only characters in need of an
    escape are the quote, the backslash and the line feed. *)

Definition BACKSLASH : ascii := ascii_of_N 92.

Definition quoted (s : jsstring) : jsstring := [DQUOTE] ++ s ++ [DQUOTE].

Definition jsonEscapeChar (c : ascii) : jsstring :=
  if Ascii.eqb c DQUOTE then [BACKSLASH; DQUOTE]
  else if Ascii.eqb c BACKSLASH then [BACKSLASH; BACKSLASH]
  else if Ascii.eqb c LF then [BACKSLASH; "n"%char]
  else [c].

Definition roleName (r : Role) : jsstring :=
  match r with
  | user => str "user"
  | assistant => str "assistant"
  | system => str "system"
  end.

Definition jsonMessage (m : Message) : jsstring :=
  str "{" ++ quoted (str "role") ++ str ":" ++ quoted (roleName (role m))
  ++ str "," ++ quoted (str "content") ++ str ":"
  ++ quoted (flat_map jsonEscapeChar (content m)) ++ str "}".

Definition jsonStringify (h : list Message) : jsstring :=
  str "[" ++ joinWith (str ",") (map jsonMessage h) ++ str "]".

(** A string literal from right after its opening quote: its value and
    what follows the closing quote. *)
Fixpoint jsonReadString (s : jsstring) : option (jsstring * jsstring) :=
  match s with
  | [] => None
  | c :: s' =>
      if Ascii.eqb c DQUOTE then Some ([], s')
      else if Ascii.eqb c BACKSLASH then
        match s' with
        | e :: s'' =>
            let unescaped :=
              if Ascii.eqb e DQUOTE then Some DQUOTE
              else if Ascii.eqb e BACKSLASH then Some BACKSLASH
              else if Ascii.eqb e "n"%char then Some LF
              else None in
            match unescaped, jsonReadString s'' with
            | Some x, Some (v, rest) => Some (x :: v, rest)
            | _, _ => None
            end
        | [] => None
        end
      else
        match jsonReadString s' with
        | Some (v, rest) => Some (c :: v, rest)
        | None => None
        end
  end.

Definition roleOfName (n : jsstring) : option Role :=
  if jsstring_eqb n (str "user") then Some user
  else if jsstring_eqb n (str "assistant") then Some assistant
  else if jsstring_eqb n (str "system") then Some system
  else None.

(** One message object at the head of [s], and what follows it. *)
Definition jsonReadMessage (s : jsstring) : option (Message * jsstring) :=
  match stripPrefixBy Ascii.eqb (str "{" ++ quoted (str "role") ++ str ":" ++ [DQUOTE]) s with
  | None => None
  | Some s1 =>
      match jsonReadString s1 with
      | None => None
      | Some (name, s2) =>
          match roleOfName name,
                stripPrefixBy Ascii.eqb
                  (str "," ++ quoted (str "content") ++ str ":" ++ [DQUOTE]) s2 with
          | Some r, Some s3 =>
              match jsonReadString s3 with
              | Some (c, s4) =>
                  match stripPrefixBy Ascii.eqb (str "}") s4 with
                  | Some s5 => Some (mkMessage r c, s5)
                  | None => None
                  end
              | None => None
              end
          | _, _ => None
          end
      end
  end.

(** The messages up to the closing bracket; every message takes at least
    one character, [fuel] bounds their number. *)
Fixpoint jsonReadMessages (fuel : nat) (s : jsstring) : option (list Message) :=
  match fuel with
  | 0 => None
  | S fuel' =>
      match jsonReadMessage s with
      | Some (m, rest) =>
          match rest with
          | [c] => if Ascii.eqb c "]"%char then Some [m] else None
          | c :: rest' =>
              if Ascii.eqb c ","%char then
                match jsonReadMessages fuel' rest' with
                | Some ms => Some (m :: ms)
                | None => None
                end
              else None
          | [] => None
          end
      | None => None
      end
  end.

Definition jsonParse (s : jsstring) : option (list Message) :=
  match s with
  | c :: rest =>
      if Ascii.eqb c "["%char then
        if jsstring_eqb rest (str "]") then Some []
        else jsonReadMessages (length rest) rest
      else None
  | [] => None
  end.

Definition history_C8 : list Message :=
  [ mkMessage user (str "What is DAS?");
    mkMessage assistant (str "A distributed antenna system.");
    mkMessage user (lines ["Two lines,"; "one quote: "] ++ [DQUOTE]) ].

(** ** Further readings, for the properties beyond the specification *)

(** [[.!?]] *)
Definition isSentenceEnd (c : ascii) : bool :=
  Ascii.eqb c "."%char || Ascii.eqb c "!"%char || Ascii.eqb c "?"%char.

(** No sentence-ending mark is directly followed by a letter. *)
Fixpoint spacedOk (s : jsstring) : bool :=
  match s with
  | c :: ((l :: _) as t) => negb (isSentenceEnd c && isAsciiLetter l) && spacedOk t
  | _ => true
  end.

Definition withoutSpaces (s : jsstring) : jsstring :=
  List.filter (fun c => negb (Ascii.eqb c " "%char)) s.

(** The loop of [limitList] with its two variables merged into the count
    that matters. *)
Fixpoint limitFrom (count : nat) (lines : list jsstring) : list jsstring :=
  match lines with
  | [] => []
  | line :: rest =>
      if isListItem line then
        if count <? 3 then line :: limitFrom (S count) rest
        else limitFrom (S count) rest
      else if isBlank line then line :: limitFrom 0 rest
      else line :: limitFrom count rest
  end.


(** The request is well formed: the persona first, then at most 10 kept
    history entries, then the user's message. *)
Definition wellFormedRequest (SYSTEM_PROMPT : jsstring) (req : ProviderRequest)
  : Prop :=
  exists history message,
    req_messages req
    = [mkMessage system SYSTEM_PROMPT] ++ history ++ [mkMessage user message]
    /\ length history <= 10
    /\ Forall sanitizedEntry history
    /\ message <> [] /\ length message <= 250
    /\ (req_max_tokens req = 180 \/ req_max_tokens req = 500).

(** ** The message view and sending (chatbot/chatbot.js) *)

(** What [#chatbot-messages] holds: message bubbles with their [innerHTML],
    the typing placeholder, and the consultation call-to-action. *)
Inductive ViewItem : Type :=
| Bubble (r : Role) (html : jsstring)
| TypingIndicator
| ConsultationCta.

Record Chat : Type := mkChat {
  chat_widget : Widget;
  chat_view : list ViewItem
}.

Definition GREETING : jsstring :=
  str "Hello! I'm your LinkWave assistant. I can answer questions about DAS systems, wireless solutions, and help you book a consultation with our team. How can I help you today?".

Definition FALLBACK : jsstring :=
  str "I apologize, but I'm having trouble connecting right now. Please contact us directly at 1-888-859-2673 or info@linkwavewireless.com for immediate assistance.".

(** [addMessage(role, content, isTyping)]: one more element at the end of
    the view. *)
Definition addMessage (r : Role) (content : jsstring) (isTyping : bool)
    (view : list ViewItem) : list ViewItem :=
  view ++ [if isTyping then TypingIndicator else Bubble r (markdownToHTML content)].

(** [restoreMessages]: the [forEach] over the history shows the assistant and
    user entries and passes over any other; an empty history shows the
    greeting. *)
Definition restoreMessages (c : Chat) : Chat :=
  let history := conversationHistory (chat_widget c) in
  let view :=
    match history with
    | _ :: _ =>
        fold_left
          (fun view msg =>
             match role msg with
             | assistant => addMessage assistant (content msg) false view
             | user => addMessage user (content msg) false view
             | system => view
             end)
          history (chat_view c)
    | [] => addMessage assistant GREETING false (chat_view c)
    end in
  {| chat_widget := chat_widget c; chat_view := view |}.

(** The frames [addMessageWithTyping] writes into its element, one every
    20 ms, line by line and character by character, before the final
    render. *)
Fixpoint typeLines (displayedLines lines : list jsstring) : list jsstring :=
  match lines with
  | [] => []
  | line :: rest =>
      map (fun i => markdownToHTML (joinLines (displayedLines ++ [firstn i line])))
        (seq 0 (S (length line)))
      ++ typeLines (displayedLines ++ [line]) rest
  end.

Definition typingFrames (content : jsstring) : list jsstring :=
  typeLines [] (splitLines content).

(** How the awaited [fetch] ends: a 2xx answer whose [data.response] is a
    string; a 2xx answer without such a string; anything else (network
    error, other status, unreadable body). *)
Inductive FetchOutcome : Type :=
| FetchOk (response : jsstring) (consultationIntent : bool)
| FetchOkWithoutText
| FetchFailed.

(** [element.remove()] of the element added when the view had [index]
    elements. *)
Definition removeAt (index : nat) (view : list ViewItem) : list ViewItem :=
  firstn index view ++ skipn (S index) view.

Section Sending.

Variable JSON_stringify : list Message -> jsstring.
Variable quota : string -> jsstring -> bool.

Definition pushHistory (m : Message) (w : Widget) : Widget :=
  {| conversationHistory := conversationHistory w ++ [m];
     localStorage := localStorage w |}.

(** [sendMessage(message)], run to its end without another send in between;
    [sentAt] and [repliedAt] are the values of [Date.now()] at the two saves.
    The reply is shown through its typing frames, of which the last render
    stays.  Without a text in the answer, [addMessageWithTyping] appends its
    empty element and then throws; the [catch] block removes the placeholder
    (already gone by then) and shows the fallback. *)
Definition sendMessage (sentAt repliedAt : Z) (outcome : FetchOutcome)
    (message : jsstring) (c : Chat) : Chat :=
  let view := addMessage user message false (chat_view c) in
  let w := saveHistory JSON_stringify quota sentAt
             (pushHistory (mkMessage user message) (chat_widget c)) in
  let typingMessage := length view in
  let view := addMessage assistant [] true view in
  match outcome with
  | FetchOk response consultationIntent =>
      let view := removeAt typingMessage view in
      let view := view ++ [Bubble assistant (markdownToHTML response)] in
      let w := saveHistory JSON_stringify quota repliedAt
                 (pushHistory (mkMessage assistant response) w) in
      {| chat_widget := w;
         chat_view := if consultationIntent then view ++ [ConsultationCta] else view |}
  | FetchOkWithoutText =>
      let view := removeAt typingMessage view in
      let view := view ++ [Bubble assistant []] in
      {| chat_widget := w; chat_view := addMessage assistant FALLBACK false view |}
  | FetchFailed =>
      let view := removeAt typingMessage view in
      {| chat_widget := w; chat_view := addMessage assistant FALLBACK false view |}
  end.

End Sending.

(** The form's submit listener: [input.value.trim()], sent when not empty. *)
Definition submitted (inputValue : jsstring) : option jsstring :=
  match trim inputValue with
  | [] => None
  | message => Some message
  end.

Definition isBubble (item : ViewItem) : bool :=
  match item with Bubble _ _ => true | _ => false end.

(** Every bubble of the view holds safe markup. *)
Definition viewSafe (view : list ViewItem) : Prop :=
  Forall (fun item => match item with
                      | Bubble _ html => safeMarkup html
                      | _ => True
                      end) view.

Definition isShown (m : Message) : bool :=
  match role m with system => false | _ => true end.

(** What is on screen before the line being typed. *)
Definition typedSoFar (displayedLines : list jsstring) : jsstring :=
  match displayedLines with
  | [] => []
  | _ :: _ => joinLines displayedLines ++ [LF]
  end.

(** ** Regular expressions: the patterns of the two normalisers (part_001)

    The constructs their patterns use, matched by backtracking in the order
    the language prescribes: alternatives left to right, quantifiers greedy,
    captures of a quantified group reset at every iteration. *)

Inductive Regex : Type :=
| Eps
| Chars (p : ascii -> bool)
| Seq (r1 r2 : Regex)
| Alt (r1 r2 : Regex)
| Rep (min : nat) (max : option nat) (r : Regex)
| Group (i : nat) (r : Regex)
| WordBoundary.

Definition Captures : Type := list (nat * jsstring).

(** The state after a match: what is left of the input, and the captures. *)
Definition MatchResult : Type := (jsstring * Captures)%type.

(** A continuation takes the code unit before the position, the rest of
    the input and the captures. *)
Definition Continuation : Type :=
  option ascii -> jsstring -> Captures -> option MatchResult.

Fixpoint groupsOf (r : Regex) : list nat :=
  match r with
  | Eps | Chars _ | WordBoundary => []
  | Seq r1 r2 | Alt r1 r2 => groupsOf r1 ++ groupsOf r2
  | Rep _ _ r => groupsOf r
  | Group i r => i :: groupsOf r
  end.

Definition clearCaptures (r : Regex) (caps : Captures) : Captures :=
  List.filter (fun cap => negb (existsb (Nat.eqb (fst cap)) (groupsOf r))) caps.

Definition isWordAt (c : option ascii) : bool :=
  match c with Some c => isWordChar c | None => false end.

(** A greedy quantifier over the matcher [m] of its operand: at least
    [min] and at most [max] iterations, one more tried before the
    continuation.  An iteration that consumes nothing once the minimum is
    met fails.  [fuel] bounds the iterations. *)
Fixpoint repeatWith
    (m : option ascii -> jsstring -> Captures -> Continuation -> option MatchResult)
    (clear : Captures -> Captures) (k : Continuation)
    (fuel min : nat) (max : option nat) (prev : option ascii)
    (s : jsstring) (caps : Captures) {struct fuel} : option MatchResult :=
  match fuel with
  | 0 => None
  | S fuel' =>
      match max with
      | Some 0 => k prev s caps
      | _ =>
          let d : Continuation := fun prev' s' caps' =>
            if (min =? 0) && (length s' =? length s) then None
            else repeatWith m clear k fuel' (pred min) (option_map pred max)
                   prev' s' caps' in
          let z := m prev s (clear caps) d in
          match min with
          | S _ => z
          | 0 => match z with
                 | Some z => Some z
                 | None => k prev s caps
                 end
          end
      end
  end.

(** The matcher of a pattern.  The bound on the iterations of a quantifier
    is the minimum still owed plus the code units left plus one, since an
    iteration either pays one off or consumes a code unit; [extra] is added
    to it. *)
Fixpoint matchReWith (extra : nat) (r : Regex) (prev : option ascii)
    (s : jsstring) (caps : Captures) (k : Continuation) {struct r}
  : option MatchResult :=
  match r with
  | Eps => k prev s caps
  | Chars p =>
      match s with
      | c :: s' => if p c then k (Some c) s' caps else None
      | [] => None
      end
  | Seq r1 r2 =>
      matchReWith extra r1 prev s caps
        (fun prev' s' caps' => matchReWith extra r2 prev' s' caps' k)
  | Alt r1 r2 =>
      match matchReWith extra r1 prev s caps k with
      | Some z => Some z
      | None => matchReWith extra r2 prev s caps k
      end
  | Group i r1 =>
      matchReWith extra r1 prev s caps
        (fun prev' s' caps' =>
           k prev' s' ((i, firstn (length s - length s') s) :: caps'))
  | WordBoundary =>
      if xorb (isWordAt prev) (isWordAt (hd_error s)) then k prev s caps else None
  | Rep min max r1 =>
      repeatWith (matchReWith extra r1) (clearCaptures r1) k
        (extra + S (min + length s)) min max prev s caps
  end.

Definition matchRe : Regex -> option ascii -> jsstring -> Captures
                     -> Continuation -> option MatchResult :=
  matchReWith 0.

(** A replacement string: literal text and [$n] references. *)
Inductive Piece : Type :=
| Lit (text : jsstring)
| Ref (i : nat).

Definition capture (i : nat) (caps : Captures) : jsstring :=
  match List.find (fun cap => Nat.eqb (fst cap) i) caps with
  | Some cap => snd cap
  | None => []
  end.

Definition expand (replacement : list Piece) (caps : Captures) : jsstring :=
  flat_map (fun piece => match piece with
                         | Lit text => text
                         | Ref i => capture i caps
                         end) replacement.

(** String.prototype.replace with a [/g] pattern, from a position on:
    [skip] code units are still inside the last match; after an empty match
    the search moves on by one code unit. *)
Fixpoint replaceFrom (regex : Regex) (replacement : list Piece) (skip : nat)
    (prev : option ascii) (s : jsstring) : jsstring :=
  match skip with
  | S skip' =>
      match s with
      | [] => []
      | c :: rest => replaceFrom regex replacement skip' (Some c) rest
      end
  | 0 =>
      match matchRe regex prev s [] (fun _ s' caps => Some (s', caps)) with
      | Some (s', caps) =>
          expand replacement caps
          ++ match s with
             | [] => []
             | c :: rest =>
                 match length s - length s' with
                 | 0 => c :: replaceFrom regex replacement 0 (Some c) rest
                 | S n => replaceFrom regex replacement n (Some c) rest
                 end
             end
      | None =>
          match s with
          | [] => []
          | c :: rest => c :: replaceFrom regex replacement 0 (Some c) rest
          end
      end
  end.

Definition replaceAll (regex : Regex) (replacement : list Piece) (s : jsstring)
  : jsstring :=
  replaceFrom regex replacement 0 None s.

Fixpoint seqs (rs : list Regex) : Regex :=
  match rs with
  | [] => Eps
  | [r] => r
  | r :: rs' => Seq r (seqs rs')
  end.

(** A literal under [/i]. *)
Definition lit (w : string) : Regex :=
  seqs (map (fun a => Chars (fun c => ciEqb c a)) (str w)).

Definition opt (r : Regex) : Regex := Rep 0 (Some 1) r.
Definition star (r : Regex) : Regex := Rep 0 None r.
Definition plus (r : Regex) : Regex := Rep 1 None r.
Definition spaces : Regex := plus (Chars isWhiteSpace).
Definition digits (n m : nat) : Regex := Rep n (Some m) (Chars isDigit).

(** ** The two remaining normalisers (part_001) *)

(** [[-.\s]] *)
Definition isPhoneSeparator (c : ascii) : bool :=
  Ascii.eqb c "-"%char || Ascii.eqb c "."%char || isWhiteSpace c.

(** [[\w.+-]] and [[\w.-]]; under [/i] they hold the same code units. *)
Definition isLocalPartChar (c : ascii) : bool :=
  isWordChar c || Ascii.eqb c "."%char || Ascii.eqb c "+"%char
  || Ascii.eqb c "-"%char.

Definition isDomainChar (c : ascii) : bool :=
  isWordChar c || Ascii.eqb c "."%char || Ascii.eqb c "-"%char.

(** A phone number: 1 to 3 digits, 3 digits, 3 digits, 4 digits, each
    group optionally followed by one separator, between word boundaries. *)
Definition phoneRe : Regex :=
  seqs [WordBoundary; digits 1 3; opt (Chars isPhoneSeparator);
        digits 3 3; opt (Chars isPhoneSeparator);
        digits 3 3; opt (Chars isPhoneSeparator);
        digits 4 4; WordBoundary].

(** An e-mail address; [[a-z]] under [/i] is the ASCII letters. *)
Definition emailRe : Regex :=
  seqs [WordBoundary; plus (Chars isLocalPartChar); lit "@";
        plus (Chars isDomainChar); lit ".";
        Rep 2 None (Chars isAsciiLetter); WordBoundary].

(** call or phone, blanks, then optionally: us, directly, at. *)
Definition callUsRe : Regex :=
  seqs [WordBoundary; Group 1 (Alt (lit "call") (lit "phone")); spaces;
        opt (Group 2 (Seq (lit "us") spaces));
        opt (Group 3 (Seq (lit "directly") spaces));
        opt (Group 4 (Seq (lit "at") (star (Chars isWhiteSpace))));
        WordBoundary].

Definition orYouCanCallRe : Regex :=
  seqs [WordBoundary; lit "or"; spaces; lit "you"; spaces; lit "can"; spaces;
        lit "call"; WordBoundary].

(** replace(/\s{2,}/g, ' '): a run of two or more blanks becomes one space;
    a single blank stays what it is.  [skipping] holds inside a run that has
    been replaced. *)
Fixpoint collapseFrom (skipping : bool) (s : jsstring) : jsstring :=
  match s with
  | [] => []
  | c :: s' =>
      if isWhiteSpace c then
        if skipping then collapseFrom true s'
        else match s' with
             | c2 :: _ =>
                 if isWhiteSpace c2 then " "%char :: collapseFrom true s'
                 else c :: collapseFrom false s'
             | [] => [c]
             end
      else c :: collapseFrom false s'
  end.

Definition collapseSpaces (s : jsstring) : jsstring := collapseFrom false s.

(** replace(/\s+([,.!?])/g, '$1') and replace(/\s+\./g, '.'): a run of
    blanks goes when one of the marks follows it, and stays otherwise.
    [pending] is the run read so far. *)
Fixpoint dropSpacesBefore (isMark : ascii -> bool) (pending s : jsstring)
  : jsstring :=
  match s with
  | [] => pending
  | c :: s' =>
      if isWhiteSpace c then dropSpacesBefore isMark (pending ++ [c]) s'
      else if isMark c then c :: dropSpacesBefore isMark [] s'
      else pending ++ c :: dropSpacesBefore isMark [] s'
  end.

(** [[,.!?]] *)
Definition isPunctuation (c : ascii) : bool :=
  Ascii.eqb c ","%char || isSentenceEnd c.

Definition isDot (c : ascii) : bool := Ascii.eqb c "."%char.

(** replace(/\.{2,}/g, '.'): of a run of dots one is left. *)
Fixpoint collapseDots (s : jsstring) : jsstring :=
  match s with
  | c :: ((c2 :: _) as s') =>
      if isDot c && isDot c2 then collapseDots s' else c :: collapseDots s'
  | _ => s
  end.

Definition removeContactInfo (text : jsstring) : jsstring :=
  let text := replaceAll phoneRe [] text in
  let text := replaceAll emailRe [] text in
  let text := replaceAll callUsRe [] text in
  let text := replaceAll orYouCanCallRe [] text in
  let text := collapseSpaces text in
  let text := dropSpacesBefore isPunctuation [] text in
  trim text.

(** An optional quotation mark, double or single. *)
Definition quoteMark : Regex :=
  opt (Chars (fun c => Ascii.eqb c DQUOTE || Ascii.eqb c "'"%char)).

Definition onTheSite : list Regex :=
  [lit "on"; spaces;
   Group 1 (Alt (lit "our") (Alt (lit "the") (lit "this"))); spaces;
   Group 2 (Alt (lit "website") (lit "site"))].

(** The three patterns of [fixButtonReferences] with their replacements. *)
Definition patterns : list (Regex * list Piece) :=
  [ (seqs [Group 1 (Alt (lit "click")
                      (Alt (lit "use") (Alt (lit "press") (lit "select"))));
           spaces; opt (Group 2 (Seq (lit "the") spaces));
           quoteMark; lit "Book Consultation"; quoteMark; spaces;
           lit "button"; spaces; lit "below"; spaces;
           lit "on"; spaces;
           Group 3 (Alt (lit "our") (Alt (lit "the") (lit "this"))); spaces;
           Group 4 (Alt (lit "website") (lit "site"))],
     [Ref 1; Lit (str " "); Ref 2;
      Lit ([DQUOTE] ++ str "Book Consultation" ++ [DQUOTE] ++ str " button below")]);
    (seqs ([lit "button"; spaces; lit "below"; spaces] ++ onTheSite),
     [Lit (str "button below")]);
    (seqs (onTheSite ++ [spaces; lit "below"]),
     [Lit (str "below")]) ].

Definition fixButtonReferences (text : jsstring) : jsstring :=
  match text with
  | [] => text
  | _ :: _ =>
      let fixed :=
        fold_left (fun fixed pattern =>
                     replaceAll (fst pattern) (snd pattern) fixed)
          patterns text in
      let fixed := collapseSpaces fixed in
      let fixed := dropSpacesBefore isDot [] fixed in
      let fixed := collapseDots fixed in
      trim fixed
  end.

(** A text as the clean-up at the end of both normalisers leaves it: no
    blank at either end, no two blanks in a row, no blank before one of the
    marks. *)
Fixpoint noPair (bad : ascii -> ascii -> bool) (s : jsstring) : bool :=
  match s with
  | a :: ((b :: _) as t) => negb (bad a b) && noPair bad t
  | _ => true
  end.

Definition twoBlanks (a b : ascii) : bool := isWhiteSpace a && isWhiteSpace b.
Definition blankBefore (isMark : ascii -> bool) (a b : ascii) : bool :=
  isWhiteSpace a && isMark b.
Definition twoDots (a b : ascii) : bool := isDot a && isDot b.

(** The words a pattern can consume, whatever stands around them: a word
    boundary consumes nothing. *)
Fixpoint lang (r : Regex) (w : jsstring) {struct r} : Prop :=
  match r with
  | Eps | WordBoundary => w = []
  | Chars p => exists c, w = [c] /\ p c = true
  | Seq r1 r2 => exists w1 w2, w = w1 ++ w2 /\ lang r1 w1 /\ lang r2 w2
  | Alt r1 r2 => lang r1 w \/ lang r2 w
  | Rep min max r1 =>
      exists ws, w = concat ws /\ Forall (lang r1) ws
                 /\ min <= length ws
                 /\ forall m, max = Some m -> length ws <= m
  | Group _ r1 => lang r1 w
  end.

(** No quantifier asks for more iterations than it allows (such a pattern
    is a syntax error). *)
Fixpoint wellFormed (r : Regex) : bool :=
  match r with
  | Eps | Chars _ | WordBoundary => true
  | Seq r1 r2 | Alt r1 r2 => wellFormed r1 && wellFormed r2
  | Rep min max r1 =>
      match max with Some m => min <=? m | None => true end && wellFormed r1
  | Group _ r1 => wellFormed r1
  end.

Definition allAscii : list ascii := map ascii_of_nat (seq 0 256).

(** Every code unit of the class [p] is in the class [q]. *)
Definition charsWithin (p q : ascii -> bool) : bool :=
  forallb (fun c => implb (p c) (q c)) allAscii.

Definition count (q : ascii -> bool) (s : jsstring) : nat :=
  length (List.filter q s).

(** A number of code units of the class [q] that every word of the pattern
    holds. *)
Fixpoint minCount (q : ascii -> bool) (r : Regex) : nat :=
  match r with
  | Eps | WordBoundary => 0
  | Chars p => if charsWithin p q then 1 else 0
  | Seq r1 r2 => minCount q r1 + minCount q r2
  | Alt r1 r2 => Nat.min (minCount q r1) (minCount q r2)
  | Rep min _ r1 => min * minCount q r1
  | Group _ r1 => minCount q r1
  end.

(** The pattern consumes code units of the class [q] only. *)
Fixpoint allChars (q : ascii -> bool) (r : Regex) : bool :=
  match r with
  | Eps | WordBoundary => true
  | Chars p => charsWithin p q
  | Seq r1 r2 | Alt r1 r2 => allChars q r1 && allChars q r2
  | Rep _ _ r1 | Group _ r1 => allChars q r1
  end.

(** A matcher calls its continuation on what is left of its input, so
    continuations that agree there are interchangeable. *)
Definition respectsSuffixes
    (m : option ascii -> jsstring -> Captures -> Continuation -> option MatchResult)
  : Prop :=
  forall prev s caps (k1 k2 : Continuation),
    (forall prev' s' caps',
        length s' <= length s -> k1 prev' s' caps' = k2 prev' s' caps') ->
    m prev s caps k1 = m prev s caps k2.

(** Whenever the matcher succeeds it has consumed a word of [L] and the
    continuation has succeeded on the rest. *)
Definition soundFor (L : jsstring -> Prop)
    (m : option ascii -> jsstring -> Captures -> Continuation -> option MatchResult)
  : Prop :=
  forall prev s caps (k : Continuation) z,
    m prev s caps k = Some z ->
    exists w s' prev' caps',
      s = w ++ s' /\ L w /\ k prev' s' caps' = Some z.

(** The clean-up of [fixButtonReferences] and of [removeContactInfo], and
    the texts it leaves alone. *)
Definition cleanUpDots (text : jsstring) : jsstring :=
  trim (collapseDots (dropSpacesBefore isDot [] (collapseSpaces text))).

Definition cleanUpPunctuation (text : jsstring) : jsstring :=
  trim (dropSpacesBefore isPunctuation [] (collapseSpaces text)).

Definition isClean (isMark : ascii -> bool) (text : jsstring) : Prop :=
  isTrimmed text /\ noPair twoBlanks text = true
  /\ noPair (blankBefore isMark) text = true.

(** The text holds the word, in whatever case. *)
Definition mentions (text : jsstring) (word : string) : bool :=
  includesBy ciEqb text (str word).

(** ** The fallback environment loader (part_001) *)

(** String.prototype.indexOf of one code unit; [None] is -1. *)
Fixpoint indexOf (a : ascii) (s : jsstring) : option nat :=
  match s with
  | [] => None
  | c :: s' => if Ascii.eqb c a then Some 0 else option_map S (indexOf a s')
  end.

(** [process.env[key]] is truthy: set, and not to the empty string. *)
Definition isSet (env : gmap string jsstring) (key : string) : bool :=
  match env !! key with
  | Some value => truthy value
  | None => false
  end.

(** One line of the file: blank lines, comments, and lines without a name
    before the equals sign define nothing; a variable that is set is left
    alone. *)
Definition loadLine (env : gmap string jsstring) (line : jsstring)
  : gmap string jsstring :=
  let trimmed := trim line in
  if negb (truthy trimmed) || startsWith trimmed (str "#") then env
  else
    match indexOf "="%char trimmed with
    | Some idx =>
        if 0 <? idx then
          let key := string_of_list_ascii (firstn idx trimmed) in
          let val := skipn (S idx) trimmed in
          if isSet env key then env else <[key := val]> env
        else env
    | None => env
    end.

(** The loader: [file] is the content of [.env] when the file exists.  It
    runs only when OPENAI_API_KEY is not set after [dotenv].  The byte order
    mark the source strips first is not among the code units modelled
    here. *)
Definition loadEnvFallback (file : option jsstring) (env : gmap string jsstring)
  : gmap string jsstring :=
  if isSet env "OPENAI_API_KEY" then env
  else
    match file with
    | Some content => fold_left loadLine (splitLines content) env
    | None => env
    end.

(** The line defines [key] as [val]. *)
Definition defines (line : jsstring) (key : string) (val : jsstring) : Prop :=
  trim line = str key ++ "="%char :: val
  /\ key <> ""%string
  /\ ~ In "="%char (str key)
  /\ startsWith (trim line) (str "#") = false.

(** A line that is no list item and holds no star. *)
Definition isPlainLine (line : jsstring) : Prop :=
  numberedMatch (trim line) = None /\ bulletMatch (trim line) = None
  /\ ~ In "*"%char line.

(** The paragraph element around a body that is not empty. *)
Definition paragraph (body : jsstring) : jsstring :=
  match body with
  | [] => []
  | _ :: _ => str "<p>" ++ body ++ str "</p>"
  end.

(** Escaped text: ordinary characters and entities. *)
Inductive escapedText : jsstring -> Prop :=
| escaped_nil : escapedText []
| escaped_char (c : ascii) (s : jsstring) :
    isMarkupChar c = false -> escapedText s -> escapedText (c :: s)
| escaped_entity (e s : jsstring) :
    In e ENTITIES -> escapedText s -> escapedText (e ++ s).

(** Inline markup: escaped text, [strong] elements around escaped text,
    and line breaks. *)
Inductive inlineMarkup : jsstring -> Prop :=
| inline_nil : inlineMarkup []
| inline_char (c : ascii) (s : jsstring) :
    isMarkupChar c = false -> inlineMarkup s -> inlineMarkup (c :: s)
| inline_entity (e s : jsstring) :
    In e ENTITIES -> inlineMarkup s -> inlineMarkup (e ++ s)
| inline_strong (inner s : jsstring) :
    escapedText inner -> inlineMarkup s ->
    inlineMarkup (str "<strong>" ++ inner ++ str "</strong>" ++ s)
| inline_br (s : jsstring) :
    inlineMarkup s -> inlineMarkup (str "<br>" ++ s).

(** A list item element, and a list element with at least one item. *)
Definition isItem (p : jsstring) : Prop :=
  exists body, inlineMarkup body /\ p = str "<li>" ++ body ++ str "</li>".

Definition isListElement (p : jsstring) : Prop :=
  exists k items,
    items <> [] /\ Forall isItem items
    /\ p = openTag (tagName k) ++ concat items ++ closeTag (tagName k).

Definition isBlock (p : jsstring) : Prop := inlineMarkup p \/ isListElement p.

(** Well-formed markup: one paragraph of inline markup, or a sequence of
    inline runs and list elements. *)
Definition wellFormedMarkup (out : jsstring) : Prop :=
  (exists body, inlineMarkup body /\ out = paragraph body)
  \/ (exists blocks, Forall isBlock blocks /\ out = concat blocks).

(** The rendering loop keeps blocks in [result] and items in [listItems]. *)
Definition stateWellFormed (st : RenderState) : Prop :=
  Forall isBlock (result st) /\ Forall isItem (listItems st).

(** ** The widget's request as the server reads it *)

(** An entry of the widget's history after [JSON.stringify] in the browser
    and [express.json] on the server. *)
Definition requestEntry (m : Message) : JsValue :=
  JObject [(str "role", JString (roleName (role m)));
           (str "content", JString (content m))].

(** [conversationHistory] in the body of the widget's request: [sendMessage]
    has pushed the user's message before it posts. *)
Definition requestHistory (history : list Message) : JsValue :=
  JArray (map requestEntry history).

(** ** Readings of the specification: equality up to case and blanks, the
    ordered-item pattern, inserted spaces *)

(** [core] is [s] without the blanks at its two ends. *)
Definition coreOf (s core : jsstring) : Prop :=
  exists l r,
    s = l ++ core ++ r
    /\ Forall (fun c => isWhiteSpace c = true) l
    /\ Forall (fun c => isWhiteSpace c = true) r
    /\ isTrimmed core.

(** "Equal after lowercasing and trimming": blanks at the ends aside, the
    two strings are the same in lower case. *)
Definition equalAfterLowercasingAndTrimming (a b : jsstring) : Prop :=
  exists ca cb, coreOf a ca /\ coreOf b cb /\ toLowerCase ca = toLowerCase cb.

(** Three user turns that differ in case and in blanks at the ends, with
    assistant turns in between. *)
Definition history_C3 : list Message :=
  [ mkMessage user (str "what is das?");
    mkMessage assistant (str "A distributed antenna system.");
    mkMessage user (str "WHAT IS DAS?   ");
    mkMessage assistant (str "A distributed antenna system.");
    mkMessage user (str " What Is Das?") ].






(** [spaceInserted s out]: [out] is [s] with single spaces put between a
    sentence-ending mark and the letter that directly follows it, at some of
    those places, and nothing else changed. *)
Inductive spaceInserted : jsstring -> jsstring -> Prop :=
| spaced_nil : spaceInserted [] []
| spaced_keep (c : ascii) (s out : jsstring) :
    spaceInserted s out -> spaceInserted (c :: s) (c :: out)
| spaced_insert (c l : ascii) (s out : jsstring) :
    isSentenceEnd c = true -> isAsciiLetter l = true ->
    spaceInserted (l :: s) out ->
    spaceInserted (c :: l :: s) (c :: " "%char :: out).

(** * Properties *)

(** ** The embedding on the examples of the specification *)

Example greeting_is_on_topic : isOffTopic (str "hello") [] = false.
Proof. vm_compute. reflexivity. Qed.

Example hill_is_no_greeting : greetingRe (str "hill") = false.
Proof. vm_compute. reflexivity. Qed.

Example weather_is_redirected :
  chatHandler (completeOk "unused") (str "persona") noChange noChange
    (str "what is the weather today") JUndefined
  = ({| status := 200; body := ChatReply REDIRECT false |}, []).
Proof. vm_compute. reflexivity. Qed.

Example pricing_is_consultation_intent :
  detectConsultationIntent (str "What is your PRICING?") [] = true.
Proof. vm_compute. reflexivity. Qed.

Example fixSpacing_example : fixSpacing (str "foo.Bar") = str "foo. Bar".
Proof. vm_compute. reflexivity. Qed.

Example renumber_bold_and_paren :
  fixNumberedLists (lines ["  **12)** a"; "text"; "7.b"; "3) c"])
  = lines ["  1. a"; "text"; "7.b"; "2. c"].
Proof. vm_compute. reflexivity. Qed.

Example markdown_example :
  markdownToHTML (lines ["Hi **you** <b>"; "1. one"; "2. two"; "- x"; "end"])
  = str "Hi <strong>you</strong> &lt;b&gt;<ol><li>one</li><li>two</li></ol><ul><li>x</li></ul><br>end".
Proof. vm_compute. reflexivity. Qed.

Example timeout_is_generic :
  fst (chatHandler
         (fun _ => Failed (mkError (str "AbortError") (str "aborted") None))
         (str "persona") noChange noChange (str "hello") JUndefined)
  = {| status := 500;
       body := ErrorWithMessage (str "Request failed") GENERIC_ERROR |}.
Proof. vm_compute. reflexivity. Qed.

(** ** Strings *)

Lemma jsstring_eqb_eq (a b : jsstring) : jsstring_eqb a b = true <-> a = b.
Proof.
  revert b; induction a as [|x a IH]; intros [|y b]; simpl; try easy.
  rewrite andb_true_iff, Ascii.eqb_eq, IH.
  split; [intros [-> ->]; reflexivity | intros [= -> ->]; auto].
Qed.

Lemma startsWith_spec (s p : jsstring) :
  startsWith s p = true <-> exists after, s = p ++ after.
Proof.
  unfold startsWith. revert s; induction p as [|a p IH]; intros s; simpl.
  - split; [exists s; reflexivity | reflexivity].
  - destruct s as [|c s].
    + split; [discriminate | intros [r [=]]].
    + rewrite andb_true_iff, Ascii.eqb_eq, IH. split.
      * intros [-> [r ->]]. exists r; reflexivity.
      * intros [r [= -> ->]]. split; [reflexivity | exists r; reflexivity].
Qed.

Lemma includes_spec (s k : jsstring) :
  includes s k = true <-> exists before after, s = before ++ k ++ after.
Proof.
  unfold includes. induction s as [|c s IH]; simpl.
  - rewrite orb_false_r. fold (startsWith [] k). rewrite startsWith_spec. split.
    + intros [r H]. exists [], r. exact H.
    + intros [b [a H]]. destruct b; [exists a; exact H |discriminate].
  - rewrite orb_true_iff. fold (startsWith (c :: s) k).
    rewrite startsWith_spec, IH. split.
    + intros [[r H] | [b [a H]]].
      * exists [], r. exact H.
      * exists (c :: b), a. simpl. rewrite H. reflexivity.
    + intros [[|c' b] [a H]].
      * left. exists a. exact H.
      * right. injection H as -> ->. exists b, a. reflexivity.
Qed.

Lemma mentionsAny_spec (keywords : list jsstring) (s : jsstring) :
  mentionsAny keywords s = true <-> mentionsKeyword keywords s.
Proof.
  unfold mentionsAny, mentionsKeyword, containsTerm.
  rewrite existsb_exists. split.
  - intros [k [Hin Hk]]. exists k. split; [exact Hin|]. apply includes_spec, Hk.
  - intros [k [Hin Hk]]. exists k. split; [exact Hin|]. apply includes_spec, Hk.
Qed.

Lemma sliceLast_suffix {A} (n : nat) (l : list A) :
  l = firstn (length l - n) l ++ sliceLast n l.
Proof. unfold sliceLast. symmetry. apply firstn_skipn. Qed.

Lemma sliceLast_length {A} (n : nat) (l : list A) :
  length (sliceLast n l) = Nat.min n (length l).
Proof. unfold sliceLast. rewrite length_skipn. lia. Qed.

Lemma sliceLast_app_exact {A} (n : nat) (a b : list A) :
  length b = n -> sliceLast n (a ++ b) = b.
Proof.
  intros <-. unfold sliceLast. rewrite length_app.
  replace (length a + length b - length b) with (length a) by lia.
  rewrite skipn_app, skipn_all, Nat.sub_diag. reflexivity.
Qed.

(** ** The repeated-question check *)

(** [isRepeated] through [normalize]: the user-role messages end with
    three turns whose normal form is that of the current message. *)
Lemma isRepeated_normalized (message : jsstring)
    (history : list Message) :
  (isRepeated message history = true <->
   exists earlier m1 m2 m3,
     List.filter isUser history = earlier ++ [m1; m2; m3]
     /\ normalize (content m1) = normalize message
     /\ normalize (content m2) = normalize message
     /\ normalize (content m3) = normalize message)
  /\ (length (List.filter isUser history) < 3 -> isRepeated message history = false).
Proof.
  unfold isRepeated. set (users := List.filter isUser history). split.
  - split.
    + destruct (length (sliceLast 3 users) <? 3) eqn:Hlen; [discriminate|].
      apply Nat.ltb_ge in Hlen. intros Hall.
      pose proof (sliceLast_suffix 3 users) as Hsplit.
      assert (Hl : length (sliceLast 3 users) <= 3)
        by (rewrite sliceLast_length; lia).
      destruct (sliceLast 3 users) as [|m1 [|m2 [|m3 [|m4 rest]]]];
        simpl in Hl, Hlen; try lia.
      simpl in Hall. rewrite !andb_true_iff, !jsstring_eqb_eq in Hall.
      exists (firstn (length users - 3) users), m1, m2, m3. tauto.
    + intros (earlier & m1 & m2 & m3 & Hu & H1 & H2 & H3).
      rewrite Hu, sliceLast_app_exact by reflexivity. simpl.
      rewrite !andb_true_iff, !jsstring_eqb_eq. tauto.
  - intros Hfew. rewrite sliceLast_length.
    replace (Nat.min 3 (length users) <? 3) with true; [reflexivity|].
    symmetry. apply Nat.ltb_lt. lia.
Qed.

(** ** Consultation intent *)

(** C4, as stated, fails: a keyword in one of the last 3 user-role messages
    that is not among the last 3 entries of the history is not seen. *)
Lemma detectConsultationIntent_misses_older_user_turn :
  consultationIntentSpec (str "and the weather") history_C4 = true
  /\ detectConsultationIntent (str "and the weather") history_C4 = false.
Proof. split; vm_compute; reflexivity. Qed.

(** C4, amended.  [detectConsultationIntent message history] is true exactly
    when the current message, or a user-role message among the last 3
    entries of the history, contains (case-insensitively) a term of the
    consultation-keyword set. *)
Theorem detectConsultationIntent_iff (message : jsstring) (history : list Message) :
  detectConsultationIntent message history = true <->
  (mentionsKeyword CONSULTATION_KEYWORDS message
   \/ exists m, In m (sliceLast 3 history) /\ role m = user
                /\ mentionsKeyword CONSULTATION_KEYWORDS (content m)).
Proof.
  unfold detectConsultationIntent.
  destruct (mentionsAny CONSULTATION_KEYWORDS message) eqn:Hm.
  - split; [intros _; left; apply mentionsAny_spec, Hm | reflexivity].
  - rewrite existsb_exists. split.
    + intros [m [Hin Hk]]. apply filter_In in Hin as [Hin Hu]. right.
      exists m. split; [exact Hin|]. split.
      * unfold isUser in Hu. destruct (role m); simpl in Hu; congruence.
      * apply mentionsAny_spec, Hk.
    + intros [Hk | [m [Hin [Hu Hk]]]].
      * apply mentionsAny_spec in Hk. congruence.
      * exists m. split; [|apply mentionsAny_spec, Hk].
        apply filter_In. split; [exact Hin|]. unfold isUser. rewrite Hu. reflexivity.
Qed.

(** ** The gating pipeline of POST /api/chat *)

Section Gating.

Variable complete : ProviderRequest -> ProviderOutcome.
Variable SYSTEM_PROMPT : jsstring.
Variable removeContactInfo : jsstring -> jsstring.
Variable fixButtonReferences : jsstring -> jsstring.

Local Abbreviation handler :=
  (chatHandler complete SYSTEM_PROMPT removeContactInfo fixButtonReferences).
Local Abbreviation post :=
  (postProcess removeContactInfo fixButtonReferences).

(** C1.  For a request that passed validation, the handler follows the
    precedence of the gating decision: repeated gives the fixed refusal
    with [consultationIntent = false] and no provider call; otherwise
    off-topic without consultation intent gives the fixed redirect with
    [consultationIntent = false] and no provider call; otherwise the
    provider is called once, with the persona, the history and the
    message, and a completion is answered with the computed
    [consultationIntent]. *)
Theorem chatHandler_gating_precedence (rawMessage : jsstring)
    (rawHistory : JsValue) :
  let message := validatedMessage rawMessage in
  let history := validatedHistory rawHistory in
  let intent := detectConsultationIntent message history in
  truthy message = true ->
  match gatingDecision (classify message history) with
  | ShortCircuitRepeated =>
      isRepeated message history = true
      /\ handler rawMessage rawHistory
         = ({| status := 200; body := ChatReply REFUSAL false |}, [])
  | ShortCircuitOffTopic =>
      isRepeated message history = false /\ intent = false
      /\ isOffTopic message history = true
      /\ handler rawMessage rawHistory
         = ({| status := 200; body := ChatReply REDIRECT false |}, [])
  | Proceed =>
      isRepeated message history = false
      /\ (intent = true \/ isOffTopic message history = false)
      /\ exists req,
          providerCalls (snd (handler rawMessage rawHistory)) = [req]
          /\ req_messages req
             = [mkMessage system SYSTEM_PROMPT] ++ sliceLast 10 history
               ++ [mkMessage user message]
          /\ forall text,
              complete req = Completed text ->
              fst (handler rawMessage rawHistory)
              = {| status := 200;
                   body := ChatReply (post intent text) intent |}
  end.
Proof.
  intros message history intent Hne. subst intent.
  unfold gatingDecision, classify; cbn [cr_repeated cr_consultationIntent cr_offTopic].
  unfold chatHandler.
  change (sanitizeString (JString rawMessage) 250) with message.
  change (validateConversationHistory _) with history.
  clearbody message history.
  destruct message as [|c0 m0]; [cbv in Hne; discriminate|].
  set (message := c0 :: m0) in *.
  destruct (isRepeated message history) eqn:Hrep; [split; reflexivity|].
  destruct (detectConsultationIntent message history) eqn:Hci; cbn [negb andb].
  - split; [reflexivity|]. split; [left; reflexivity|].
    match goal with |- context [complete ?r] => exists r end.
    split; [|split; [reflexivity|]].
    + destruct (complete _); [reflexivity|].
      unfold handleError; reflexivity.
    + intros text Ht. rewrite Ht. reflexivity.
  - destruct (isOffTopic message history) eqn:Hoff.
    + repeat split; reflexivity.
    + split; [reflexivity|]. split; [right; reflexivity|].
      match goal with |- context [complete ?r] => exists r end.
      split; [|split; [reflexivity|]].
      * destruct (complete _); [reflexivity|].
        unfold handleError; reflexivity.
      * intros text Ht. rewrite Ht. reflexivity.
Qed.

End Gating.

Lemma chatHandler_gating_precedence_witness :
  truthy (validatedMessage (str "hello")) = true
  /\ exists req,
       providerCalls
         (snd (chatHandler (completeOk "Hi there.") (str "persona") noChange
                 noChange (str "hello") JUndefined)) = [req].
Proof.
  split; [reflexivity|].
  generalize (chatHandler_gating_precedence (completeOk "Hi there.")
                (str "persona") noChange noChange (str "hello") JUndefined
                eq_refl).
  cbv zeta.
  change (gatingDecision (classify _ _)) with Proceed.
  intros (_ & _ & req & Hcalls & _). exists req. exact Hcalls.
Defined.

(** ** Failures of the completion call *)

(** C2, at a failing input.  A provider error that carries the status 503
    is answered with that status and with the provider's own message as
    the [message] field, not with the generic text. *)
Theorem chatHandler_exposes_provider_message (SYSTEM_PROMPT : jsstring)
    (removeContactInfo fixButtonReferences : jsstring -> jsstring) :
  fst (chatHandler (fun _ => Failed providerError_C2) SYSTEM_PROMPT
         removeContactInfo fixButtonReferences (str "what is das") JUndefined)
  = {| status := 503;
       body := ErrorWithMessage (str "Request failed")
                 (err_message providerError_C2) |}
  /\ err_message providerError_C2 <> GENERIC_ERROR.
Proof. split; [reflexivity | discriminate]. Qed.

(** What the catch block does in general: the generic text exactly when the
    status is missing, zero or 500; otherwise the error's own message (or a
    short default when it is empty). *)
Lemma handleError_message (e : JsError) :
  body (fst (handleError e))
  = ErrorWithMessage (str "Request failed")
      (if (statusOf e =? 500)%Z then GENERIC_ERROR
       else if truthy (err_message e) then err_message e
       else str "An error occurred").
Proof.
  unfold handleError; cbn [fst body].
  destruct (statusOf e =? 500)%Z; [reflexivity|].
  destruct (err_message e); reflexivity.
Qed.

(** ** History validation *)

Lemma filter_sliceLast_suffix {A} (p : A -> bool) (n : nat) (l : list A) :
  exists older, List.filter p l = older ++ List.filter p (sliceLast n l).
Proof.
  exists (List.filter p (firstn (length l - n) l)).
  rewrite <- List.filter_app, <- sliceLast_suffix. reflexivity.
Qed.

Lemma sliceLast_keeps_short_suffix {A} (n : nat) (older kept : list A) :
  length kept <= n ->
  exists older', sliceLast n (older ++ kept) = older' ++ kept.
Proof.
  intros Hlen. unfold sliceLast. rewrite length_app, skipn_app.
  replace (length older + length kept - n - length older) with 0 by lia.
  exists (skipn (length older + length kept - n) older). reflexivity.
Qed.

Lemma sliceLast_all {A} (n : nat) (l : list A) :
  length l <= n -> sliceLast n l = l.
Proof.
  intros H. unfold sliceLast. replace (length l - n) with 0 by lia. reflexivity.
Qed.

Lemma filter_all {A} (p : A -> bool) (l : list A) :
  forallb p l = true -> List.filter p l = l.
Proof.
  induction l as [|x l IH]; simpl; [reflexivity|].
  intros H. apply andb_true_iff in H as [-> H]. rewrite IH by exact H. reflexivity.
Qed.

Lemma sanitizeString_length (v : JsValue) (n : nat) :
  length (sanitizeString v n) <= n.
Proof.
  destruct v; simpl; try lia.
  destruct (n <? length _) eqn:H.
  - unfold substring0. rewrite length_firstn. lia.
  - apply Nat.ltb_ge in H. exact H.
Qed.

Lemma toMessage_sanitized (raw : JsValue) : sanitizedEntry (toMessage raw).
Proof.
  split; simpl.
  - destruct (isStringValue _ _); auto.
  - apply sanitizeString_length.
Qed.

(** C7, as stated, fails: with ten valid entries followed by an invalid
    one, capping first loses the oldest valid entry for nothing. *)
Lemma cap_then_filter_differs_from_filter_then_cap :
  validateConversationHistory (JArray items_C7) <> filterThenCap items_C7
  /\ length (validateConversationHistory (JArray items_C7)) = 9
  /\ length (filterThenCap items_C7) = 10.
Proof.
  split; [|split; reflexivity].
  intros H. apply (f_equal (@length Message)) in H. vm_compute in H. discriminate.
Qed.

(** C7, amended.  Validation caps to the last 10 entries and then filters.
    The result has at most 10 entries, each the sanitised form of a valid
    entry of the input, and is a suffix of what filtering first and capping
    afterwards gives (so its entries are most recent valid ones); the two
    orders agree when the input has at most 10 entries or when the last 10
    entries are all valid. *)
Theorem validateConversationHistory_cap_then_filter (items : list JsValue) :
  let kept := validateConversationHistory (JArray items) in
  length kept <= 10
  /\ Forall sanitizedEntry kept
  /\ (forall m, In m kept ->
        exists raw, In raw items /\ isValidEntry raw = true /\ m = toMessage raw)
  /\ (exists older, filterThenCap items = older ++ kept)
  /\ (length items <= 10 \/ forallb isValidEntry (sliceLast 10 items) = true ->
      kept = filterThenCap items).
Proof.
  cbn zeta. unfold validateConversationHistory, filterThenCap.
  assert (Hlen : length (map toMessage (List.filter isValidEntry (sliceLast 10 items))) <= 10).
  { rewrite length_map.
    pose proof (filter_length_le isValidEntry (sliceLast 10 items)) as H1.
    pose proof (sliceLast_length 10 items) as H2. lia. }
  split; [exact Hlen|]. split; [|split; [|split]].
  - apply List.Forall_forall. intros m Hm. apply in_map_iff in Hm as [raw [<- _]].
    apply toMessage_sanitized.
  - intros m Hm. apply in_map_iff in Hm as [raw [<- Hin]].
    apply filter_In in Hin as [Hin Hv]. exists raw. split; [|split; auto].
    rewrite (sliceLast_suffix 10 items). apply in_or_app. right. exact Hin.
  - destruct (filter_sliceLast_suffix isValidEntry 10 items) as [older ->].
    rewrite map_app. apply sliceLast_keeps_short_suffix. exact Hlen.
  - intros [Hshort | Hvalid].
    + rewrite (sliceLast_all 10 items) by exact Hshort.
      rewrite sliceLast_all; [reflexivity|].
      rewrite length_map.
      pose proof (filter_length_le isValidEntry items). lia.
    + destruct (Nat.le_gt_cases (length items) 10) as [Hshort | Hlong].
      * rewrite (sliceLast_all 10 items) by exact Hshort.
        rewrite sliceLast_all; [reflexivity|].
        rewrite length_map.
        pose proof (filter_length_le isValidEntry items). lia.
      * destruct (filter_sliceLast_suffix isValidEntry 10 items) as [older ->].
        rewrite map_app, filter_all by exact Hvalid.
        rewrite sliceLast_app_exact; [reflexivity|].
        rewrite length_map, sliceLast_length. lia.
Qed.

Lemma validateConversationHistory_cap_then_filter_witness :
  validateConversationHistory (JArray (removelast items_C7))
  = filterThenCap (removelast items_C7).
Proof.
  apply (validateConversationHistory_cap_then_filter (removelast items_C7)).
  left. vm_compute. lia.
Defined.

(** ** Trimming *)

Lemma takeWhile_dropWhile (p : ascii -> bool) (s : jsstring) :
  takeWhile p s ++ dropWhile p s = s.
Proof.
  induction s as [|c s IH]; simpl; [reflexivity|].
  destruct (p c); simpl; [rewrite IH|]; reflexivity.
Qed.

Lemma dropWhile_head (p : ascii -> bool) (s : jsstring) (c : ascii) (r : jsstring) :
  dropWhile p s = c :: r -> p c = false.
Proof.
  induction s as [|x s IH]; simpl; [discriminate|].
  destruct (p x) eqn:Hx; [exact IH|]. intros [= <- <-]. exact Hx.
Qed.

Lemma dropWhile_fixed (p : ascii -> bool) (c : ascii) (r : jsstring) :
  p c = false -> dropWhile p (c :: r) = c :: r.
Proof. intros H. simpl. rewrite H. reflexivity. Qed.

Lemma trimEnd_prefix (s : jsstring) : exists blanks, s = trimEnd s ++ blanks.
Proof.
  unfold trimEnd. exists (rev (takeWhile isWhiteSpace (rev s))).
  rewrite <- rev_app_distr, takeWhile_dropWhile, rev_involutive. reflexivity.
Qed.

Lemma isTrimmed_trim (s : jsstring) : isTrimmed s -> trim s = s.
Proof.
  unfold isTrimmed, trim, trimStart, trimEnd.
  destruct s as [|c r]; [reflexivity|].
  destruct (rev (c :: r)) as [|d r'] eqn:Hrev; [discriminate|].
  intros [Hc Hd]. rewrite dropWhile_fixed by exact Hc.
  rewrite Hrev, dropWhile_fixed by exact Hd.
  rewrite <- Hrev. apply rev_involutive.
Qed.

Lemma trim_isTrimmed (s : jsstring) : isTrimmed (trim s).
Proof.
  unfold isTrimmed.
  destruct (trim s) as [|c r] eqn:Ht; [reflexivity|].
  assert (Hrev : rev (c :: r) = dropWhile isWhiteSpace (rev (trimStart s))).
  { rewrite <- Ht. unfold trim, trimEnd. apply rev_involutive. }
  destruct (rev (c :: r)) as [|d r'] eqn:Hd.
  - apply (f_equal (@rev ascii)) in Hd. rewrite rev_involutive in Hd. discriminate.
  - split.
    + destruct (trimEnd_prefix (trimStart s)) as [blanks Hb].
      fold (trim s) in Hb. rewrite Ht in Hb.
      apply (dropWhile_head isWhiteSpace s c (r ++ blanks)). exact Hb.
    + symmetry in Hrev. apply dropWhile_head in Hrev. exact Hrev.
Qed.

Lemma trim_idempotent (s : jsstring) : trim (trim s) = trim s.
Proof. apply isTrimmed_trim, trim_isTrimmed. Qed.

Lemma isTrimmed_app_end (c : ascii) (r b : jsstring) (d : ascii) :
  isTrimmed (c :: r) -> isWhiteSpace d = false ->
  isTrimmed ((c :: r) ++ b ++ [d]).
Proof.
  unfold isTrimmed. intros Ha Hd. cbn [app].
  replace (rev (c :: r ++ b ++ [d])) with (d :: rev (c :: r ++ b)).
  - destruct (rev (c :: r)) as [|d' r'] eqn:Hr.
    + apply (f_equal (@length ascii)) in Hr. rewrite length_rev in Hr. discriminate.
    + split; [apply Ha | exact Hd].
  - change (c :: r ++ b ++ [d]) with ((c :: r) ++ b ++ [d]).
    rewrite app_assoc, rev_app_distr. reflexivity.
Qed.

Lemma includesBy_app_l (eqc : ascii -> ascii -> bool) (before s k : jsstring) :
  includesBy eqc s k = true -> includesBy eqc (before ++ s) k = true.
Proof.
  intros H. induction before as [|c b IH]; simpl; [exact H|].
  rewrite IH. apply orb_true_r.
Qed.

(** ** The call-to-action appender *)

Lemma CTA_mentions_button : alreadyMentionsButton CTA = true.
Proof. vm_compute. reflexivity. Qed.

Lemma alreadyMentionsButton_app_l (before s : jsstring) :
  alreadyMentionsButton s = true -> alreadyMentionsButton (before ++ s) = true.
Proof.
  unfold alreadyMentionsButton. rewrite !existsb_exists.
  intros [p [Hin Hp]]. exists p. split; [exact Hin|].
  apply includesBy_app_l, Hp.
Qed.

(** C10.  For every string [t], [appendConsultationCTA t] is not empty, it
    matches the button/consultation pattern, and applying the function
    again changes nothing. *)
Theorem appendConsultationCTA_idempotent (t : jsstring) :
  appendConsultationCTA t <> []
  /\ alreadyMentionsButton (appendConsultationCTA t) = true
  /\ appendConsultationCTA (appendConsultationCTA t) = appendConsultationCTA t.
Proof.
  assert (Hfix : forall out, isTrimmed out -> out <> [] ->
                 alreadyMentionsButton out = true ->
                 appendConsultationCTA out = out).
  { intros out Ht Hne Hm. unfold appendConsultationCTA.
    rewrite (isTrimmed_trim _ Ht). destruct out; [congruence|].
    rewrite Hm. reflexivity. }
  assert (Hout : isTrimmed (appendConsultationCTA t)
                 /\ appendConsultationCTA t <> []
                 /\ alreadyMentionsButton (appendConsultationCTA t) = true).
  { unfold appendConsultationCTA.
    pose proof (trim_isTrimmed t) as Htrim.
    destruct (trim t) as [|c r] eqn:Hbase.
    - split; [|split]; [vm_compute; auto | discriminate | vm_compute; reflexivity].
    - destruct (alreadyMentionsButton (c :: r)) eqn:Hm.
      + split; [exact Htrim|]. split; [discriminate | exact Hm].
      + split; [|split; [discriminate|]].
        * replace ([LF; LF] ++ CTA)
            with (removelast ([LF; LF] ++ CTA) ++ ["."%char])
            by (vm_compute; reflexivity).
          apply isTrimmed_app_end; [exact Htrim | reflexivity].
        * rewrite app_assoc.
          apply alreadyMentionsButton_app_l, CTA_mentions_button. }
  destruct Hout as (Ht & Hne & Hm). split; [exact Hne|]. split; [exact Hm|].
  apply Hfix; assumption.
Qed.

(** ** Lines *)

Lemma splitLines_not_nil (s : jsstring) : splitLines s <> [].
Proof.
  destruct s as [|c s]; simpl; [discriminate|].
  destruct (Ascii.eqb c LF); [discriminate|].
  destruct (splitLines s); discriminate.
Qed.

Lemma splitLines_no_LF (s : jsstring) :
  Forall (fun line => ~ In LF line) (splitLines s).
Proof.
  induction s as [|c s IH]; simpl.
  - constructor; [intros []|constructor].
  - destruct (Ascii.eqb c LF) eqn:Hc.
    + constructor; [intros []|exact IH].
    + destruct (splitLines s) as [|l ls]; [constructor; [|constructor]|].
      * intros [->|[]]. rewrite Ascii.eqb_refl in Hc. discriminate.
      * inversion IH as [|? ? Hl Hls]; subst. constructor; [|exact Hls].
        intros [->|Hin]; [|auto]. rewrite Ascii.eqb_refl in Hc. discriminate.
Qed.

Lemma splitLines_line (l : jsstring) (s : jsstring) :
  ~ In LF l -> splitLines (l ++ LF :: s) = l :: splitLines s.
Proof.
  induction l as [|c l IH]; intros Hl; simpl.
  - reflexivity.
  - destruct (Ascii.eqb c LF) eqn:Hc.
    + apply Ascii.eqb_eq in Hc. subst c. exfalso. apply Hl. left. reflexivity.
    + rewrite IH; [reflexivity|]. intros Hin. apply Hl. right. exact Hin.
Qed.

Lemma splitLines_single (l : jsstring) : ~ In LF l -> splitLines l = [l].
Proof.
  induction l as [|c l IH]; intros Hl; simpl; [reflexivity|].
  destruct (Ascii.eqb c LF) eqn:Hc.
  - apply Ascii.eqb_eq in Hc. subst c. exfalso. apply Hl. left. reflexivity.
  - rewrite IH; [reflexivity|]. intros Hin. apply Hl. right. exact Hin.
Qed.

Lemma splitLines_joinLines (ls : list jsstring) :
  ls <> [] -> Forall (fun line => ~ In LF line) ls ->
  splitLines (joinLines ls) = ls.
Proof.
  induction ls as [|l ls IH]; [congruence|]. intros _ Hall.
  inversion Hall as [|? ? Hl Hls]; subst.
  destruct ls as [|l' ls].
  - apply splitLines_single, Hl.
  - change (joinLines (l :: l' :: ls)) with (l ++ LF :: joinLines (l' :: ls)).
    rewrite splitLines_line by exact Hl. rewrite IH; [reflexivity|discriminate|exact Hls].
Qed.

Lemma In_takeWhile (p : ascii -> bool) (s : jsstring) (x : ascii) :
  In x (takeWhile p s) -> In x s.
Proof.
  induction s as [|c s IH]; simpl; [auto|].
  destruct (p c); simpl; [intros [H|H]; auto | intros []].
Qed.

Lemma no_terminator_no_LF (s : jsstring) :
  existsb isLineTerminator s = false -> ~ In LF s.
Proof.
  intros H Hin. assert (existsb isLineTerminator s = true); [|congruence].
  apply existsb_exists. exists LF. split; [exact Hin | reflexivity].
Qed.

Lemma string_of_uint_digits (d : Decimal.uint) :
  Forall (fun c => isDigit c = true) (str (NilEmpty.string_of_uint d)).
Proof. induction d; simpl; constructor; auto. Qed.

Lemma natToString_digits (n : nat) :
  Forall (fun c => isDigit c = true) (natToString n).
Proof.
  unfold natToString, NilZero.string_of_uint.
  destruct (Nat.to_uint n) eqn:E; try (rewrite <- E; apply string_of_uint_digits).
  repeat constructor.
Qed.

Lemma natToString_no_LF (n : nat) : ~ In LF (natToString n).
Proof.
  intros Hin. pose proof (natToString_digits n) as H.
  rewrite List.Forall_forall in H. apply H in Hin. discriminate.
Qed.

(** ** Renumbering ordered lists *)

Lemma matchOrderedItem_Some (line indent text : jsstring) :
  matchOrderedItem line = Some (indent, text) ->
  indent = takeWhile isWhiteSpace line /\ existsb isLineTerminator text = false.
Proof.
  unfold matchOrderedItem. intros H.
  repeat case_match; try discriminate.
  injection H as <- <-. split; [reflexivity|assumption].
Qed.

Lemma itemsSinceBlank_snoc (isItem : jsstring -> bool) (before : list jsstring)
    (line : jsstring) :
  itemsSinceBlank isItem (before ++ [line])
  = if isItem line then S (itemsSinceBlank isItem before)
    else if isBlank line then 0
    else itemsSinceBlank isItem before.
Proof. unfold itemsSinceBlank. rewrite rev_app_distr. reflexivity. Qed.

Lemma renumber_length (num : nat) (ls : list jsstring) :
  length (renumber num ls) = length ls.
Proof.
  revert num; induction ls as [|l ls IH]; intros num; simpl; [reflexivity|].
  destruct (matchOrderedItem l) as [[indent text]|]; simpl; [rewrite IH; reflexivity|].
  destruct (isBlank l); simpl; rewrite IH; reflexivity.
Qed.


Lemma renumber_no_LF (num : nat) (ls : list jsstring) :
  Forall (fun line => ~ In LF line) ls ->
  Forall (fun line => ~ In LF line) (renumber num ls).
Proof.
  revert num; induction ls as [|l ls IH]; intros num Hall; [constructor|].
  inversion Hall as [|? ? Hl Hls]; subst. simpl.
  destruct (matchOrderedItem l) as [[indent text]|] eqn:Hm.
  - constructor; [|apply IH, Hls].
    apply matchOrderedItem_Some in Hm as [-> Hterm].
    rewrite !in_app_iff. intros [H|[H|[H|[H|H]]]].
    + apply Hl, (In_takeWhile _ _ _ H).
    + exact (natToString_no_LF _ H).
    + discriminate H.
    + discriminate H.
    + exact (no_terminator_no_LF _ Hterm H).
  - destruct (isBlank l); constructor; auto.
Qed.

Lemma renumber_not_nil (num : nat) (ls : list jsstring) :
  ls <> [] -> renumber num ls <> [].
Proof.
  intros H E. apply (f_equal (@length jsstring)) in E.
  rewrite renumber_length in E. destruct ls; [congruence|discriminate].
Qed.

Lemma splitLines_fixNumberedLists (text : jsstring) :
  splitLines (fixNumberedLists text) = renumber 1 (splitLines text).
Proof.
  unfold fixNumberedLists. apply splitLines_joinLines.
  - apply renumber_not_nil, splitLines_not_nil.
  - apply renumber_no_LF, splitLines_no_LF.
Qed.


(** ** Limiting lists *)

Lemma limitLoop_keepFrom (ls before : list jsstring) (listCount : nat)
    (inList : bool) :
  effectiveCount listCount inList = itemsSinceBlank isListItem before ->
  limitLoop listCount inList ls = keepFrom before ls.
Proof.
  revert before listCount inList.
  induction ls as [|l ls IH]; intros before listCount inList Hc; [reflexivity|].
  cbn [limitLoop keepFrom]. unfold keptByLimit. rewrite <- Hc.
  fold (effectiveCount listCount inList).
  destruct (isListItem l) eqn:Hitem; cbn [negb orb].
  - assert (Hnext : effectiveCount (S (effectiveCount listCount inList)) true
                    = itemsSinceBlank isListItem (before ++ [l])).
    { rewrite itemsSinceBlank_snoc, Hitem, <- Hc. reflexivity. }
    change (S (effectiveCount listCount inList) <=? 3)
      with (effectiveCount listCount inList <? 3).
    destruct (effectiveCount listCount inList <? 3);
      rewrite (IH _ _ _ Hnext); reflexivity.
  - destruct (isBlank l) eqn:Hblank; cbn [andb].
    + destruct inList; cbn [app]; f_equal; apply IH;
        rewrite itemsSinceBlank_snoc, Hitem, Hblank; reflexivity.
    + cbn [app]. f_equal. apply IH.
      rewrite itemsSinceBlank_snoc, Hitem, Hblank. exact Hc.
Qed.

Lemma keepFrom_other_lines (ls before : list jsstring) :
  List.filter (fun l => negb (isListItem l)) (keepFrom before ls)
  = List.filter (fun l => negb (isListItem l)) ls.
Proof.
  revert before; induction ls as [|l ls IH]; intros before; [reflexivity|].
  cbn [keepFrom]. rewrite List.filter_app, IH. unfold keptByLimit.
  destruct (isListItem l) eqn:Hitem; cbn [negb orb].
  - destruct (_ <? 3); simpl; rewrite Hitem; reflexivity.
  - simpl. rewrite Hitem. reflexivity.
Qed.

Lemma keepFrom_Forall (P : jsstring -> Prop) (ls before : list jsstring) :
  Forall P ls -> Forall P (keepFrom before ls).
Proof.
  revert before; induction ls as [|l ls IH]; intros before Hall; [constructor|].
  inversion Hall as [|? ? Hl Hls]; subst. cbn [keepFrom].
  destruct (keptByLimit before l); cbn [app]; [constructor|]; auto.
Qed.

Lemma keepFrom_not_nil (ls : list jsstring) : ls <> [] -> keepFrom [] ls <> [].
Proof.
  destruct ls as [|l ls]; [congruence|]. intros _. cbn [keepFrom].
  unfold keptByLimit. cbn. rewrite orb_true_r. discriminate.
Qed.

Lemma keepFrom_bounded (ls before : list jsstring) (cur : nat) :
  cur <= itemsSinceBlank isListItem before ->
  boundedRuns cur (keepFrom before ls) = true.
Proof.
  revert before cur; induction ls as [|l ls IH]; intros before cur Hc; [reflexivity|].
  cbn [keepFrom]. unfold keptByLimit.
  destruct (isListItem l) eqn:Hitem; cbn [negb orb].
  - destruct (_ <? 3) eqn:Hlt; cbn [app boundedRuns].
    + rewrite Hitem. apply Nat.ltb_lt in Hlt. apply andb_true_iff. split.
      * apply Nat.leb_le. lia.
      * apply IH. rewrite itemsSinceBlank_snoc, Hitem. lia.
    + apply IH. rewrite itemsSinceBlank_snoc, Hitem. lia.
  - cbn [app boundedRuns]. rewrite Hitem. apply IH. lia.
Qed.

Lemma boundedRuns_run (run post : list jsstring) (cur : nat) :
  boundedRuns cur (run ++ post) = true -> forallb isListItem run = true ->
  cur + length run <= 3 \/ run = [].
Proof.
  revert cur; induction run as [|l run IH]; intros cur Hb Hall; [right; reflexivity|].
  left. cbn in Hb, Hall. apply andb_true_iff in Hall as [Hl Hall].
  rewrite Hl in Hb. apply andb_true_iff in Hb as [Hle Hb].
  apply Nat.leb_le in Hle.
  destruct (IH _ Hb Hall) as [H| ->]; simpl; lia.
Qed.

Lemma boundedRuns_skip (pre rest : list jsstring) (cur : nat) :
  boundedRuns cur (pre ++ rest) = true -> exists cur', boundedRuns cur' rest = true.
Proof.
  revert cur; induction pre as [|l pre IH]; intros cur Hb; [exists cur; exact Hb|].
  cbn in Hb. destruct (isListItem l).
  - apply andb_true_iff in Hb as [_ Hb]. exact (IH _ Hb).
  - exact (IH _ Hb).
Qed.

Lemma splitLines_limitList (text : jsstring) :
  splitLines (limitList text) = keepFrom [] (splitLines text).
Proof.
  unfold limitList. rewrite (limitLoop_keepFrom _ []) by reflexivity.
  apply splitLines_joinLines.
  - apply keepFrom_not_nil, splitLines_not_nil.
  - apply keepFrom_Forall, splitLines_no_LF.
Qed.

(** C5, as stated, fails: a non-list line that is not blank does not end
    the run, so a list item after it is dropped once 3 were kept. *)
Lemma limitList_run_not_ended_by_text_line :
  limitList text_C5 = lines ["- a"; "- b"; "- c"; "note"]
  /\ limitListSpec text_C5 = text_C5
  /\ limitList text_C5 <> limitListSpec text_C5.
Proof.
  split; [vm_compute; reflexivity|]. split; [vm_compute; reflexivity|].
  vm_compute. discriminate.
Qed.

(** C5, amended.  Only a blank line ends a run.  Of the lines of the input,
    [limitList] drops exactly the list items that have 3 or more list items
    before them since the last blank line; every line that is not a list
    item passes through unchanged and in order; and the output never has
    more than 3 list-item lines in a row. *)
Theorem limitList_three_per_block (text : jsstring) :
  let input := splitLines text in
  let output := splitLines (limitList text) in
  output = keepFrom [] input
  /\ List.filter (fun l => negb (isListItem l)) output
     = List.filter (fun l => negb (isListItem l)) input
  /\ (forall before run after,
        output = before ++ run ++ after ->
        forallb isListItem run = true -> length run <= 3).
Proof.
  cbn zeta. rewrite splitLines_limitList. split; [reflexivity|]. split.
  - apply keepFrom_other_lines.
  - intros before run after Hout Hall.
    pose proof (keepFrom_bounded (splitLines text) [] 0 (Nat.le_0_l _)) as Hb.
    rewrite Hout in Hb. apply boundedRuns_skip in Hb as [cur Hb].
    destruct (boundedRuns_run _ _ _ Hb Hall) as [H| ->]; simpl; lia.
Qed.

(** ** Rendering to markup *)

Lemma findClose_split (s inner after : jsstring) :
  findClose s = Some (inner, after) ->
  s = inner ++ "*"%char :: "*"%char :: after.
Proof.
  revert inner after; induction s as [|c s IH]; intros inner after H; [discriminate|].
  cbn [findClose] in H.
  destruct (startsWith (c :: s) (str "**")) eqn:Hstart.
  - apply startsWith_spec in Hstart as [r Hr].
    cbn [str list_ascii_of_string app] in Hr. rewrite Hr in H |- *.
    cbn [skipn] in H. injection H as <- <-. reflexivity.
  - destruct (isLineTerminator c); [discriminate|].
    destruct (findClose s) as [[inner' after']|]; [|discriminate].
    injection H as <- <-. rewrite (IH inner' after' eq_refl). reflexivity.
Qed.

Lemma boldLoop_entity (e s : jsstring) (fuel : nat) :
  In e ENTITIES -> length (e ++ s) <= fuel ->
  exists fuel', length s <= fuel' /\ fuel' < fuel
                /\ boldLoop fuel (e ++ s) = e ++ boldLoop fuel' s.
Proof.
  intros He Hlen. simpl in He.
  destruct He as [<-|[<-|[<-|[<-|[]]]]]; cbn [str list_ascii_of_string app length] in *;
    repeat (destruct fuel as [|fuel]; [lia|]);
    exists fuel; (split; [lia|]); (split; [lia|]); reflexivity.
Qed.

(** The fuel of [replaceBold] is enough: any fuel from the length of the
    string on gives the same result, so the loop never stops early. *)
Lemma boldLoop_fuel_enough (fuel1 fuel2 : nat) (s : jsstring) :
  length s <= fuel1 -> length s <= fuel2 -> boldLoop fuel1 s = boldLoop fuel2 s.
Proof.
  revert fuel2 s. induction fuel1 as [fuel1 IH] using lt_wf_ind.
  intros fuel2 s H1 H2. destruct s as [|c s].
  - destruct fuel1, fuel2; reflexivity.
  - destruct fuel1 as [|fuel1]; [simpl in H1; lia|].
    destruct fuel2 as [|fuel2]; [simpl in H2; lia|].
    simpl in H1, H2. cbn [boldLoop].
    assert (Hstep : c :: boldLoop fuel1 s = c :: boldLoop fuel2 s).
    { f_equal. apply IH; lia. }
    destruct (startsWith (c :: s) (str "**")) eqn:Hstart; [|exact Hstep].
    destruct (findClose (skipn 2 (c :: s))) as [[inner after]|] eqn:Hclose;
      [|exact Hstep].
    apply findClose_split in Hclose.
    apply (f_equal (@length ascii)) in Hclose.
    rewrite length_skipn, length_app in Hclose. simpl in Hclose.
    do 3 f_equal. apply IH; lia.
Qed.

Lemma replaceBold_any_fuel (fuel : nat) (s : jsstring) :
  length s <= fuel -> boldLoop fuel s = replaceBold s.
Proof. intros H. apply boldLoop_fuel_enough; [exact H | reflexivity]. Qed.

(** ** Where the markup characters of the text go *)

Lemma markupOf_app (a b : jsstring) : markupOf (a ++ b) = markupOf a ++ markupOf b.
Proof. apply List.filter_app. Qed.

Lemma markupOf_none (p : ascii -> bool) (s : jsstring) :
  (forall c, p c = true -> isMarkupChar c = false) ->
  Forall (fun c => p c = true) s -> markupOf s = [].
Proof.
  intros Hp. induction 1 as [|c s Hc _ IH]; [reflexivity|].
  unfold markupOf in *. simpl. rewrite (Hp c Hc). exact IH.
Qed.

Lemma takeWhile_Forall (p : ascii -> bool) (s : jsstring) :
  Forall (fun c => p c = true) (takeWhile p s).
Proof.
  induction s as [|c s IH]; simpl; [constructor|].
  destruct (p c) eqn:Hc; constructor; assumption.
Qed.

Lemma markupOf_dropWhile (p : ascii -> bool) (s : jsstring) :
  (forall c, p c = true -> isMarkupChar c = false) ->
  markupOf (dropWhile p s) = markupOf s.
Proof.
  intros Hp. rewrite <- (takeWhile_dropWhile p s) at 2.
  rewrite markupOf_app, (markupOf_none p _ Hp (takeWhile_Forall p s)). reflexivity.
Qed.

Lemma blank_not_markup (c : ascii) : isWhiteSpace c = true -> isMarkupChar c = false.
Proof. destruct c as [[] [] [] [] [] [] [] []]; vm_compute; congruence. Qed.

Lemma digit_not_markup (c : ascii) : isDigit c = true -> isMarkupChar c = false.
Proof. destruct c as [[] [] [] [] [] [] [] []]; vm_compute; congruence. Qed.

Lemma bullet_not_markup (c : ascii) : isBulletChar c = true -> isMarkupChar c = false.
Proof. destruct c as [[] [] [] [] [] [] [] []]; vm_compute; congruence. Qed.

Lemma markupOf_rev (s : jsstring) : markupOf (rev s) = rev (markupOf s).
Proof.
  unfold markupOf. induction s as [|c s IH]; [reflexivity|].
  simpl. rewrite List.filter_app, IH. simpl.
  destruct (isMarkupChar c); simpl; [reflexivity | apply app_nil_r].
Qed.

Lemma markupOf_trim (s : jsstring) : markupOf (trim s) = markupOf s.
Proof.
  unfold trim, trimEnd, trimStart.
  rewrite markupOf_rev, (markupOf_dropWhile _ _ blank_not_markup), markupOf_rev.
  rewrite rev_involutive. apply markupOf_dropWhile, blank_not_markup.
Qed.

Lemma markupOf_itemText (r text : jsstring) :
  itemText r = Some text -> markupOf text = markupOf r.
Proof.
  unfold itemText. intros H.
  rewrite <- (markupOf_dropWhile isWhiteSpace r blank_not_markup).
  pose proof (takeWhile_Forall isWhiteSpace r) as Hws.
  destruct (takeWhile isWhiteSpace r) as [|w ws] eqn:Htake; [discriminate|].
  destruct (dropWhile isWhiteSpace r) as [|x rest] eqn:Hdrop.
  - destruct (rev (w :: ws)) as [|c [|c' l]] eqn:Hrev; try discriminate.
    destruct (isLineTerminator c); [discriminate|]. injection H as <-.
    unfold markupOf. simpl. rewrite blank_not_markup; [reflexivity|].
    rewrite List.Forall_forall in Hws. apply Hws, in_rev. rewrite Hrev. left. reflexivity.
  - destruct (existsb isLineTerminator (x :: rest)); [discriminate|].
    injection H as <-. reflexivity.
Qed.

Lemma markupOf_numberedMatch (t text : jsstring) :
  numberedMatch t = Some text -> markupOf text = markupOf t.
Proof.
  unfold numberedMatch. intros H.
  rewrite <- (markupOf_dropWhile isDigit t digit_not_markup).
  destruct (takeWhile isDigit t); [discriminate|].
  destruct (dropWhile isDigit t) as [|c r]; [discriminate|].
  destruct (Ascii.eqb c ".") eqn:Hc; [|discriminate].
  apply Ascii.eqb_eq in Hc. subst c. apply (markupOf_itemText _ _ H).
Qed.

Lemma markupOf_bulletMatch (t text : jsstring) :
  bulletMatch t = Some text -> markupOf text = markupOf t.
Proof.
  unfold bulletMatch. intros H. destruct t as [|c r]; [discriminate|].
  destruct (isBulletChar c) eqn:Hc; [|discriminate].
  rewrite (markupOf_itemText _ _ H). unfold markupOf. simpl.
  rewrite (bullet_not_markup c Hc). reflexivity.
Qed.

Lemma markupOf_splitLines (s : jsstring) :
  markupOf (concat (splitLines s)) = markupOf s.
Proof.
  induction s as [|c s IH]; [reflexivity|]. simpl.
  destruct (Ascii.eqb c LF) eqn:Hc.
  - apply Ascii.eqb_eq in Hc. subst c. simpl. rewrite IH. reflexivity.
  - destruct (splitLines s) as [|l ls]; [simpl in IH |- *|].
    + unfold markupOf in *. simpl. rewrite <- IH. reflexivity.
    + simpl in IH |- *. unfold markupOf in *. simpl. rewrite IH. reflexivity.
Qed.

Lemma renders_app (r1 o1 r2 o2 : jsstring) :
  renders r1 o1 -> renders r2 o2 -> renders (r1 ++ r2) (o1 ++ o2).
Proof.
  intros H1 H2. induction H1 as [|c raw out _ IH|t raw out Ht _ IH]; cbn [app].
  - exact H2.
  - rewrite <- app_assoc. apply renders_raw, IH.
  - rewrite <- app_assoc. apply renders_tag; assumption.
Qed.

Lemma renders_escapeHtml (s : jsstring) : renders s (escapeHtml s).
Proof.
  induction s as [|c s IH]; [apply renders_nil|].
  change (escapeHtml (c :: s)) with (escapeChar c ++ escapeHtml s).
  apply renders_raw, IH.
Qed.

Lemma renders_in_tags (t : string) (raw out : jsstring) :
  In (str t) RENDERER_TAGS -> renders raw out ->
  renders raw (str t ++ out).
Proof. apply renders_tag. Qed.

Lemma renders_closing (t : string) (raw out : jsstring) :
  In (str t) RENDERER_TAGS -> renders raw out -> renders raw (out ++ str t).
Proof.
  intros Ht Hr. rewrite <- (app_nil_r raw).
  apply renders_app; [exact Hr|]. rewrite <- (app_nil_r (str t)).
  apply renders_tag; [exact Ht | apply renders_nil].
Qed.

Lemma escapeChar_cases (c : ascii) :
  In (escapeChar c) ENTITIES \/ (escapeChar c = [c] /\ isMarkupChar c = false).
Proof.
  unfold escapeChar, isMarkupChar.
  destruct (Ascii.eqb c "&"); [left; simpl; tauto|].
  destruct (Ascii.eqb c NBSP); [left; simpl; tauto|].
  destruct (Ascii.eqb c "<"); [left; simpl; tauto|].
  destruct (Ascii.eqb c ">"); [left; simpl; tauto|].
  right. split; reflexivity.
Qed.

Lemma entity_before_star (e rest a b : jsstring) :
  In e ENTITIES -> e ++ rest = a ++ "*"%char :: b ->
  exists a', a = e ++ a' /\ rest = a' ++ "*"%char :: b.
Proof.
  intros He Heq. simpl in He.
  destruct He as [<-|[<-|[<-|[<-|[]]]]]; cbn [str list_ascii_of_string app] in Heq;
    repeat (destruct a as [|? a]; [discriminate Heq|];
            injection Heq as <- Heq);
    (exists a; split; [reflexivity | exact Heq]).
Qed.

(** Escaping works character by character and no entity has a star, so a
    star of the escaped text is a star of the text. *)
Lemma escapeHtml_split_star (s a b : jsstring) :
  escapeHtml s = a ++ "*"%char :: b ->
  exists s1 s2, s = s1 ++ "*"%char :: s2 /\ a = escapeHtml s1 /\ b = escapeHtml s2.
Proof.
  revert a; induction s as [|x s IH]; intros a Heq.
  - destruct a; discriminate.
  - change (escapeHtml (x :: s)) with (escapeChar x ++ escapeHtml s) in Heq.
    destruct (escapeChar_cases x) as [He | [Hx Hplain]].
    + destruct (entity_before_star _ _ _ _ He Heq) as (a' & -> & Hrest).
      destruct (IH a' Hrest) as (s1 & s2 & -> & -> & ->).
      exists (x :: s1), s2. repeat split.
    + rewrite Hx in Heq. cbn [app] in Heq. destruct a as [|y a].
      * injection Heq as -> <-. exists [], s. repeat split.
      * injection Heq as <- Heq. destruct (IH a Heq) as (s1 & s2 & -> & -> & ->).
        exists (x :: s1), s2. split; [reflexivity|]. split; [|reflexivity].
        change (escapeHtml (x :: s1)) with (escapeChar x ++ escapeHtml s1).
        rewrite Hx. reflexivity.
Qed.

Lemma escapeHtml_nil (s : jsstring) : escapeHtml s = [] -> s = [].
Proof.
  destruct s as [|x s]; [reflexivity|].
  change (escapeHtml (x :: s)) with (escapeChar x ++ escapeHtml s).
  unfold escapeChar. repeat (destruct (Ascii.eqb x _)); discriminate.
Qed.

Lemma markupOf_cons (c : ascii) (a b : jsstring) :
  markupOf a = markupOf b -> markupOf (c :: a) = markupOf (c :: b).
Proof. unfold markupOf. simpl. intros ->. reflexivity. Qed.

Lemma boldLoop_renders (fuel : nat) (s : jsstring) :
  length (escapeHtml s) <= fuel ->
  exists raw, renders raw (boldLoop fuel (escapeHtml s)) /\ markupOf raw = markupOf s.
Proof.
  revert s. induction fuel as [fuel IH] using lt_wf_ind. intros s Hlen.
  destruct s as [|x s].
  - exists []. split; [destruct fuel; apply renders_nil | reflexivity].
  - change (escapeHtml (x :: s)) with (escapeChar x ++ escapeHtml s) in *.
    destruct (escapeChar_cases x) as [He | [Hx Hplain]].
    + destruct (boldLoop_entity _ (escapeHtml s) fuel He Hlen)
        as (fuel' & Hle & Hlt & ->).
      destruct (IH fuel' Hlt s Hle) as (raw & Hr & Hm).
      exists (x :: raw). split; [apply renders_raw, Hr | apply markupOf_cons, Hm].
    + rewrite Hx in *. cbn [app] in *.
      destruct fuel as [|fuel]; [simpl in Hlen; lia|].
      assert (Hskip : exists raw, renders raw (x :: boldLoop fuel (escapeHtml s))
                                  /\ markupOf raw = markupOf (x :: s)).
      { destruct (IH fuel (Nat.lt_succ_diag_r _) s) as (raw & Hr & Hm);
          [simpl in Hlen; lia|].
        exists (x :: raw). split; [|apply markupOf_cons, Hm].
        apply (renders_raw x) in Hr. rewrite Hx in Hr. exact Hr. }
      cbn [boldLoop].
      destruct (startsWith (x :: escapeHtml s) (str "**")) eqn:Hstart; [|exact Hskip].
      apply startsWith_spec in Hstart as [s2 Hs2].
      cbn [str list_ascii_of_string app] in Hs2. injection Hs2 as -> Hs2.
      rewrite Hs2 in *.
      change (skipn 2 ("*"%char :: "*"%char :: s2)) with s2.
      destruct (findClose s2) as [[inner after]|] eqn:Hclose;
        [|exact Hskip].
      apply findClose_split in Hclose. subst s2.
      destruct (escapeHtml_split_star s [] _ Hs2) as (s1 & t1 & -> & Hs1 & Ht1).
      symmetry in Hs1. apply escapeHtml_nil in Hs1. subst s1.
      symmetry in Ht1.
      destruct (escapeHtml_split_star t1 inner _ Ht1) as (i1 & t2 & -> & -> & Ht2).
      symmetry in Ht2.
      destruct (escapeHtml_split_star t2 [] _ Ht2) as (s3 & t3 & -> & Hs3 & ->).
      symmetry in Hs3. apply escapeHtml_nil in Hs3. subst s3.
      destruct (IH fuel (Nat.lt_succ_diag_r _) t3) as (raw & Hr & Hm).
      { simpl in Hlen. rewrite length_app in Hlen. simpl in Hlen. lia. }
      exists (i1 ++ raw). split.
      * apply renders_in_tags; [simpl; tauto|].
        apply renders_app; [apply renders_escapeHtml|].
        apply renders_in_tags; [simpl; tauto | exact Hr].
      * cbn [app]. rewrite !markupOf_app, Hm. unfold markupOf. simpl.
        rewrite List.filter_app. reflexivity.
Qed.

Lemma replaceBold_renders (s : jsstring) :
  exists raw, renders raw (replaceBold (escapeHtml s)) /\ markupOf raw = markupOf s.
Proof. apply boldLoop_renders. reflexivity. Qed.

Lemma rendersAll_nil_inv (raw : jsstring) : rendersAll raw [] -> raw = [].
Proof. intros (raws & H & <-). inversion H. reflexivity. Qed.

Lemma rendersAll_snoc (r r' o : jsstring) (outs : list jsstring) :
  rendersAll r outs -> renders r' o -> rendersAll (r ++ r') (outs ++ [o]).
Proof.
  intros (raws & H & <-) Ho. exists (raws ++ [r']). split.
  - induction H; cbn [app];
      [constructor; [exact Ho | constructor] | constructor; assumption].
  - rewrite concat_app. simpl. rewrite app_nil_r. reflexivity.
Qed.

Lemma rendersAll_join (r : jsstring) (outs : list jsstring) :
  rendersAll r outs -> renders r (joinWith [] outs).
Proof.
  intros (raws & H & <-). induction H as [|raw o raws outs Ho H IH].
  - apply renders_nil.
  - destruct outs as [|o' outs].
    + inversion H; subst. simpl. rewrite app_nil_r. exact Ho.
    + change (joinWith [] (o :: o' :: outs)) with (o ++ joinWith [] (o' :: outs)).
      simpl concat. apply renders_app; assumption.
Qed.

Lemma rendersAll_space (r : jsstring) (outs : list jsstring) (prev : option jsstring) :
  rendersAll r outs -> rendersAll r (spaceAfterLists prev outs).
Proof.
  intros (raws & H & <-). exists raws. split; [|reflexivity].
  revert prev. induction H as [|raw o raws outs Ho H IH]; intros prev; [constructor|].
  cbn [spaceAfterLists]. constructor; [|apply IH].
  destruct prev as [p|]; [|exact Ho].
  destruct (_ && _); [|exact Ho].
  apply renders_in_tags; [simpl; tauto | exact Ho].
Qed.

Lemma trimEnd_blanks (s : jsstring) :
  exists blanks, s = trimEnd s ++ blanks
                 /\ Forall (fun c => isWhiteSpace c = true) blanks.
Proof.
  unfold trimEnd. exists (rev (takeWhile isWhiteSpace (rev s))). split.
  - rewrite <- rev_app_distr, takeWhile_dropWhile, rev_involutive. reflexivity.
  - apply List.Forall_rev, takeWhile_Forall.
Qed.

Lemma trim_nil_blank (s : jsstring) :
  trim s = [] -> Forall (fun c => isWhiteSpace c = true) s.
Proof.
  unfold trim, trimStart. intros H.
  destruct (trimEnd_blanks (dropWhile isWhiteSpace s)) as (blanks & Hb & Hws).
  rewrite H in Hb. cbn [app] in Hb.
  rewrite <- (takeWhile_dropWhile isWhiteSpace s), Hb.
  apply List.Forall_app. split; [apply takeWhile_Forall | exact Hws].
Qed.

Lemma renders_blank (raw out : jsstring) :
  renders raw out -> Forall (fun c => isWhiteSpace c = true) out ->
  markupOf raw = [].
Proof.
  induction 1 as [|c raw out _ IH|t raw out Ht _ IH]; intros Hws.
  - reflexivity.
  - apply List.Forall_app in Hws as [Hc Hout].
    destruct (escapeChar_cases c) as [He | [Hx Hplain]].
    + exfalso. simpl in He. destruct He as [He|[He|[He|[He|[]]]]];
        rewrite <- He in Hc; inversion Hc; discriminate.
    + unfold markupOf in *. simpl. rewrite Hplain. exact (IH Hout).
  - exfalso. apply List.Forall_app in Hws as [Hc _]. simpl in Ht.
    repeat (destruct Ht as [Ht|Ht]; [rewrite <- Ht in Hc; inversion Hc; discriminate|]).
    exact Ht.
Qed.

Lemma rendersAll_filter (r : jsstring) (outs : list jsstring) :
  rendersAll r outs ->
  exists r', rendersAll r' (List.filter (fun line => truthy (trim line)) outs)
             /\ markupOf r' = markupOf r.
Proof.
  intros (raws & H & <-). induction H as [|raw o raws outs Ho H IH].
  - exists []. split; [exists []; split; [constructor|reflexivity] | reflexivity].
  - destruct IH as (r' & (raws' & H' & <-) & Hm). cbn [List.filter].
    destruct (trim o) as [|c t] eqn:Hblank; cbn [truthy].
    + exists (concat raws'). split; [exists raws'; split; [exact H'|reflexivity]|].
      simpl concat. rewrite markupOf_app, Hm.
      rewrite (renders_blank _ _ Ho (trim_nil_blank _ Hblank)). reflexivity.
    + exists (raw ++ concat raws'). split.
      * exists (raw :: raws'). split; [constructor; assumption | reflexivity].
      * simpl concat. rewrite !markupOf_app, Hm. reflexivity.
Qed.

Lemma listElement_renders (k : ListKind) (r : jsstring) (items : list jsstring) :
  rendersAll r items ->
  renders r (openTag (tagName k) ++ joinWith [] items ++ closeTag (tagName k)).
Proof.
  intros Hitems. apply rendersAll_join in Hitems. destruct k.
  - change (openTag (tagName ol)) with (str "<ol>").
    change (closeTag (tagName ol)) with (str "</ol>").
    apply renders_in_tags; [simpl; tauto|].
    apply renders_closing; [simpl; tauto | exact Hitems].
  - change (openTag (tagName ul)) with (str "<ul>").
    change (closeTag (tagName ul)) with (str "</ul>").
    apply renders_in_tags; [simpl; tauto|].
    apply renders_closing; [simpl; tauto | exact Hitems].
Qed.

Lemma listItem_renders (text : jsstring) :
  exists raw, renders raw (listItem text) /\ markupOf raw = markupOf text.
Proof.
  destruct (replaceBold_renders text) as (raw & Hr & Hm).
  exists raw. split; [|exact Hm]. unfold listItem.
  apply renders_in_tags; [simpl; tauto|].
  apply renders_closing; [simpl; tauto | exact Hr].
Qed.

Lemma closeCurrentList_renders (m : jsstring) (st : RenderState) :
  stateRenders m st ->
  stateRenders m (closeCurrentList st) /\ listItems (closeCurrentList st) = [].
Proof.
  unfold stateRenders, closeCurrentList.
  intros (Hnone & r1 & r2 & H1 & H2 & Hm).
  destruct (currentList st) as [k|].
  - destruct (listItems st) as [|item items] eqn:Hl; cbn [result listItems currentList].
    + split; [|reflexivity]. split; [reflexivity|]. exists r1, r2. auto.
    + split; [|reflexivity]. split; [reflexivity|].
      exists (r1 ++ r2), []. split; [|split].
      * apply rendersAll_snoc; [exact H1|]. apply listElement_renders, H2.
      * exists []. split; [constructor|reflexivity].
      * rewrite app_nil_r. exact Hm.
  - rewrite (Hnone eq_refl) in *. cbn [result listItems currentList].
    split; [|reflexivity]. split; [reflexivity|]. exists r1, r2. auto.
Qed.

Lemma pushItem_renders (k : ListKind) (text m : jsstring) (st : RenderState) :
  stateRenders m st -> stateRenders (m ++ markupOf text) (pushItem k text st).
Proof.
  intros Hst. unfold pushItem.
  destruct (listItem_renders text) as (raw & Hraw & Hmraw).
  assert (Hpush : forall st', stateRenders m st' -> currentList st' <> None ->
            stateRenders (m ++ markupOf text)
              {| result := result st'; currentList := currentList st';
                 listItems := listItems st' ++ [listItem text] |}).
  { intros st' (_ & r1 & r2 & H1 & H2 & Hm) Hsome. split.
    - cbn [currentList]. intros Hc. contradiction.
    - exists r1, (r2 ++ raw). cbn [result listItems]. split; [exact H1|]. split.
      + apply rendersAll_snoc; assumption.
      + rewrite app_assoc, markupOf_app, Hm, Hmraw. reflexivity. }
  destruct (isCurrent k st) eqn:Hcur.
  - apply Hpush; [exact Hst|]. unfold isCurrent in Hcur.
    destruct (currentList st); [discriminate|discriminate].
  - destruct (closeCurrentList_renders m st Hst) as [(_ & r1 & r2 & H1 & H2 & Hm) Hnil].
    apply (Hpush {| result := result (closeCurrentList st); currentList := Some k;
                    listItems := listItems (closeCurrentList st) |});
      [|discriminate].
    split; [discriminate|]. exists r1, r2. auto.
Qed.

Lemma renderLine_renders (m line : jsstring) (st : RenderState) :
  stateRenders m st -> stateRenders (m ++ markupOf line) (renderLine st line).
Proof.
  intros Hst. unfold renderLine. rewrite <- (markupOf_trim line).
  destruct (numberedMatch (trim line)) as [text|] eqn:Hnum.
  { rewrite <- (markupOf_numberedMatch _ _ Hnum). apply pushItem_renders, Hst. }
  destruct (bulletMatch (trim line)) as [text|] eqn:Hbul.
  { rewrite <- (markupOf_bulletMatch _ _ Hbul). apply pushItem_renders, Hst. }
  destruct (closeCurrentList_renders m st Hst) as [Hclosed Hnil].
  destruct (trim line) as [|c t] eqn:Htrim.
  - change (markupOf []) with (@nil ascii). rewrite app_nil_r. exact Hclosed.
  - destruct Hclosed as (Hnone & r1 & r2 & H1 & H2 & Hm).
    destruct (replaceBold_renders (c :: t)) as (raw & Hraw & Hmraw).
    rewrite Hnil in H2. apply rendersAll_nil_inv in H2. subst r2.
    split; [cbn [currentList listItems]; intros _; exact Hnil|].
    exists (r1 ++ raw), []. cbn [result listItems]. split; [|split].
    + apply rendersAll_snoc; assumption.
    + rewrite Hnil. exists []. split; [constructor | reflexivity].
    + rewrite app_nil_r in *. rewrite markupOf_app, Hm, Hmraw. reflexivity.
Qed.

Lemma renderLines_renders (ls : list jsstring) (m : jsstring) (st : RenderState) :
  stateRenders m st ->
  stateRenders (m ++ markupOf (concat ls)) (fold_left renderLine ls st).
Proof.
  revert m st; induction ls as [|l ls IH]; intros m st Hst.
  - simpl. rewrite app_nil_r. exact Hst.
  - cbn [fold_left concat]. rewrite markupOf_app, app_assoc.
    apply IH, renderLine_renders, Hst.
Qed.

Lemma renders_safe (raw out : jsstring) : renders raw out -> safeMarkup out.
Proof.
  induction 1 as [|c raw out _ IH|t raw out Ht _ IH].
  - apply safe_nil.
  - destruct (escapeChar_cases c) as [He | [Hx Hplain]].
    + apply safe_entity; assumption.
    + rewrite Hx. apply safe_char; assumption.
  - apply safe_tag; assumption.
Qed.

(** C9.  Whatever the text, the markup [markdownToHTML] returns is the
    escaped form of some text [raw], character by character, with tags of
    the renderer (ol, ul, li, strong, p, br) in between, and [raw] has the
    angle brackets and ampersands of the input, all of them and in their
    order: each of them comes out as an entity.  So the markup is made of
    ordinary characters, entities and the renderer's own tags only. *)
Theorem markdownToHTML_escapes_text (text : jsstring) :
  (exists raw, renders raw (markdownToHTML text)
               /\ markupOf raw = markupOf text)
  /\ safeMarkup (markdownToHTML text).
Proof.
  assert (H : exists raw, renders raw (markdownToHTML text)
                          /\ markupOf raw = markupOf text).
  { unfold markdownToHTML. destruct text as [|c0 t0].
    { exists []. split; [apply renders_nil | reflexivity]. }
    set (text := c0 :: t0).
    set (st := closeCurrentList (fold_left renderLine _ _)).
    assert (Hst : stateRenders (markupOf text) st /\ listItems st = []).
    { apply closeCurrentList_renders. rewrite <- (markupOf_splitLines text).
      apply (renderLines_renders _ []). split; [reflexivity|].
      exists [], []. repeat split; exists []; split; (constructor || reflexivity). }
    destruct Hst as [(_ & r1 & r2 & H1 & H2 & Hm) Hnil].
    rewrite Hnil in H2. apply rendersAll_nil_inv in H2. subst r2.
    rewrite app_nil_r in Hm.
    destruct (rendersAll_filter _ _ H1) as (r' & Hkept & Hm').
    apply (rendersAll_space _ _ None), rendersAll_join in Hkept.
    exists r'. split; [|rewrite Hm'; exact Hm].
    destruct (_ && _); [|exact Hkept].
    apply renders_in_tags; [simpl; tauto|].
    apply renders_closing; [simpl; tauto | exact Hkept]. }
  split; [exact H|]. destruct H as (raw & Hr & _). exact (renders_safe _ _ Hr).
Qed.

(** ** The client store *)

Lemma digitsValue_acc (d : Decimal.uint) (acc : positive) :
  fold_left (fun a c => 10 * a + digitValue c)%Z
    (str (NilEmpty.string_of_uint d)) (Z.pos acc)
  = Z.pos (Pos.of_uint_acc d acc).
Proof.
  revert acc; induction d; intros acc; cbn [NilEmpty.string_of_uint str
    list_ascii_of_string fold_left Pos.of_uint_acc]; try reflexivity;
    match goal with
    | |- fold_left _ _ ?z = Z.pos (Pos.of_uint_acc _ ?p) =>
        replace z with (Z.pos p) by (unfold digitValue; cbn; lia)
    end; apply IHd.
Qed.

Lemma digitsValue_of_uint (d : Decimal.uint) :
  digitsValue (str (NilEmpty.string_of_uint d)) = Z.of_N (Pos.of_uint d).
Proof.
  unfold digitsValue.
  induction d; cbn [NilEmpty.string_of_uint str list_ascii_of_string fold_left
                    Pos.of_uint]; try reflexivity; try exact IHd;
    match goal with
    | |- fold_left _ _ ?z = Z.of_N (N.pos (Pos.of_uint_acc _ ?p)) =>
        replace z with (Z.pos p) by (unfold digitValue; cbn; lia)
    end; apply digitsValue_acc.
Qed.

Lemma takeWhile_all (p : ascii -> bool) (s : jsstring) :
  Forall (fun c => p c = true) s -> takeWhile p s = s.
Proof.
  induction 1 as [|c s Hc _ IH]; [reflexivity|]. simpl. rewrite Hc, IH. reflexivity.
Qed.

Lemma digit_not_sign (c : ascii) :
  isDigit c = true ->
  isWhiteSpace c = false /\ Ascii.eqb c "-" = false /\ Ascii.eqb c "+" = false.
Proof. destruct c as [[] [] [] [] [] [] [] []]; vm_compute; intuition congruence. Qed.

(** [parseInt] of digits that do not start with a blank or a sign. *)
Lemma parseInt_digits (ds : jsstring) :
  ds <> [] -> Forall (fun c => isDigit c = true) ds ->
  parseInt ds = Some (digitsValue ds)
  /\ parseInt ("-"%char :: ds) = Some (- digitsValue ds)%Z.
Proof.
  intros Hne Hds. destruct ds as [|c ds]; [congruence|].
  pose proof (takeWhile_all isDigit _ Hds) as Htake.
  inversion Hds as [|? ? Hc _]; subst.
  destruct (digit_not_sign c Hc) as (Hws & Hminus & Hplus).
  unfold parseInt, trimStart. split.
  - cbn [dropWhile]. rewrite Hws, Hminus, Hplus, Htake. reflexivity.
  - cbn [dropWhile]. change (isWhiteSpace "-") with false. cbv iota.
    change (Ascii.eqb "-" "-") with true. cbv iota. rewrite Htake. reflexivity.
Qed.

Lemma parseInt_timeToString (t : Z) : parseInt (timeToString t) = Some t.
Proof.
  unfold timeToString.
  assert (Hpos : forall p,
            NilZero.string_of_uint (Pos.to_uint p)
            = NilEmpty.string_of_uint (Pos.to_uint p)
            /\ str (NilEmpty.string_of_uint (Pos.to_uint p)) <> []
            /\ digitsValue (str (NilEmpty.string_of_uint (Pos.to_uint p))) = Z.pos p).
  { intros p. pose proof (DecimalPos.Unsigned.of_to p) as Hof.
    rewrite digitsValue_of_uint, Hof.
    destruct (Pos.to_uint p) eqn:E; [simpl in Hof; discriminate|..];
      (split; [reflexivity|split; [discriminate|reflexivity]]). }
  destruct t as [|p|p]; [reflexivity| |]; destruct (Hpos p) as (Hz & Hne & Hval);
    cbn [Z.to_int NilZero.string_of_int]; rewrite Hz;
    destruct (parseInt_digits _ Hne (string_of_uint_digits _)) as [H1 H2].
  - rewrite H1, Hval. reflexivity.
  - change (str (String "-" ?s)) with ("-"%char :: str s).
    rewrite H2, Hval. reflexivity.
Qed.

(** C8.  A history written by [saveHistory] at time [saved] (both writes
    accepted, the JSON text of the history not empty and read back to the
    same history by the browser's codec) and loaded by a fresh widget at
    time [loaded]: when [loaded - saved] is less than 30 days the widget
    has the same messages in the same order; when it is 30 days or more the
    widget has no messages and both keys are gone from the storage. *)
Theorem store_round_trip_within_expiry
    (JSON_stringify : list Message -> jsstring)
    (JSON_parse : jsstring -> option (list Message))
    (quota : string -> jsstring -> bool)
    (w : Widget) (saved loaded : Z) :
  let h := conversationHistory w in
  let storage := localStorage (saveHistory JSON_stringify quota saved w) in
  truthy (JSON_stringify h) = true ->
  JSON_parse (JSON_stringify h) = Some h ->
  quota storageKey (JSON_stringify h) = true ->
  quota storageTimestampKey (timeToString saved) = true ->
  ((loaded - saved < 30 * msPerDay)%Z ->
   conversationHistory (construct JSON_parse loaded storage) = h)
  /\ ((30 * msPerDay <= loaded - saved)%Z ->
      conversationHistory (construct JSON_parse loaded storage) = []
      /\ localStorage (construct JSON_parse loaded storage) !! storageKey = None
      /\ localStorage (construct JSON_parse loaded storage) !! storageTimestampKey
         = None).
Proof.
  intros h storage Htext Hcodec Hq1 Hq2.
  assert (Hstorage : storage
            = <[storageTimestampKey := timeToString saved]>
                (<[storageKey := JSON_stringify h]> (localStorage w))).
  { unfold storage, saveHistory. fold h. rewrite Hq1, Hq2. reflexivity. }
  assert (Hts : storage !! storageTimestampKey = Some (timeToString saved)).
  { rewrite Hstorage. apply lookup_insert_eq. }
  assert (Hst : storage !! storageKey = Some (JSON_stringify h)).
  { rewrite Hstorage, lookup_insert_ne by discriminate. apply lookup_insert_eq. }
  assert (Htime : truthy (timeToString saved) = true).
  { pose proof (parseInt_timeToString saved) as Hp.
    destruct (timeToString saved); [discriminate Hp | reflexivity]. }
  unfold construct, loadHistory. cbn [localStorage conversationHistory].
  rewrite Hst, Hts, Htext, Htime, parseInt_timeToString. cbn [andb].
  unfold withinExpiry, historyExpiryDays. split.
  - intros Hin. apply Z.ltb_lt in Hin. rewrite Hin, Hcodec. reflexivity.
  - intros Hout. apply Z.ltb_ge in Hout. rewrite Hout.
    unfold clearHistory. cbn [conversationHistory localStorage].
    split; [reflexivity|]. split.
    + rewrite lookup_delete_ne by discriminate. apply lookup_delete_eq.
    + apply lookup_delete_eq.
Qed.

Lemma store_round_trip_within_expiry_witness :
  truthy (jsonStringify history_C8) = true
  /\ jsonParse (jsonStringify history_C8) = Some history_C8
  /\ conversationHistory
       (construct jsonParse 1700086400000
          (localStorage
             (saveHistory jsonStringify (fun _ _ => true) 1700000000000
                {| conversationHistory := history_C8; localStorage := ∅ |})))
     = history_C8.
Proof.
  split; [reflexivity|]. split; [vm_compute; reflexivity|].
  apply (store_round_trip_within_expiry jsonStringify jsonParse (fun _ _ => true)
           {| conversationHistory := history_C8; localStorage := ∅ |}
           1700000000000 1700086400000).
  - reflexivity.
  - vm_compute. reflexivity.
  - reflexivity.
  - reflexivity.
  - vm_compute. reflexivity.
Defined.

(** * Further properties of the code *)

(** ** Off-topic detection *)

Lemma hasDomainContext_iff (history : list Message) :
  hasDomainContext history = true <->
  exists m, In m (sliceLast 3 history) /\ role m = user
            /\ mentionsKeyword DOMAIN_KEYWORDS (content m).
Proof.
  unfold hasDomainContext. rewrite existsb_exists. split.
  - intros [m [Hin Hk]]. apply filter_In in Hin as [Hin Hu].
    exists m. split; [exact Hin|]. split.
    + unfold isUser in Hu. destruct (role m); simpl in Hu; congruence.
    + apply mentionsAny_spec, Hk.
  - intros [m [Hin [Hu Hk]]]. exists m. split; [|apply mentionsAny_spec, Hk].
    apply filter_In. split; [exact Hin|]. unfold isUser. rewrite Hu. reflexivity.
Qed.

Lemma isOffTopic_eq (message : jsstring) (history : list Message) :
  isOffTopic message history
  = negb (greetingRe (normalize message))
    && negb (existsb (fun k => includes (normalize message) k) DOMAIN_KEYWORDS)
    && negb (hasDomainContext history).
Proof.
  unfold isOffTopic. fold (normalize message).
  destruct (greetingRe (normalize message)); [reflexivity|].
  destruct (metaRe (normalize message)), (hasDomainContext history),
    (existsb _ DOMAIN_KEYWORDS); reflexivity.
Qed.

(** X1.  A message is off-topic exactly when it does not start with a
    greeting, its trimmed lower-case form contains no domain keyword, and no
    user-role message among the last 3 history entries contains one.  The
    check for list/summarize/summary/bullet/outline has no effect on the
    result. *)
Theorem isOffTopic_iff (message : jsstring) (history : list Message) :
  isOffTopic message history = true <->
  greetingRe (normalize message) = false
  /\ ~ (exists k, In k DOMAIN_KEYWORDS
                  /\ exists before after, normalize message = before ++ k ++ after)
  /\ ~ (exists m, In m (sliceLast 3 history) /\ role m = user
                  /\ mentionsKeyword DOMAIN_KEYWORDS (content m)).
Proof.
  rewrite isOffTopic_eq, !andb_true_iff, !negb_true_iff.
  rewrite <- hasDomainContext_iff.
  assert (Hkw : existsb (fun k => includes (normalize message) k) DOMAIN_KEYWORDS = true
                <-> exists k, In k DOMAIN_KEYWORDS
                    /\ exists before after, normalize message = before ++ k ++ after).
  { rewrite existsb_exists. split; intros [k [Hin Hk]]; exists k; (split; [exact Hin|]);
      apply includes_spec, Hk. }
  rewrite <- Hkw. rewrite !not_true_iff_false. tauto.
Qed.

Lemma dropWhile_app_stop (p : ascii -> bool) (a : jsstring) (c : ascii) (r : jsstring) :
  Forall (fun x => p x = true) a -> p c = false ->
  dropWhile p (a ++ c :: r) = c :: r.
Proof.
  intros Ha Hc. induction Ha as [|x a Hx _ IH]; simpl.
  - rewrite Hc. reflexivity.
  - rewrite Hx. exact IH.
Qed.

Lemma takeWhile_app_stop (p : ascii -> bool) (a : jsstring) (c : ascii) (r : jsstring) :
  Forall (fun x => p x = true) a -> p c = false ->
  takeWhile p (a ++ c :: r) = a.
Proof.
  intros Ha Hc. induction Ha as [|x a Hx _ IH]; simpl.
  - rewrite Hc. reflexivity.
  - rewrite Hx, IH. reflexivity.
Qed.

Lemma stripPrefixBy_ci_self (w rest : jsstring) :
  stripPrefixBy ciEqb w (w ++ rest) = Some rest.
Proof.
  unfold stripPrefixBy.
  assert (Hstart : startsWithBy ciEqb (w ++ rest) w = true).
  { induction w as [|c w IH]; [reflexivity|]. simpl.
    unfold ciEqb at 1. rewrite Ascii.eqb_refl. exact IH. }
  rewrite Hstart. f_equal. clear Hstart.
  induction w as [|c w IH]; [reflexivity | exact IH].
Qed.

(** X2.  A message whose trimmed lower-case form is hi, hello or hey, or
    good morning/afternoon/evening with any blanks (or none) after good,
    followed by the end or by a character that is not a word character, is
    never off-topic, whatever the history. *)
Theorem greeting_is_never_off_topic (message word blanks rest : jsstring)
    (history : list Message) :
  (In word (map str ["hi"; "hello"; "hey"]%string) /\ blanks = []
   \/ In word (map (fun w => str "good" ++ blanks ++ str w)
                 ["morning"; "afternoon"; "evening"]%string)
      /\ Forall (fun c => isWhiteSpace c = true) blanks) ->
  normalize message = word ++ rest ->
  boundaryAfterWord rest = true ->
  isOffTopic message history = false.
Proof.
  intros Hword Hnorm Hb.
  rewrite isOffTopic_eq, Hnorm.
  replace (greetingRe (word ++ rest)) with true; [reflexivity|].
  symmetry. unfold greetingRe. rewrite !orb_true_iff.
  destruct Hword as [[Hin _] | [Hin Hws]]; cbn [map In] in Hin.
  - destruct Hin as [<-|[<-|[<-|[]]]].
    + left; left; left. rewrite stripPrefixBy_ci_self. exact Hb.
    + left; left; right. rewrite stripPrefixBy_ci_self. exact Hb.
    + left; right. rewrite stripPrefixBy_ci_self. exact Hb.
  - right.
    assert (Hgood : forall w,
              stripPrefixBy ciEqb (str "good") ((str "good" ++ blanks ++ w) ++ rest)
              = Some (blanks ++ w ++ rest)).
    { intros w. rewrite <- !app_assoc. apply stripPrefixBy_ci_self. }
    assert (Hdrop : forall w c r, w = c :: r -> isWhiteSpace c = false ->
              dropWhile isWhiteSpace (blanks ++ w ++ rest) = w ++ rest).
    { intros w c r -> Hc. cbn [app]. apply dropWhile_app_stop; assumption. }
    destruct Hin as [<-|[<-|[<-|[]]]]; rewrite Hgood, !orb_true_iff.
    + left; left.
      rewrite (Hdrop (str "morning") _ _ eq_refl eq_refl), stripPrefixBy_ci_self.
      exact Hb.
    + left; right.
      rewrite (Hdrop (str "afternoon") _ _ eq_refl eq_refl), stripPrefixBy_ci_self.
      exact Hb.
    + right.
      rewrite (Hdrop (str "evening") _ _ eq_refl eq_refl), stripPrefixBy_ci_self.
      exact Hb.
Qed.

Lemma greeting_is_never_off_topic_witness :
  isOffTopic (str "  Good   Evening, team") [mkMessage assistant (str "x")] = false.
Proof.
  apply (greeting_is_never_off_topic (str "  Good   Evening, team")
           (str "good" ++ str "   " ++ str "evening") (str "   ") (str ", team")).
  - right. split; [simpl; tauto | repeat constructor].
  - vm_compute. reflexivity.
  - reflexivity.
Defined.

(** ** Spacing after punctuation *)

Lemma fixSpacing_step (c l : ascii) (rest : jsstring) :
  fixSpacing (c :: l :: rest)
  = if isSentenceEnd c && isAsciiLetter l
    then c :: " "%char :: l :: fixSpacing rest
    else c :: fixSpacing (l :: rest).
Proof. reflexivity. Qed.

Lemma fixSpacing_head (c : ascii) (s : jsstring) :
  exists t, fixSpacing (c :: s) = c :: t.
Proof.
  destruct s as [|l rest]; [exists []; reflexivity|]. rewrite fixSpacing_step.
  destruct (_ && _); eexists; reflexivity.
Qed.

Lemma letter_not_sentence_end (c : ascii) :
  isAsciiLetter c = true -> isSentenceEnd c = false.
Proof. destruct c as [[] [] [] [] [] [] [] []]; vm_compute; congruence. Qed.

Lemma fixSpacing_spacedOk (s : jsstring) : spacedOk (fixSpacing s) = true.
Proof.
  remember (length s) as n eqn:Hn. revert s Hn.
  induction n as [n IH] using lt_wf_ind. intros s Hn.
  destruct s as [|c [|l rest]]; [reflexivity | reflexivity|].
  rewrite fixSpacing_step.
  destruct (isSentenceEnd c && isAsciiLetter l) eqn:Hcond.
  - apply andb_true_iff in Hcond as [_ Hl].
    assert (Hrest : spacedOk (fixSpacing rest) = true).
    { apply (IH (length rest)); [subst n; simpl; lia | reflexivity]. }
    change (spacedOk (c :: " "%char :: l :: fixSpacing rest))
      with (negb (isSentenceEnd c && false)
            && (true && spacedOk (l :: fixSpacing rest))).
    rewrite andb_false_r. cbn [negb andb].
    destruct (fixSpacing rest) as [|z t] eqn:Hz; [reflexivity|].
    cbn [spacedOk]. rewrite (letter_not_sentence_end l Hl). exact Hrest.
  - assert (Htail : spacedOk (fixSpacing (l :: rest)) = true).
    { apply (IH (length (l :: rest))); [subst n; simpl; lia | reflexivity]. }
    destruct (fixSpacing_head l rest) as [t Ht]. rewrite Ht in *.
    cbn [spacedOk]. rewrite Hcond. exact Htail.
Qed.

Lemma spacedOk_fixSpacing (s : jsstring) : spacedOk s = true -> fixSpacing s = s.
Proof.
  induction s as [|c s IH]; [reflexivity|]. destruct s as [|l rest]; [reflexivity|].
  cbn [spacedOk]. intros H. apply andb_true_iff in H as [Hcond Hok].
  apply negb_true_iff in Hcond. rewrite fixSpacing_step.
  rewrite Hcond, (IH Hok). reflexivity.
Qed.

Lemma fixSpacing_withoutSpaces (s : jsstring) :
  withoutSpaces (fixSpacing s) = withoutSpaces s.
Proof.
  remember (length s) as n eqn:Hn. revert s Hn.
  induction n as [n IH] using lt_wf_ind. intros s Hn.
  destruct s as [|c [|l rest]]; [reflexivity | reflexivity|].
  rewrite fixSpacing_step.
  assert (Hcons : forall x a b, withoutSpaces a = withoutSpaces b ->
                    withoutSpaces (x :: a) = withoutSpaces (x :: b)).
  { intros x a b H. unfold withoutSpaces in *. simpl. rewrite H. reflexivity. }
  destruct (_ && _).
  - apply Hcons. change (withoutSpaces (" "%char :: l :: fixSpacing rest))
      with (withoutSpaces (l :: fixSpacing rest)).
    apply Hcons. apply (IH (length rest)); [subst n; simpl; lia | reflexivity].
  - apply Hcons. apply (IH (length (l :: rest))); [subst n; simpl; lia | reflexivity].
Qed.

Lemma fixSpacing_letter (l : ascii) (s : jsstring) :
  isAsciiLetter l = true -> fixSpacing (l :: s) = l :: fixSpacing s.
Proof.
  intros Hl. destruct s as [|x r]; [reflexivity|]. rewrite fixSpacing_step.
  rewrite (letter_not_sentence_end l Hl). reflexivity.
Qed.

Lemma fixSpacing_inserts (s : jsstring) : spaceInserted s (fixSpacing s).
Proof.
  induction s as [|c s IH]; [constructor|].
  destruct s as [|l rest]; [repeat constructor|]. rewrite fixSpacing_step.
  destruct (isSentenceEnd c && isAsciiLetter l) eqn:Hcond.
  - apply andb_true_iff in Hcond as [Hc Hl].
    rewrite (fixSpacing_letter l rest Hl) in IH.
    apply spaced_insert; assumption.
  - apply spaced_keep. exact IH.
Qed.

Lemma spaceInserted_head (c : ascii) (s out : jsstring) :
  spaceInserted (c :: s) out -> exists t, out = c :: t.
Proof. intros H. inversion H; subst; eexists; reflexivity. Qed.

Lemma spacedOk_tail (c : ascii) (t : jsstring) :
  spacedOk (c :: t) = true -> spacedOk t = true.
Proof.
  destruct t as [|l t]; [reflexivity|]. cbn [spacedOk]. intros H.
  apply andb_true_iff in H as [_ H]. exact H.
Qed.

Lemma spaceInserted_unique (s out : jsstring) :
  spaceInserted s out -> spacedOk out = true -> out = fixSpacing s.
Proof.
  induction 1 as [|c s out Hins IH|c l s out Hc Hl Hins IH]; intros Hok.
  - reflexivity.
  - pose proof (IH (spacedOk_tail _ _ Hok)) as ->.
    destruct s as [|l rest]; [reflexivity|]. rewrite fixSpacing_step.
    destruct (fixSpacing_head l rest) as [t Ht]. rewrite Ht in Hok.
    cbn [spacedOk] in Hok. apply andb_true_iff in Hok as [Hcond _].
    apply negb_true_iff in Hcond. rewrite Hcond. reflexivity.
  - pose proof (IH (spacedOk_tail _ _ (spacedOk_tail _ _ Hok))) as ->.
    rewrite fixSpacing_step, Hc, Hl. cbn [andb].
    rewrite (fixSpacing_letter l s Hl). reflexivity.
Qed.

(** X3.  [fixSpacing] only inserts spaces, one at a time and only between
    a full stop, exclamation mark or question mark and the letter that
    directly follows it: every code unit of the text is kept, in order, and
    no space is removed.  In its result no such mark is directly followed by
    a letter, and it is the only text obtained by such insertions of which
    that holds.  Applying it again changes nothing. *)
Theorem fixSpacing_spaces_sentences (s : jsstring) :
  spaceInserted s (fixSpacing s)
  /\ spacedOk (fixSpacing s) = true
  /\ (forall out, spaceInserted s out -> spacedOk out = true -> out = fixSpacing s)
  /\ withoutSpaces (fixSpacing s) = withoutSpaces s
  /\ fixSpacing (fixSpacing s) = fixSpacing s.
Proof.
  split; [apply fixSpacing_inserts|].
  split; [apply fixSpacing_spacedOk|].
  split; [apply spaceInserted_unique|].
  split; [apply fixSpacing_withoutSpaces|].
  apply spacedOk_fixSpacing, fixSpacing_spacedOk.
Qed.

(** ** Renumbering and limiting, applied twice *)

Lemma natToString_not_nil (n : nat) : natToString n <> [].
Proof.
  unfold natToString, NilZero.string_of_uint.
  destruct (Nat.to_uint n) eqn:E; discriminate.
Qed.

Lemma digit_not_blank_star (c : ascii) :
  isDigit c = true -> isWhiteSpace c = false /\ Ascii.eqb c "*" = false.
Proof. destruct c as [[] [] [] [] [] [] [] []]; vm_compute; intuition congruence. Qed.

Lemma matchOrderedItem_text (line indent text : jsstring) :
  matchOrderedItem line = Some (indent, text) ->
  Forall (fun c => isWhiteSpace c = true) indent
  /\ existsb isLineTerminator text = false
  /\ (forall c t, text = c :: t -> isWhiteSpace c = false).
Proof.
  unfold matchOrderedItem. intros H.
  destruct (takeWhile isDigit _); [discriminate|].
  destruct (dropWhile isDigit _) as [|c0 r2]; [discriminate|].
  destruct (isDotOrParen c0); [|discriminate].
  destruct (takeWhile isWhiteSpace (skipBold r2)); [discriminate|].
  destruct (existsb isLineTerminator _) eqn:Hterm; [discriminate|].
  injection H as <- <-. split; [apply takeWhile_Forall|]. split; [exact Hterm|].
  intros c t Hd. exact (dropWhile_head _ _ _ _ Hd).
Qed.

(** A renumbered line matches the pattern again, with the same indent and
    content. *)
Lemma matchOrderedItem_renumbered (indent text : jsstring) (n : nat) :
  Forall (fun c => isWhiteSpace c = true) indent ->
  existsb isLineTerminator text = false ->
  (forall c t, text = c :: t -> isWhiteSpace c = false) ->
  matchOrderedItem (indent ++ natToString n ++ str ". " ++ text)
  = Some (indent, text).
Proof.
  intros Hindent Hterm Hhead.
  pose proof (natToString_digits n) as Hdigits.
  destruct (natToString n) as [|d ds] eqn:Hn; [destruct (natToString_not_nil n Hn)|].
  inversion Hdigits as [|? ? Hd Hds]; subst.
  destruct (digit_not_blank_star d Hd) as [Hdws Hdstar].
  unfold matchOrderedItem. cbn [app].
  rewrite (takeWhile_app_stop _ _ _ _ Hindent Hdws).
  rewrite (dropWhile_app_stop _ _ _ _ Hindent Hdws).
  assert (Hbold1 : skipBold (d :: ds ++ str ". " ++ text) = d :: ds ++ str ". " ++ text).
  { unfold skipBold, startsWith. cbn [str list_ascii_of_string startsWithBy].
    rewrite Hdstar. reflexivity. }
  rewrite Hbold1.
  change (d :: ds ++ str ". " ++ text)
    with ((d :: ds) ++ "."%char :: " "%char :: text).
  rewrite (takeWhile_app_stop isDigit (d :: ds) "."%char _ Hdigits eq_refl).
  rewrite (dropWhile_app_stop isDigit (d :: ds) "."%char _ Hdigits eq_refl).
  change (isDotOrParen ".") with true. cbv iota.
  change (skipBold (" "%char :: text)) with (" "%char :: text).
  change (takeWhile isWhiteSpace (" "%char :: text))
    with (" "%char :: takeWhile isWhiteSpace text).
  change (dropWhile isWhiteSpace (" "%char :: text))
    with (dropWhile isWhiteSpace text).
  destruct text as [|c t].
  - reflexivity.
  - cbn [dropWhile]. rewrite (Hhead c t eq_refl), Hterm. reflexivity.
Qed.

Lemma renumber_idempotent (num : nat) (ls : list jsstring) :
  renumber num (renumber num ls) = renumber num ls.
Proof.
  revert num; induction ls as [|l ls IH]; intros num; [reflexivity|].
  cbn [renumber].
  destruct (matchOrderedItem l) as [[indent text]|] eqn:Hm.
  - apply matchOrderedItem_text in Hm as (Hindent & Hterm & Hhead).
    cbn [renumber].
    rewrite (matchOrderedItem_renumbered indent text num Hindent Hterm Hhead).
    rewrite IH. reflexivity.
  - destruct (isBlank l) eqn:Hb; cbn [renumber]; rewrite Hm, Hb, IH; reflexivity.
Qed.

(** X4.  [fixNumberedLists] is idempotent: a renumbered text is left as it
    is by a second pass. *)
Theorem fixNumberedLists_idempotent (text : jsstring) :
  fixNumberedLists (fixNumberedLists text) = fixNumberedLists text.
Proof.
  unfold fixNumberedLists at 1. rewrite splitLines_fixNumberedLists.
  rewrite renumber_idempotent. reflexivity.
Qed.

Lemma limitLoop_limitFrom (ls : list jsstring) (listCount : nat) (inList : bool) :
  limitLoop listCount inList ls = limitFrom (effectiveCount listCount inList) ls.
Proof.
  revert listCount inList; induction ls as [|l ls IH]; intros listCount inList;
    [reflexivity|].
  cbn [limitLoop limitFrom]. fold (effectiveCount listCount inList).
  destruct (isListItem l).
  - change (S (effectiveCount listCount inList) <=? 3)
      with (effectiveCount listCount inList <? 3).
    rewrite IH. reflexivity.
  - destruct (isBlank l), inList; cbn [andb]; rewrite IH; reflexivity.
Qed.

Lemma limitFrom_idempotent (ls : list jsstring) (count : nat) :
  limitFrom (Nat.min count 3) (limitFrom count ls) = limitFrom count ls.
Proof.
  revert count; induction ls as [|l ls IH]; intros count; [reflexivity|].
  cbn [limitFrom]. destruct (isListItem l) eqn:Hitem.
  - destruct (count <? 3) eqn:Hlt.
    + apply Nat.ltb_lt in Hlt. cbn [limitFrom]. rewrite Hitem.
      replace (Nat.min count 3) with count by lia.
      replace (count <? 3) with true by (symmetry; apply Nat.ltb_lt; lia).
      f_equal. rewrite <- (IH (S count)) at 2.
      replace (Nat.min (S count) 3) with (S count) by lia. reflexivity.
    + apply Nat.ltb_ge in Hlt. rewrite <- (IH (S count)) at 2.
      replace (Nat.min (S count) 3) with (Nat.min count 3) by lia. reflexivity.
  - destruct (isBlank l) eqn:Hb; cbn [limitFrom]; rewrite Hitem, Hb; f_equal.
    + exact (IH 0).
    + exact (IH count).
Qed.

Lemma limitFrom_no_LF (ls : list jsstring) (count : nat) :
  Forall (fun line => ~ In LF line) ls ->
  Forall (fun line => ~ In LF line) (limitFrom count ls).
Proof.
  intros H. revert count. induction H as [|l ls Hl _ IH]; intros count; [constructor|].
  cbn [limitFrom]. destruct (isListItem l).
  - destruct (count <? 3); [constructor|]; auto.
  - destruct (isBlank l); constructor; auto.
Qed.

Lemma limitFrom_not_nil (ls : list jsstring) : ls <> [] -> limitFrom 0 ls <> [].
Proof.
  destruct ls as [|l ls]; [congruence|]. intros _. cbn [limitFrom].
  destruct (isListItem l); [discriminate|]. destruct (isBlank l); discriminate.
Qed.

Lemma limitFrom_length (ls : list jsstring) (count : nat) :
  length (limitFrom count ls) <= length ls.
Proof.
  revert count; induction ls as [|l ls IH]; intros count; [reflexivity|].
  cbn [limitFrom]. destruct (isListItem l).
  - destruct (count <? 3); simpl; [apply le_n_S, IH|].
    specialize (IH (S count)). lia.
  - destruct (isBlank l); simpl; apply le_n_S, IH.
Qed.

(** X5.  [limitList] is idempotent, and it never returns more lines than
    it was given. *)
Theorem limitList_idempotent (text : jsstring) :
  limitList (limitList text) = limitList text
  /\ length (splitLines (limitList text)) <= length (splitLines text).
Proof.
  unfold limitList. rewrite !limitLoop_limitFrom.
  change (effectiveCount 0 false) with 0.
  assert (Hsplit : splitLines (joinLines (limitFrom 0 (splitLines text)))
                   = limitFrom 0 (splitLines text)).
  { apply splitLines_joinLines.
    - apply limitFrom_not_nil, splitLines_not_nil.
    - apply limitFrom_no_LF, splitLines_no_LF. }
  rewrite Hsplit. split.
  - rewrite (limitFrom_idempotent _ 0). reflexivity.
  - apply limitFrom_length.
Qed.

(** ** Sanitising the message *)

Lemma In_dropWhile (p : ascii -> bool) (s : jsstring) (x : ascii) :
  In x (dropWhile p s) -> In x s.
Proof.
  induction s as [|c s IH]; simpl; [auto|].
  destruct (p c); [right; auto | auto].
Qed.

Lemma In_trim (s : jsstring) (x : ascii) : In x (trim s) -> In x s.
Proof.
  unfold trim, trimEnd, trimStart. intros H.
  rewrite <- in_rev in H. apply In_dropWhile in H.
  rewrite <- in_rev in H. apply In_dropWhile in H. exact H.
Qed.

Lemma In_firstn_any {A} (n : nat) (l : list A) (x : A) : In x (firstn n l) -> In x l.
Proof.
  intros H. rewrite <- (firstn_skipn n l). apply in_or_app. left. exact H.
Qed.

Lemma trim_all_blank (s : jsstring) :
  Forall (fun c => isWhiteSpace c = true) s -> trim s = [].
Proof.
  intros H. unfold trim, trimStart.
  assert (Hd : dropWhile isWhiteSpace s = []).
  { induction H as [|c s Hc _ IH]; [reflexivity|]. simpl. rewrite Hc. exact IH. }
  rewrite Hd. reflexivity.
Qed.


(** X6.  Whatever it is given, [sanitizeString] returns at most [maxLength]
    code units, none of them NUL, and its result does not start with a
    blank; a value that is not a string gives the empty string. *)
Theorem sanitizeString_bounds (v : JsValue) (maxLength : nat) :
  length (sanitizeString v maxLength) <= maxLength
  /\ ~ In NUL (sanitizeString v maxLength)
  /\ (forall c t, sanitizeString v maxLength = c :: t -> isWhiteSpace c = false)
  /\ ((forall s, v <> JString s) -> sanitizeString v maxLength = []).
Proof.
  split; [apply sanitizeString_length|].
  assert (Hsub : forall x, In x (sanitizeString v maxLength) ->
            exists s, v = JString s /\
              In x (trim (List.filter (fun c => negb (Ascii.eqb c NUL)) s))).
  { intros x. destruct v; simpl; try tauto. intros H. exists s. split; [reflexivity|].
    destruct (maxLength <? _); [apply In_firstn_any in H|]; exact H. }
  split; [|split].
  - intros H. apply Hsub in H as (s & _ & H). apply In_trim, filter_In in H as [_ H].
    rewrite Ascii.eqb_refl in H. discriminate.
  - intros c t Heq. destruct v; try discriminate. cbn [sanitizeString] in Heq.
    pose proof (trim_isTrimmed (List.filter (fun c => negb (Ascii.eqb c NUL)) s)) as Ht.
    unfold isTrimmed in Ht.
    destruct (trim _) as [|c' t'] eqn:Etrim.
    + destruct (maxLength <? _); [destruct maxLength|]; discriminate.
    + assert (c' = c).
      { destruct (maxLength <? _); [destruct maxLength; [discriminate|]|];
          cbn in Heq; congruence. }
      subst c'. destruct (rev (c :: t')); [discriminate|]. apply Ht.
  - intros Hnot. destruct v; try reflexivity. destruct (Hnot s eq_refl).
Qed.

(** ** The handler's answers *)



Lemma sliceLast_Forall {A} (P : A -> Prop) (n : nat) (l : list A) :
  Forall P l -> Forall P (sliceLast n l).
Proof.
  intros H. rewrite List.Forall_forall in *. intros x Hx. apply H.
  rewrite (sliceLast_suffix n l). apply in_or_app. right. exact Hx.
Qed.

Lemma validateConversationHistory_sanitized (history : JsValue) :
  Forall sanitizedEntry (validateConversationHistory history).
Proof.
  destruct history; try constructor. cbn [validateConversationHistory].
  apply List.Forall_forall. intros m Hm. apply in_map_iff in Hm as [raw [<- _]].
  apply toMessage_sanitized.
Qed.

(** X8.  The provider is called at most once per request, and only with a
    request made of the persona, then at most 10 history entries, each of
    role user or assistant and of at most 250 code units, then the user's
    non-empty message of at most 250 code units: nothing the client sends
    reaches the provider with the role system. *)
Theorem provider_request_shape (complete : ProviderRequest -> ProviderOutcome)
    (SYSTEM_PROMPT : jsstring)
    (removeContactInfo fixButtonReferences : jsstring -> jsstring)
    (message : jsstring) (conversationHistory : JsValue) :
  let calls :=
    providerCalls
      (snd (chatHandler complete SYSTEM_PROMPT removeContactInfo
              fixButtonReferences message conversationHistory)) in
  length calls <= 1 /\ Forall (wellFormedRequest SYSTEM_PROMPT) calls.
Proof.
  cbn zeta. unfold chatHandler.
  pose proof (sanitizeString_length (JString message) 250) as Hlen.
  destruct (sanitizeString (JString message) 250) as [|c t] eqn:Hmsg;
    [split; [simpl; lia | constructor]|].
  destruct (isRepeated _ _); [split; [simpl; lia | constructor]|].
  destruct (_ && _); [split; [simpl; lia | constructor]|].
  match goal with |- context [complete ?r] =>
    assert (Hreq : wellFormedRequest SYSTEM_PROMPT r) end.
  { eexists _, (c :: t). cbn [req_messages req_max_tokens].
    split; [reflexivity|]. split; [rewrite sliceLast_length; lia|].
    split; [apply sliceLast_Forall, validateConversationHistory_sanitized|].
    split; [discriminate|]. split; [exact Hlen|].
    destruct (_ <=? 6); auto. }
  destruct (complete _); cbn [snd providerCalls flat_map app].
  - split; [simpl; lia | constructor; [exact Hreq | constructor]].
  - unfold handleError. cbn [snd providerCalls flat_map app].
    split; [simpl; lia | constructor; [exact Hreq | constructor]].
Qed.

(** X9.  When the completion call fails with an abort (the 20 s timeout)
    or with an error that carries no status, the status 0 or the status
    500, the answer is status 500 with the generic message, whatever text
    the error holds. *)
Theorem provider_failure_is_generic (complete : ProviderRequest -> ProviderOutcome)
    (SYSTEM_PROMPT : jsstring)
    (removeContactInfo fixButtonReferences : jsstring -> jsstring)
    (message : jsstring) (conversationHistory : JsValue)
    (req : ProviderRequest) (e : JsError) :
  In req (providerCalls
            (snd (chatHandler complete SYSTEM_PROMPT removeContactInfo
                    fixButtonReferences message conversationHistory))) ->
  complete req = Failed e ->
  err_name e = str "AbortError" \/ statusOf e = 500%Z ->
  fst (chatHandler complete SYSTEM_PROMPT removeContactInfo
         fixButtonReferences message conversationHistory)
  = {| status := 500;
       body := ErrorWithMessage (str "Request failed") GENERIC_ERROR |}.
Proof.
  unfold chatHandler.
  destruct (sanitizeString (JString message) 250) as [|c t]; [intros []|].
  destruct (isRepeated _ _); [intros []|].
  destruct (_ && _); [intros []|].
  match goal with |- context [complete ?r] => set (r0 := r) end.
  intros Hin Hfail Hkind.
  assert (Hreq : req = r0).
  { destruct (complete r0); [|unfold handleError in Hin];
      cbn [snd providerCalls flat_map app] in Hin;
      destruct Hin as [<-|[]]; reflexivity. }
  subst req. rewrite Hfail. unfold handleError.
  destruct (jsstring_eqb (err_name e) (str "AbortError")) eqn:Habort.
  - reflexivity.
  - destruct Hkind as [Hname | Hst].
    + apply jsstring_eqb_eq in Hname. congruence.
    + cbn [fst]. rewrite Hst. reflexivity.
Qed.

Lemma provider_failure_is_generic_witness :
  fst (chatHandler
         (fun _ => Failed (mkError (str "AbortError") (str "signal timed out") (Some 408%Z)))
         (str "persona") noChange noChange (str "hello") JUndefined)
  = {| status := 500;
       body := ErrorWithMessage (str "Request failed") GENERIC_ERROR |}.
Proof.
  apply (provider_failure_is_generic _ _ _ _ _ _
           {| req_messages := [mkMessage system (str "persona");
                               mkMessage user (str "hello")];
              req_max_tokens := 180 |}
           (mkError (str "AbortError") (str "signal timed out") (Some 408%Z))).
  - vm_compute. left. reflexivity.
  - reflexivity.
  - left. reflexivity.
Defined.

Lemma appendConsultationCTA_shape (t : jsstring) :
  isTrimmed (appendConsultationCTA t)
  /\ appendConsultationCTA t <> []
  /\ alreadyMentionsButton (appendConsultationCTA t) = true.
Proof.
  unfold appendConsultationCTA.
  pose proof (trim_isTrimmed t) as Htrim.
  destruct (trim t) as [|c r] eqn:Hbase.
  - split; [|split]; [vm_compute; auto | discriminate | vm_compute; reflexivity].
  - destruct (alreadyMentionsButton (c :: r)) eqn:Hm.
    + split; [exact Htrim|]. split; [discriminate | exact Hm].
    + split; [|split; [discriminate|]].
      * replace ([LF; LF] ++ CTA)
          with (removelast ([LF; LF] ++ CTA) ++ ["."%char])
          by (vm_compute; reflexivity).
        apply isTrimmed_app_end; [exact Htrim | reflexivity].
      * rewrite app_assoc.
        apply alreadyMentionsButton_app_l, CTA_mentions_button.
Qed.

Lemma appendConsultationCTA_cases (t : jsstring) :
  (alreadyMentionsButton (trim t) = false
   /\ exists before, appendConsultationCTA t = before ++ CTA)
  \/ (alreadyMentionsButton (trim t) = true /\ appendConsultationCTA t = trim t).
Proof.
  unfold appendConsultationCTA. destruct (trim t) as [|c r] eqn:Hbase.
  - left. split; [reflexivity|]. eexists. reflexivity.
  - destruct (alreadyMentionsButton (c :: r)) eqn:Hm.
    + right. split; reflexivity.
    + left. split; [reflexivity|]. exists ((c :: r) ++ [LF; LF]).
      rewrite <- app_assoc. reflexivity.
Qed.

Lemma alreadyMentionsButton_phrases (base : jsstring) :
  (alreadyMentionsButton base = true ->
   exists phrase,
     In phrase ["book consultation"; "button below"; "click the button";
                "use the button"; "press the button"; "select the button"]%string
     /\ mentions base phrase = true)
  /\ (alreadyMentionsButton base = false ->
      forall phrase,
        In phrase ["book consultation"; "button below"; "click the button";
                   "use the button"; "press the button"; "select the button"]%string ->
        mentions base phrase = false).
Proof.
  unfold alreadyMentionsButton, mentions. split.
  - intros H. apply existsb_exists in H as (phrase & Hin & Hp).
    exists phrase. split; assumption.
  - intros H phrase Hin.
    destruct (includesBy ciEqb base (str phrase)) eqn:Hp; [|reflexivity].
    assert (Ht : existsb (fun p => includesBy ciEqb base (str p))
                   ["book consultation"; "button below"; "click the button";
                    "use the button"; "press the button"; "select the button"]%string
                 = true).
    { apply existsb_exists. exists phrase. split; assumption. }
    congruence.
Qed.

(** X10.  Every answer that carries [consultationIntent = true] comes from
    the provider's text after post-processing, is not empty and has no blank
    at either end; the refusal and the redirect never carry the flag.  The
    answer either ends with the server's call-to-action sentence, which names
    the Book Consultation button, or it is the post-processed text as it is,
    and then that text holds, in whatever case, one of: book consultation,
    button below, click the button, use the button, press the button, select
    the button.  The last four do not name the button, so the flag alone does
    not tell that the answer refers to it. *)
Theorem consultation_reply_has_cta_or_phrase
    (complete : ProviderRequest -> ProviderOutcome) (SYSTEM_PROMPT : jsstring)
    (removeContactInfo fixButtonReferences : jsstring -> jsstring)
    (message : jsstring) (conversationHistory : JsValue)
    (code : Z) (response : jsstring) :
  fst (chatHandler complete SYSTEM_PROMPT removeContactInfo fixButtonReferences
         message conversationHistory)
  = {| status := code; body := ChatReply response true |} ->
  response <> [] /\ isTrimmed response
  /\ exists req text,
       complete req = Completed text
       /\ response = postProcess removeContactInfo fixButtonReferences true text
       /\ let base :=
            trim (fixButtonReferences
                    (removeContactInfo
                       (limitList (fixNumberedLists (fixSpacing text))))) in
          ((exists before, response = before ++ CTA)
           /\ forall phrase,
                In phrase ["book consultation"; "button below"; "click the button";
                           "use the button"; "press the button";
                           "select the button"]%string ->
                mentions base phrase = false)
          \/ (response = base
              /\ exists phrase,
                   In phrase ["book consultation"; "button below";
                              "click the button"; "use the button";
                              "press the button"; "select the button"]%string
                   /\ mentions base phrase = true).
Proof.
  unfold chatHandler.
  destruct (sanitizeString (JString message) 250) as [|c t]; [discriminate|].
  destruct (isRepeated _ _); [discriminate|].
  destruct (_ && _); [discriminate|].
  destruct (detectConsultationIntent _ _).
  - match goal with |- context [complete ?r] => set (r0 := r) end.
    destruct (complete r0) as [text|e] eqn:Hc.
    + cbn [fst]. intros [= _ <-].
      set (processed := fixButtonReferences
                          (removeContactInfo
                             (limitList (fixNumberedLists (fixSpacing text))))).
      pose proof (appendConsultationCTA_shape processed) as (Ht & Hne & _).
      change (postProcess removeContactInfo fixButtonReferences true text)
        with (appendConsultationCTA processed).
      split; [exact Hne|]. split; [exact Ht|].
      exists r0, text. split; [exact Hc|]. split; [reflexivity|]. cbv zeta.
      destruct (appendConsultationCTA_cases processed) as [[Hm Hcta]|[Hm Heq]].
      * left. split; [exact Hcta|].
        apply (proj2 (alreadyMentionsButton_phrases (trim processed)) Hm).
      * right. split; [exact Heq|].
        apply (proj1 (alreadyMentionsButton_phrases (trim processed)) Hm).
    + unfold handleError. cbn [fst]. discriminate.
  - destruct (complete _); [|unfold handleError]; cbn [fst]; discriminate.
Qed.

Lemma consultation_reply_has_cta_or_phrase_witness :
  postProcess noChange noChange true (str "We price per building.") <> [].
Proof.
  refine (proj1 (consultation_reply_has_cta_or_phrase
                   (completeOk "We price per building.")
                   (str "persona") noChange noChange (str "what is your pricing")
                   JUndefined 200
                   (postProcess noChange noChange true (str "We price per building."))
                   _)).
  vm_compute. reflexivity.
Defined.

(** A consultation reply that passes the test of [appendConsultationCTA]
    without naming the button. *)
Example press_the_button_gets_no_cta :
  fst (chatHandler (completeOk "Press the button to restart your router.")
         (str "persona") removeContactInfo fixButtonReferences
         (str "what is your pricing") JUndefined)
  = {| status := 200;
       body := ChatReply (str "Press the button to restart your router.") true |}.
Proof. vm_compute. reflexivity. Qed.

(** ** The widget: restoring, sending, typing *)

Lemma markdownToHTML_renders (text : jsstring) :
  exists raw, renders raw (markdownToHTML text) /\ markupOf raw = markupOf text.
Proof.
  unfold markdownToHTML. destruct text as [|c0 t0].
  { exists []. split; [apply renders_nil | reflexivity]. }
  set (text := c0 :: t0).
  set (st := closeCurrentList (fold_left renderLine _ _)).
  assert (Hst : stateRenders (markupOf text) st /\ listItems st = []).
  { apply closeCurrentList_renders. rewrite <- (markupOf_splitLines text).
    apply (renderLines_renders _ []). split; [reflexivity|].
    exists [], []. repeat split; exists []; split; (constructor || reflexivity). }
  destruct Hst as [(_ & r1 & r2 & H1 & H2 & Hm) Hnil].
  rewrite Hnil in H2. apply rendersAll_nil_inv in H2. subst r2.
  rewrite app_nil_r in Hm.
  destruct (rendersAll_filter _ _ H1) as (r' & Hkept & Hm').
  apply (rendersAll_space _ _ None), rendersAll_join in Hkept.
  exists r'. split; [|rewrite Hm'; exact Hm].
  destruct (_ && _); [|exact Hkept].
  apply renders_in_tags; [simpl; tauto|].
  apply renders_closing; [simpl; tauto | exact Hkept].
Qed.

Lemma markdownToHTML_safe (text : jsstring) : safeMarkup (markdownToHTML text).
Proof.
  destruct (markdownToHTML_renders text) as (raw & Hr & _).
  exact (renders_safe _ _ Hr).
Qed.

Lemma viewSafe_app (v1 v2 : list ViewItem) :
  viewSafe v1 -> viewSafe v2 -> viewSafe (v1 ++ v2).
Proof. intros H1 H2. apply List.Forall_app. split; assumption. Qed.

Lemma viewSafe_bubble (r : Role) (content : jsstring) :
  viewSafe [Bubble r (markdownToHTML content)].
Proof. constructor; [apply markdownToHTML_safe | constructor]. Qed.

Lemma removeAt_last (view : list ViewItem) (item : ViewItem) :
  removeAt (length view) (view ++ [item]) = view.
Proof.
  unfold removeAt. rewrite firstn_app, firstn_all, Nat.sub_diag. cbn [firstn].
  rewrite skipn_all2 by (rewrite length_app; simpl; lia).
  rewrite !app_nil_r. reflexivity.
Qed.

(** Loading what [saveHistory] wrote, when both writes were accepted. *)
Lemma construct_after_save
    (JSON_stringify : list Message -> jsstring)
    (JSON_parse : jsstring -> option (list Message))
    (quota : string -> jsstring -> bool) (w : Widget) (saved now : Z) :
  truthy (JSON_stringify (conversationHistory w)) = true ->
  JSON_parse (JSON_stringify (conversationHistory w)) = Some (conversationHistory w) ->
  quota storageKey (JSON_stringify (conversationHistory w)) = true ->
  quota storageTimestampKey (timeToString saved) = true ->
  (now - saved < 30 * msPerDay)%Z ->
  conversationHistory
    (construct JSON_parse now (localStorage (saveHistory JSON_stringify quota saved w)))
  = conversationHistory w.
Proof.
  intros Htext Hcodec Hq1 Hq2 Hin.
  unfold saveHistory. rewrite Hq1, Hq2. cbn [localStorage].
  unfold construct, loadHistory. cbn [localStorage conversationHistory].
  rewrite lookup_insert_ne by discriminate.
  rewrite !lookup_insert_eq, Htext, parseInt_timeToString.
  assert (Htime : truthy (timeToString saved) = true).
  { pose proof (parseInt_timeToString saved) as Hp.
    destruct (timeToString saved); [discriminate Hp | reflexivity]. }
  rewrite Htime. cbn [andb]. unfold withinExpiry, historyExpiryDays.
  apply Z.ltb_lt in Hin. rewrite Hin, Hcodec. reflexivity.
Qed.

Lemma saveHistory_history
    (JSON_stringify : list Message -> jsstring)
    (quota : string -> jsstring -> bool) (w : Widget) (t : Z) :
  conversationHistory (saveHistory JSON_stringify quota t w) = conversationHistory w.
Proof.
  unfold saveHistory. destruct (quota storageKey _); [|reflexivity].
  destruct (quota storageTimestampKey _); reflexivity.
Qed.

(** X11.  After [sendMessage] the history is the old one, then the user's
    message, then the reply when one arrived with a text.  When the storage
    accepts the writes and the browser's JSON codec reads that history back,
    a page loaded less than 30 days after the last save starts with exactly
    that history: a sent message survives a reload even if the reply
    failed. *)
Theorem sent_message_survives_reload
    (JSON_stringify : list Message -> jsstring)
    (JSON_parse : jsstring -> option (list Message))
    (quota : string -> jsstring -> bool)
    (sentAt repliedAt now : Z) (outcome : FetchOutcome)
    (message : jsstring) (c : Chat) :
  let c' := sendMessage JSON_stringify quota sentAt repliedAt outcome message c in
  let h' := conversationHistory (chat_widget c') in
  let lastSave := match outcome with FetchOk _ _ => repliedAt | _ => sentAt end in
  (forall key value, quota key value = true) ->
  truthy (JSON_stringify h') = true ->
  JSON_parse (JSON_stringify h') = Some h' ->
  (now - lastSave < 30 * msPerDay)%Z ->
  h' = conversationHistory (chat_widget c) ++ [mkMessage user message]
       ++ match outcome with
          | FetchOk response _ => [mkMessage assistant response]
          | _ => []
          end
  /\ conversationHistory (construct JSON_parse now (localStorage (chat_widget c')))
     = h'.
Proof.
  intros c' h' lastSave Hquota Htext Hcodec Hin.
  assert (Hh : h' = conversationHistory (chat_widget c) ++ [mkMessage user message]
                    ++ match outcome with
                       | FetchOk response _ => [mkMessage assistant response]
                       | _ => []
                       end).
  { unfold h', c', sendMessage. destruct outcome; cbn [chat_widget];
      rewrite ?saveHistory_history; cbn [pushHistory conversationHistory];
      rewrite ?saveHistory_history; cbn [pushHistory conversationHistory];
      rewrite <- ?app_assoc; reflexivity. }
  split; [exact Hh|].
  unfold h', c', sendMessage in *. destruct outcome; cbn [chat_widget] in *.
  - rewrite saveHistory_history in *.
    apply construct_after_save; auto.
  - rewrite saveHistory_history in *.
    apply construct_after_save; auto.
  - rewrite saveHistory_history in *.
    apply construct_after_save; auto.
Qed.

Lemma sent_message_survives_reload_witness :
  conversationHistory
    (construct jsonParse 1700086400000
       (localStorage
          (chat_widget
             (sendMessage jsonStringify (fun _ _ => true) 1700000000000
                1700000005000 FetchFailed (str "What is DAS?")
                {| chat_widget := {| conversationHistory := []; localStorage := ∅ |};
                   chat_view := [] |}))))
  = [mkMessage user (str "What is DAS?")].
Proof.
  apply (sent_message_survives_reload jsonStringify jsonParse (fun _ _ => true)
           1700000000000 1700000005000 1700086400000 FetchFailed
           (str "What is DAS?")
           {| chat_widget := {| conversationHistory := []; localStorage := ∅ |};
              chat_view := [] |}).
  - reflexivity.
  - reflexivity.
  - vm_compute. reflexivity.
  - vm_compute. reflexivity.
Defined.

(** X12.  When [sendMessage] is over the typing placeholder is gone: the
    view has grown by the user's bubble and the reply's bubble (with the
    call-to-action after it when the server flagged consultation intent), or
    by the fallback bubble when the request failed; and every bubble it added
    holds safe markup, whatever the user typed and whatever the server
    answered. *)
Theorem sendMessage_view
    (JSON_stringify : list Message -> jsstring)
    (quota : string -> jsstring -> bool)
    (sentAt repliedAt : Z) (outcome : FetchOutcome)
    (message : jsstring) (c : Chat) :
  let c' := sendMessage JSON_stringify quota sentAt repliedAt outcome message c in
  chat_view c'
  = chat_view c ++ [Bubble user (markdownToHTML message)]
    ++ match outcome with
       | FetchOk response consultationIntent =>
           [Bubble assistant (markdownToHTML response)]
           ++ (if consultationIntent then [ConsultationCta] else [])
       | FetchOkWithoutText =>
           [Bubble assistant []; Bubble assistant (markdownToHTML FALLBACK)]
       | FetchFailed => [Bubble assistant (markdownToHTML FALLBACK)]
       end
  /\ (viewSafe (chat_view c) -> viewSafe (chat_view c')).
Proof.
  cbn zeta.
  assert (Hview : chat_view (sendMessage JSON_stringify quota sentAt repliedAt
                               outcome message c)
                  = chat_view c ++ [Bubble user (markdownToHTML message)]
                    ++ match outcome with
                       | FetchOk response consultationIntent =>
                           [Bubble assistant (markdownToHTML response)]
                           ++ (if consultationIntent then [ConsultationCta] else [])
                       | FetchOkWithoutText =>
                           [Bubble assistant [];
                            Bubble assistant (markdownToHTML FALLBACK)]
                       | FetchFailed => [Bubble assistant (markdownToHTML FALLBACK)]
                       end).
  { unfold sendMessage, addMessage. cbv iota.
    destruct outcome as [response [|]| |]; cbn [chat_view];
      rewrite removeAt_last, <- ?app_assoc; reflexivity. }
  split; [exact Hview|]. rewrite Hview. intros Hsafe.
  apply viewSafe_app; [exact Hsafe|].
  apply (viewSafe_app [_]); [apply viewSafe_bubble|].
  destruct outcome as [response [|]| |].
  - apply (viewSafe_app [_]); [apply viewSafe_bubble | repeat constructor].
  - apply (viewSafe_app [_]); [apply viewSafe_bubble | constructor].
  - constructor; [apply safe_nil | apply viewSafe_bubble].
  - apply viewSafe_bubble.
Qed.

Lemma sendMessage_view_witness :
  viewSafe
    (chat_view
       (sendMessage jsonStringify (fun _ _ => true) 0 1
          (FetchOk (str "<script>alert(1)</script>") true) (str "<b>hi</b>")
          {| chat_widget := {| conversationHistory := []; localStorage := ∅ |};
             chat_view := [] |})).
Proof.
  apply (sendMessage_view jsonStringify (fun _ _ => true) 0 1
           (FetchOk (str "<script>alert(1)</script>") true) (str "<b>hi</b>")
           {| chat_widget := {| conversationHistory := []; localStorage := ∅ |};
              chat_view := [] |}).
  constructor.
Defined.

Lemma restore_fold (history : list Message) (view : list ViewItem) :
  fold_left
    (fun view msg =>
       match role msg with
       | assistant => addMessage assistant (content msg) false view
       | user => addMessage user (content msg) false view
       | system => view
       end) history view
  = view ++ map (fun m => Bubble (role m) (markdownToHTML (content m)))
              (List.filter isShown history).
Proof.
  revert view; induction history as [|m h IH]; intros view.
  - simpl. rewrite app_nil_r. reflexivity.
  - cbn [fold_left List.filter]. rewrite IH. unfold isShown, addMessage.
    destruct (role m) eqn:Hr; cbn [map]; rewrite <- ?app_assoc, ?Hr; reflexivity.
Qed.

(** X13.  [restoreMessages] changes neither the history nor the storage.
    It adds one bubble for every user and assistant entry of the history, in
    order, and none for an entry of another role; for an empty history it
    adds the greeting alone, which is therefore never stored.  Every bubble
    it adds holds safe markup, whatever the stored history contained. *)
Theorem restoreMessages_view (c : Chat) :
  let history := conversationHistory (chat_widget c) in
  chat_widget (restoreMessages c) = chat_widget c
  /\ chat_view (restoreMessages c)
     = chat_view c
       ++ match history with
          | [] => [Bubble assistant (markdownToHTML GREETING)]
          | _ :: _ =>
              map (fun m => Bubble (role m) (markdownToHTML (content m)))
                (List.filter isShown history)
          end
  /\ (viewSafe (chat_view c) -> viewSafe (chat_view (restoreMessages c))).
Proof.
  cbn zeta.
  assert (Hview : chat_view (restoreMessages c)
            = chat_view c
              ++ match conversationHistory (chat_widget c) with
                 | [] => [Bubble assistant (markdownToHTML GREETING)]
                 | _ :: _ =>
                     map (fun m => Bubble (role m) (markdownToHTML (content m)))
                       (List.filter isShown (conversationHistory (chat_widget c)))
                 end).
  { unfold restoreMessages. cbn [chat_view].
    destruct (conversationHistory (chat_widget c)) as [|m h] eqn:Hh; [reflexivity|].
    apply restore_fold. }
  split; [reflexivity|]. split; [exact Hview|].
  rewrite Hview. intros Hsafe. apply viewSafe_app; [exact Hsafe|].
  destruct (conversationHistory (chat_widget c)) as [|m h]; [apply viewSafe_bubble|].
  apply List.Forall_forall. intros item Hin. apply in_map_iff in Hin as [m' [<- _]].
  apply markdownToHTML_safe.
Qed.

Lemma restoreMessages_view_witness :
  viewSafe
    (chat_view
       (restoreMessages
          {| chat_widget :=
               {| conversationHistory :=
                    [mkMessage user (str "<img src=x onerror=alert(1)>");
                     mkMessage system (str "hidden")];
                  localStorage := ∅ |};
             chat_view := [] |})).
Proof.
  apply (restoreMessages_view
           {| chat_widget :=
                {| conversationHistory :=
                     [mkMessage user (str "<img src=x onerror=alert(1)>");
                      mkMessage system (str "hidden")];
                   localStorage := ∅ |};
              chat_view := [] |}).
  constructor.
Defined.

Lemma joinLines_cons (l l' : jsstring) (ls : list jsstring) :
  joinLines (l :: l' :: ls) = l ++ LF :: joinLines (l' :: ls).
Proof. reflexivity. Qed.

Lemma joinLines_splitLines (s : jsstring) : joinLines (splitLines s) = s.
Proof.
  induction s as [|c s IH]; [reflexivity|].
  cbn [splitLines]. pose proof (splitLines_not_nil s) as Hne.
  destruct (splitLines s) as [|l ls]; [congruence|].
  destruct (Ascii.eqb c LF) eqn:Hc.
  - apply Ascii.eqb_eq in Hc. subst c. rewrite joinLines_cons, IH. reflexivity.
  - destruct ls as [|l' ls].
    + change (joinLines [c :: l]) with (c :: joinLines [l]). rewrite IH. reflexivity.
    + rewrite joinLines_cons. rewrite joinLines_cons in IH.
      cbn [app]. rewrite IH. reflexivity.
Qed.

Lemma joinLines_snoc (displayedLines : list jsstring) (line : jsstring) :
  joinLines (displayedLines ++ [line]) = typedSoFar displayedLines ++ line.
Proof.
  induction displayedLines as [|l ls IH]; [reflexivity|].
  destruct ls as [|l' ls].
  - cbn. rewrite <- app_assoc. reflexivity.
  - change ((l :: l' :: ls) ++ [line]) with (l :: l' :: (ls ++ [line])).
    rewrite joinLines_cons.
    change (l' :: ls ++ [line]) with ((l' :: ls) ++ [line]). rewrite IH.
    cbn [typedSoFar]. rewrite joinLines_cons, <- !app_assoc. reflexivity.
Qed.

Lemma typedSoFar_snoc (displayedLines : list jsstring) (line : jsstring) :
  typedSoFar (displayedLines ++ [line]) = typedSoFar displayedLines ++ line ++ [LF].
Proof.
  unfold typedSoFar at 1.
  destruct (displayedLines ++ [line]) eqn:Heq.
  - destruct displayedLines; discriminate.
  - rewrite <- Heq, joinLines_snoc, <- app_assoc. reflexivity.
Qed.

Lemma typeLines_prefixes (lines displayedLines : list jsstring) :
  lines <> [] ->
  typeLines displayedLines lines
  = map (fun k => markdownToHTML
                    (typedSoFar displayedLines ++ firstn k (joinLines lines)))
      (seq 0 (S (length (joinLines lines)))).
Proof.
  revert displayedLines; induction lines as [|l ls IH]; [congruence|].
  intros displayedLines _. cbn [typeLines]. destruct ls as [|l' ls].
  - cbn [typeLines]. rewrite app_nil_r. apply map_ext. intros k.
    rewrite joinLines_snoc. reflexivity.
  - rewrite IH by discriminate. rewrite joinLines_cons.
    set (J := joinLines (l' :: ls)).
    replace (S (length (l ++ LF :: J)))
      with (S (length l) + S (length J))
      by (rewrite length_app; cbn [length]; lia).
    rewrite seq_app, map_app. f_equal.
    + apply map_ext_in. intros k Hk. apply in_seq in Hk.
      rewrite joinLines_snoc, firstn_app.
      replace (k - length l) with 0 by lia. cbn [firstn].
      rewrite app_nil_r. reflexivity.
    + cbn [Nat.add].
      transitivity
        (map (fun j => markdownToHTML
                         (typedSoFar displayedLines
                          ++ firstn (length l + S j) (l ++ LF :: J)))
           (seq 0 (S (length J)))).
      * apply map_ext. intros j. rewrite typedSoFar_snoc, firstn_app.
        rewrite (firstn_all2 (n := length l + S j) l) by lia.
        replace (length l + S j - length l) with (S j) by lia.
        cbn [firstn]. rewrite <- !app_assoc. reflexivity.
      * generalize (S (length J)) as n. intros n.
        rewrite <- (Nat.add_0_r (S (length l))) at 1.
        generalize 0 as start. intros start. revert start.
        induction n as [|n IHn]; intros start; [reflexivity|].
        cbn [seq map]. f_equal.
        -- f_equal. f_equal. f_equal. lia.
        -- rewrite IHn. f_equal. f_equal. lia.
Qed.

(** X14.  While a reply is typed out, the element shows, one after the
    other, the rendering of every prefix of the reply, from the empty one to
    the whole text: one frame more than the reply has characters.  So the
    last frame already is the final rendering, and every frame, also one that
    cuts a bold marker or a list in two, holds safe markup. *)
Theorem typingFrames_are_prefix_renderings (content : jsstring) :
  typingFrames content
  = map (fun k => markdownToHTML (firstn k content)) (seq 0 (S (length content)))
  /\ List.last (typingFrames content) [] = markdownToHTML content
  /\ Forall safeMarkup (typingFrames content).
Proof.
  assert (Hframes : typingFrames content
     = map (fun k => markdownToHTML (firstn k content))
         (seq 0 (S (length content)))).
  { unfold typingFrames. rewrite typeLines_prefixes by apply splitLines_not_nil.
    rewrite joinLines_splitLines. reflexivity. }
  split; [exact Hframes|]. rewrite Hframes. split.
  - rewrite seq_S, map_app. cbn [map Nat.add]. rewrite List.last_last, firstn_all.
    reflexivity.
  - apply List.Forall_forall. intros frame Hin.
    apply in_map_iff in Hin as [k [<- _]]. apply markdownToHTML_safe.
Qed.

(** The four ways [loadHistory] can end on a fresh widget. *)
Lemma construct_cases
    (JSON_parse : jsstring -> option (list Message)) (now : Z)
    (storage : gmap string jsstring) :
  let w := construct JSON_parse now storage in
  (w = {| conversationHistory := []; localStorage := storage |}
   /\ (forall stored timestamp,
         storage !! storageKey = Some stored ->
         storage !! storageTimestampKey = Some timestamp ->
         truthy stored && truthy timestamp = false))
  \/ (w = clearHistory {| conversationHistory := []; localStorage := storage |})
  \/ (exists stored timestamp savedTime,
        storage !! storageKey = Some stored
        /\ storage !! storageTimestampKey = Some timestamp
        /\ truthy stored && truthy timestamp = true
        /\ parseInt timestamp = Some savedTime
        /\ (now - savedTime < 30 * msPerDay)%Z
        /\ JSON_parse stored = Some (conversationHistory w)
        /\ localStorage w = storage).
Proof.
  cbn zeta. unfold construct, loadHistory. cbn [localStorage].
  destruct (storage !! storageKey) as [stored|] eqn:Hs;
    [|left; split; [reflexivity | discriminate]].
  destruct (storage !! storageTimestampKey) as [timestamp|] eqn:Ht;
    [|left; split; [reflexivity | discriminate]].
  destruct (truthy stored && truthy timestamp) eqn:Htruthy.
  2:{ left. split; [reflexivity|]. intros ? ? [= <-] [= <-]. exact Htruthy. }
  destruct (parseInt timestamp) as [savedTime|] eqn:Hp; [|right; left; reflexivity].
  destruct (withinExpiry now savedTime) eqn:Hw; [|right; left; reflexivity].
  destruct (JSON_parse stored) as [h|] eqn:Hj; [|right; left; reflexivity].
  right. right. exists stored, timestamp, savedTime. cbn [conversationHistory localStorage].
  apply Z.ltb_lt in Hw. repeat split; auto.
Qed.

(** X15.  [loadHistory] on a fresh widget loads a history only from a
    complete record: both keys present, the timestamp a number less than 30
    days before now, and the log accepted by [JSON.parse]; then the storage
    is left as it was.  In every other case the history stays empty, and the
    storage is either untouched or has lost exactly the two keys. *)
Theorem construct_loads_only_fresh_logs
    (JSON_parse : jsstring -> option (list Message)) (now : Z)
    (storage : gmap string jsstring) :
  let w := construct JSON_parse now storage in
  (conversationHistory w <> [] ->
   exists stored timestamp savedTime,
     storage !! storageKey = Some stored
     /\ storage !! storageTimestampKey = Some timestamp
     /\ parseInt timestamp = Some savedTime
     /\ (now - savedTime < 30 * msPerDay)%Z
     /\ JSON_parse stored = Some (conversationHistory w)
     /\ localStorage w = storage)
  /\ (localStorage w = storage
      \/ (conversationHistory w = []
          /\ localStorage w = delete storageTimestampKey (delete storageKey storage))).
Proof.
  cbn zeta.
  destruct (construct_cases JSON_parse now storage)
    as [[Hw _] | [Hw | (stored & timestamp & savedTime & Hs & Ht & _ & Hp & Hin & Hj & Hl)]].
  - rewrite Hw. cbn. split; [congruence | left; reflexivity].
  - rewrite Hw. cbn. split; [congruence | right; split; reflexivity].
  - split; [|left; exact Hl]. intros _.
    exists stored, timestamp, savedTime. repeat split; assumption.
Qed.

Lemma construct_loads_only_fresh_logs_witness :
  exists stored timestamp savedTime,
    localStorage (saveHistory jsonStringify (fun _ _ => true) 1700000000000
                    {| conversationHistory := history_C8; localStorage := ∅ |})
      !! storageKey = Some stored
    /\ localStorage (saveHistory jsonStringify (fun _ _ => true) 1700000000000
                       {| conversationHistory := history_C8; localStorage := ∅ |})
         !! storageTimestampKey = Some timestamp
    /\ parseInt timestamp = Some savedTime
    /\ (1700086400000 - savedTime < 30 * msPerDay)%Z
    /\ jsonParse stored
       = Some (conversationHistory
                 (construct jsonParse 1700086400000
                    (localStorage
                       (saveHistory jsonStringify (fun _ _ => true) 1700000000000
                          {| conversationHistory := history_C8; localStorage := ∅ |}))))
    /\ localStorage
         (construct jsonParse 1700086400000
            (localStorage
               (saveHistory jsonStringify (fun _ _ => true) 1700000000000
                  {| conversationHistory := history_C8; localStorage := ∅ |})))
       = localStorage
           (saveHistory jsonStringify (fun _ _ => true) 1700000000000
              {| conversationHistory := history_C8; localStorage := ∅ |}).
Proof.
  apply (construct_loads_only_fresh_logs jsonParse 1700086400000
           (localStorage
              (saveHistory jsonStringify (fun _ _ => true) 1700000000000
                 {| conversationHistory := history_C8; localStorage := ∅ |}))).
  vm_compute. discriminate.
Defined.

(** X16.  Loading again from the storage a load left behind, at any
    time, either finds the same history or none: a record that was dropped as
    expired, malformed or unreadable is gone from the storage and never comes
    back, and a load never makes up entries. *)
Theorem reload_keeps_or_drops
    (JSON_parse : jsstring -> option (list Message)) (now now' : Z)
    (storage : gmap string jsstring) :
  let w := construct JSON_parse now storage in
  let w' := construct JSON_parse now' (localStorage w) in
  (conversationHistory w' = conversationHistory w
   \/ conversationHistory w' = [])
  /\ (conversationHistory w = [] -> conversationHistory w' = []).
Proof.
  cbn zeta.
  assert (Hcleared : forall storage0,
            conversationHistory
              (construct JSON_parse now'
                 (localStorage
                    (clearHistory
                       {| conversationHistory := []; localStorage := storage0 |})))
            = []).
  { intros storage0. unfold construct, loadHistory, clearHistory. cbn [localStorage].
    rewrite lookup_delete_ne by discriminate. rewrite lookup_delete_eq. reflexivity. }
  destruct (construct_cases JSON_parse now storage)
    as [[Hw Hnone] | [Hw | (stored & timestamp & savedTime & Hs & Ht & Htr & Hp & Hin & Hj & Hl)]].
  - rewrite Hw. cbn [localStorage conversationHistory].
    assert (H' : conversationHistory (construct JSON_parse now' storage) = []).
    { unfold construct, loadHistory. cbn [localStorage].
      destruct (storage !! storageKey) as [stored|] eqn:Hs; [|reflexivity].
      destruct (storage !! storageTimestampKey) as [timestamp|] eqn:Ht; [|reflexivity].
      rewrite (Hnone _ _ eq_refl eq_refl). reflexivity. }
    split; [left|intros _]; exact H'.
  - rewrite Hw, Hcleared. split; [right; reflexivity | reflexivity].
  - rewrite Hl.
    assert (H' : conversationHistory (construct JSON_parse now' storage)
                 = conversationHistory (construct JSON_parse now storage)
                 \/ conversationHistory (construct JSON_parse now' storage) = []).
    { unfold construct at 1 3, loadHistory. cbn [localStorage].
      rewrite Hs, Ht, Htr, Hp.
      destruct (withinExpiry now' savedTime); [|right; reflexivity].
      rewrite Hj. left. reflexivity. }
    split; [exact H'|]. intros Hnil. destruct H' as [H'|H']; congruence.
Qed.

Lemma reload_keeps_or_drops_witness :
  conversationHistory
    (construct jsonParse 1700086400000
       (localStorage
          (construct jsonParse 1800000000000
             (localStorage
                (saveHistory jsonStringify (fun _ _ => true) 1700000000000
                   {| conversationHistory := history_C8; localStorage := ∅ |})))))
  = [].
Proof.
  apply (reload_keeps_or_drops jsonParse 1800000000000 1700086400000
           (localStorage
              (saveHistory jsonStringify (fun _ _ => true) 1700000000000
                 {| conversationHistory := history_C8; localStorage := ∅ |}))).
  vm_compute. reflexivity.
Defined.

(** ** The clean-up at the end of the two normalisers *)

Lemma noPair_cons (bad : ascii -> ascii -> bool) (a : ascii) (t : jsstring) :
  noPair bad (a :: t)
  = match t with b :: _ => negb (bad a b) | [] => true end && noPair bad t.
Proof. destruct t; reflexivity. Qed.

Lemma noPair_cons_free (bad : ascii -> ascii -> bool) (a : ascii) (t : jsstring) :
  (forall b, bad a b = false) -> noPair bad (a :: t) = noPair bad t.
Proof. intros H. rewrite noPair_cons. destruct t; [reflexivity|]. rewrite H. reflexivity. Qed.

Lemma noPair_app_r (bad : ascii -> ascii -> bool) (l r : jsstring) :
  noPair bad (l ++ r) = true -> noPair bad r = true.
Proof.
  induction l as [|a l IH]; [auto|]. cbn [app]. rewrite noPair_cons.
  intros H. apply andb_prop in H as [_ H]. exact (IH H).
Qed.

Lemma noPair_app_l (bad : ascii -> ascii -> bool) (l r : jsstring) :
  noPair bad (l ++ r) = true -> noPair bad l = true.
Proof.
  induction l as [|a l IH]; [reflexivity|]. cbn [app]. rewrite !noPair_cons.
  intros H. apply andb_prop in H as [H1 H2]. rewrite (IH H2), andb_true_r.
  destruct l; [reflexivity | exact H1].
Qed.

Lemma noPair_app (bad : ascii -> ascii -> bool) (l : jsstring) (c : ascii)
    (r : jsstring) :
  noPair bad (l ++ [c]) = true -> noPair bad (c :: r) = true ->
  noPair bad (l ++ c :: r) = true.
Proof.
  induction l as [|a l IH]; [auto|]. cbn [app]. intros H1 H2.
  rewrite noPair_cons in H1. apply andb_prop in H1 as [Ha H1].
  rewrite noPair_cons, (IH H1 H2), andb_true_r. destruct l; exact Ha.
Qed.

Lemma noPair_spec (bad : ascii -> ascii -> bool) (s : jsstring) :
  noPair bad s = true
  <-> forall l a b r, s = l ++ a :: b :: r -> bad a b = false.
Proof.
  split.
  - intros H l a b r ->. apply noPair_app_r in H. cbn in H.
    apply andb_prop in H as [H _]. apply negb_true_iff in H. exact H.
  - induction s as [|a s IH]; [reflexivity|]. intros H. rewrite noPair_cons.
    apply andb_true_intro. split.
    + destruct s as [|b s]; [reflexivity|].
      apply negb_true_iff, (H [] a b s). reflexivity.
    + apply IH. intros l a' b' r ->. apply (H (a :: l) a' b' r). reflexivity.
Qed.

Lemma noPair_trim (bad : ascii -> ascii -> bool) (s : jsstring) :
  noPair bad s = true -> noPair bad (trim s) = true.
Proof.
  intros H. unfold trim.
  destruct (trimEnd_prefix (trimStart s)) as [blanks Hb].
  apply (noPair_app_l bad _ blanks). rewrite <- Hb.
  apply (noPair_app_r bad (takeWhile isWhiteSpace s)).
  unfold trimStart. rewrite takeWhile_dropWhile. exact H.
Qed.

Lemma collapseFrom_twoBlanks (s : jsstring) (skipping : bool) :
  noPair twoBlanks (collapseFrom skipping s) = true
  /\ (skipping = true ->
      match collapseFrom skipping s with
      | c :: _ => isWhiteSpace c = false
      | [] => True
      end).
Proof.
  revert skipping; induction s as [|c s IH]; intros skipping.
  - split; [reflexivity | intros _; exact I].
  - cbn [collapseFrom]. destruct (isWhiteSpace c) eqn:Hc.
    + destruct skipping.
      * apply IH.
      * split; [|discriminate]. destruct s as [|c2 s]; [reflexivity|].
        destruct (isWhiteSpace c2) eqn:Hc2.
        -- destruct (IH true) as [IH1 IH2]. rewrite noPair_cons, IH1, andb_true_r.
           specialize (IH2 eq_refl).
           destruct (collapseFrom true (c2 :: s)) as [|d t]; [reflexivity|].
           unfold twoBlanks. rewrite IH2, andb_false_r. reflexivity.
        -- destruct (IH false) as [IH1 _]. rewrite noPair_cons, IH1, andb_true_r.
           cbn [collapseFrom]. rewrite Hc2.
           unfold twoBlanks. rewrite Hc2, andb_false_r. reflexivity.
    + destruct (IH false) as [IH1 _]. split; [|intros _; exact Hc].
      rewrite noPair_cons_free; [exact IH1|].
      intros b. unfold twoBlanks. rewrite Hc. reflexivity.
Qed.

Lemma blanks_noPair_before (isMark : ascii -> bool) (pending : jsstring) :
  (forall c, isMark c = true -> isWhiteSpace c = false) ->
  Forall (fun c => isWhiteSpace c = true) pending ->
  noPair (blankBefore isMark) pending = true.
Proof.
  intros Hmark Hall. apply noPair_spec. intros l a b r ->.
  apply List.Forall_app in Hall as [_ Hall].
  inversion Hall as [|? ? _ Hall']; subst. inversion Hall' as [|? ? Hb _]; subst.
  unfold blankBefore. destruct (isMark b) eqn:Hm; [|apply andb_false_r].
  rewrite (Hmark b Hm) in Hb. discriminate.
Qed.

Lemma dropSpacesBefore_shape (isMark : ascii -> bool) (s pending : jsstring) :
  (forall c, isMark c = true -> isWhiteSpace c = false) ->
  Forall (fun c => isWhiteSpace c = true) pending ->
  noPair twoBlanks (pending ++ s) = true ->
  noPair twoBlanks (dropSpacesBefore isMark pending s) = true
  /\ noPair (blankBefore isMark) (dropSpacesBefore isMark pending s) = true.
Proof.
  intros Hmark. revert pending; induction s as [|c s IH]; intros pending Hall Hno.
  - cbn [dropSpacesBefore]. rewrite app_nil_r in Hno.
    split; [exact Hno | apply blanks_noPair_before; assumption].
  - cbn [dropSpacesBefore]. destruct (isWhiteSpace c) eqn:Hc.
    + apply IH.
      * apply List.Forall_app. split; [exact Hall | repeat constructor; exact Hc].
      * rewrite <- app_assoc. exact Hno.
    + assert (Hfree1 : forall b, twoBlanks c b = false)
        by (intros b; unfold twoBlanks; rewrite Hc; reflexivity).
      assert (Hfree2 : forall b, blankBefore isMark c b = false)
        by (intros b; unfold blankBefore; rewrite Hc; reflexivity).
      destruct (IH [] (List.Forall_nil _)) as [IH1 IH2].
      { apply (noPair_app_r _ (pending ++ [c])). rewrite <- app_assoc. exact Hno. }
      destruct (isMark c) eqn:Hm.
      * rewrite !noPair_cons_free by assumption. split; assumption.
      * split.
        -- apply noPair_app; [|rewrite noPair_cons_free by assumption; exact IH1].
           apply (noPair_app_l _ _ s). rewrite <- app_assoc. exact Hno.
        -- apply noPair_app; [|rewrite noPair_cons_free by assumption; exact IH2].
           apply noPair_spec. intros l a b r Heq. unfold blankBefore.
           destruct r as [|x r] using rev_ind.
           ++ replace (l ++ [a; b]) with ((l ++ [a]) ++ [b]) in Heq
                by (rewrite <- app_assoc; reflexivity).
              apply app_inj_tail in Heq as [_ <-]. rewrite Hm. apply andb_false_r.
           ++ clear IHr.
              replace (l ++ a :: b :: r ++ [x]) with ((l ++ a :: b :: r) ++ [x]) in Heq
                by (rewrite <- app_assoc; reflexivity).
              apply app_inj_tail in Heq as [-> _].
              apply List.Forall_app in Hall as [_ Hall].
              inversion Hall as [|? ? _ Hall']; subst.
              inversion Hall' as [|? ? Hb _]; subst.
              destruct (isMark b) eqn:Hmb; [|apply andb_false_r].
              rewrite (Hmark b Hmb) in Hb. discriminate.
Qed.

Lemma isDot_eq (c : ascii) : isDot c = true -> c = "."%char.
Proof. apply Ascii.eqb_eq. Qed.

Lemma collapseDots_head (s : jsstring) :
  hd_error (collapseDots s) = hd_error s.
Proof.
  induction s as [|c s IH]; [reflexivity|].
  destruct s as [|c2 s]; [reflexivity|].
  change (collapseDots (c :: c2 :: s))
    with (if isDot c && isDot c2 then collapseDots (c2 :: s)
          else c :: collapseDots (c2 :: s)).
  destruct (isDot c) eqn:Hc; [|reflexivity].
  destruct (isDot c2) eqn:Hc2; [|reflexivity].
  cbn [andb]. rewrite IH. cbn. apply isDot_eq in Hc, Hc2. congruence.
Qed.

Lemma noPair_cons_head (bad : ascii -> ascii -> bool) (a : ascii) (t : jsstring) :
  noPair bad (a :: t)
  = match hd_error t with Some b => negb (bad a b) | None => true end
    && noPair bad t.
Proof. destruct t; reflexivity. Qed.

Lemma collapseDots_keeps (bad : ascii -> ascii -> bool) (s : jsstring) :
  noPair bad s = true -> noPair bad (collapseDots s) = true.
Proof.
  induction s as [|c s IH]; [reflexivity|].
  destruct s as [|c2 s]; [reflexivity|]. intros H.
  change (collapseDots (c :: c2 :: s))
    with (if isDot c && isDot c2 then collapseDots (c2 :: s)
          else c :: collapseDots (c2 :: s)).
  rewrite noPair_cons in H. apply andb_prop in H as [Hc H].
  destruct (isDot c && isDot c2); [exact (IH H)|].
  rewrite noPair_cons_head, collapseDots_head, (IH H), andb_true_r. exact Hc.
Qed.

Lemma collapseDots_twoDots (s : jsstring) :
  noPair twoDots (collapseDots s) = true.
Proof.
  induction s as [|c s IH]; [reflexivity|].
  destruct s as [|c2 s]; [reflexivity|].
  change (collapseDots (c :: c2 :: s))
    with (if isDot c && isDot c2 then collapseDots (c2 :: s)
          else c :: collapseDots (c2 :: s)).
  destruct (isDot c && isDot c2) eqn:Hd; [exact IH|].
  rewrite noPair_cons_head, collapseDots_head, IH, andb_true_r.
  cbn [hd_error]. unfold twoDots. rewrite Hd. reflexivity.
Qed.

Lemma isDot_not_blank (c : ascii) : isDot c = true -> isWhiteSpace c = false.
Proof. intros H. apply isDot_eq in H. subst c. reflexivity. Qed.

Lemma isPunctuation_not_blank (c : ascii) :
  isPunctuation c = true -> isWhiteSpace c = false.
Proof.
  unfold isPunctuation, isSentenceEnd. intros H.
  repeat (apply orb_prop in H as [H|H]); apply Ascii.eqb_eq in H; subst c; reflexivity.
Qed.

Lemma fixButtonReferences_no_two_blanks (text : jsstring) :
  isTrimmed (fixButtonReferences text)
  /\ noPair twoBlanks (fixButtonReferences text) = true.
Proof.
  unfold fixButtonReferences. destruct text as [|c0 t0]; [split; reflexivity|].
  cbv zeta. generalize (c0 :: t0) as text.
  intros text. generalize (fold_left (fun fixed pattern =>
                     replaceAll (fst pattern) (snd pattern) fixed)
          patterns text) as fixed. intros fixed.
  pose proof (collapseFrom_twoBlanks fixed false) as [H1 _].
  destruct (dropSpacesBefore_shape isDot (collapseSpaces fixed) []
              isDot_not_blank (List.Forall_nil _) H1) as [H2 _].
  split; [apply trim_isTrimmed|].
  apply noPair_trim, collapseDots_keeps, H2.
Qed.

(** X17.  Whatever text [fixButtonReferences] is given, its result has no
    blank at either end, no two blanks in a row - so no blank line and no
    indentation - no blank before a full stop, and no two full stops in a
    row. *)
Theorem fixButtonReferences_shape (text : jsstring) :
  isTrimmed (fixButtonReferences text)
  /\ forall l a b r,
       fixButtonReferences text = l ++ a :: b :: r ->
       twoBlanks a b = false /\ blankBefore isDot a b = false
       /\ twoDots a b = false.
Proof.
  unfold fixButtonReferences. destruct text as [|c0 t0].
  { split; [reflexivity|]. intros [|? ?] ? ? ? [=]. }
  cbv zeta. generalize (c0 :: t0) as text.
  intros text. generalize (fold_left (fun fixed pattern =>
                     replaceAll (fst pattern) (snd pattern) fixed)
          patterns text) as fixed. intros fixed.
  pose proof (collapseFrom_twoBlanks fixed false) as [H1 _].
  destruct (dropSpacesBefore_shape isDot (collapseSpaces fixed) []
              isDot_not_blank (List.Forall_nil _) H1) as [H2 H3].
  split; [apply trim_isTrimmed|]. intros l a b r Heq.
  repeat split.
  - revert l a b r Heq. apply noPair_spec, noPair_trim, collapseDots_keeps, H2.
  - revert l a b r Heq. apply noPair_spec, noPair_trim, collapseDots_keeps, H3.
  - revert l a b r Heq. apply noPair_spec, noPair_trim, collapseDots_twoDots.
Qed.

(** X18.  Whatever text [removeContactInfo] is given, its result has no
    blank at either end, no two blanks in a row, and no blank before a comma,
    a full stop, an exclamation mark or a question mark. *)
Theorem removeContactInfo_shape (text : jsstring) :
  isTrimmed (removeContactInfo text)
  /\ forall l a b r,
       removeContactInfo text = l ++ a :: b :: r ->
       twoBlanks a b = false /\ blankBefore isPunctuation a b = false.
Proof.
  unfold removeContactInfo.
  cbv zeta.
  generalize (replaceAll orYouCanCallRe []
                (replaceAll callUsRe []
                   (replaceAll emailRe [] (replaceAll phoneRe [] text)))) as removed.
  intros removed.
  pose proof (collapseFrom_twoBlanks removed false) as [H1 _].
  destruct (dropSpacesBefore_shape isPunctuation (collapseSpaces removed) []
              isPunctuation_not_blank (List.Forall_nil _) H1) as [H2 H3].
  split; [apply trim_isTrimmed|]. intros l a b r Heq. split.
  - revert l a b r Heq. apply noPair_spec, noPair_trim, H2.
  - revert l a b r Heq. apply noPair_spec, noPair_trim, H3.
Qed.

Lemma pair_in_app (l1 l2 l : jsstring) (a b : ascii) (r : jsstring) :
  l1 ++ l2 = l ++ a :: b :: r ->
  (exists r1, l1 = l ++ a :: b :: r1)
  \/ (l1 = l ++ [a] /\ l2 = b :: r)
  \/ (exists l', l = l1 ++ l' /\ l2 = l' ++ a :: b :: r).
Proof.
  revert l; induction l1 as [|x l1 IH]; intros l Heq.
  - right. right. exists l. split; [reflexivity | exact Heq].
  - destruct l as [|y l].
    + cbn [app] in Heq. injection Heq as -> Heq.
      destruct l1 as [|x' l1].
      * right. left. split; [reflexivity | exact Heq].
      * cbn [app] in Heq. injection Heq as -> Heq. left. exists l1. reflexivity.
    + cbn [app] in Heq. injection Heq as -> Heq.
      destruct (IH l Heq) as [[r1 ->] | [[-> ->] | [l' [-> ->]]]].
      * left. exists r1. reflexivity.
      * right. left. split; reflexivity.
      * right. right. exists l'. split; reflexivity.
Qed.

Lemma noPair_snoc_trimmed (s : jsstring) (x : ascii) :
  isTrimmed s -> noPair twoBlanks s = true -> noPair twoBlanks (s ++ [x]) = true.
Proof.
  destruct s as [|d s'] using rev_ind; [reflexivity|]. clear IHs'.
  intros Ht Hno.
  assert (Hd : isWhiteSpace d = false).
  { unfold isTrimmed in Ht.
    destruct (s' ++ [d]) as [|c t] eqn:Hs; [destruct s'; discriminate|].
    rewrite <- Hs, rev_app_distr in Ht. cbn [rev app] in Ht. apply Ht. }
  rewrite <- app_assoc. cbn [app].
  apply noPair_app; [exact Hno|]. cbn. unfold twoBlanks. rewrite Hd. reflexivity.
Qed.

Lemma twoBlanks_in_cta_reply (base l : jsstring) (a b : ascii) (r : jsstring) :
  isTrimmed base -> noPair twoBlanks base = true ->
  appendConsultationCTA base = l ++ a :: b :: r -> twoBlanks a b = true ->
  a = LF /\ b = LF /\ r = CTA.
Proof.
  intros Ht Hno. unfold appendConsultationCTA. rewrite (isTrimmed_trim base Ht).
  destruct base as [|c0 t0].
  - intros Heq Hab. exfalso.
    assert (H : noPair twoBlanks (str "Thanks for your interest. " ++ CTA) = true)
      by (vm_compute; reflexivity).
    rewrite (proj1 (noPair_spec _ _) H l a b r Heq) in Hab. discriminate.
  - destruct (alreadyMentionsButton (c0 :: t0)).
    + intros Heq Hab. exfalso.
      rewrite (proj1 (noPair_spec _ _) Hno l a b r Heq) in Hab. discriminate.
    + intros Heq Hab.
      change ((c0 :: t0) ++ [LF; LF] ++ CTA)
        with ((c0 :: t0) ++ [LF] ++ (LF :: CTA)) in Heq.
      rewrite app_assoc in Heq.
      apply pair_in_app in Heq as [[r1 Heq] | [[Heq Heq'] | [l' [_ Heq]]]].
      * exfalso. pose proof (noPair_snoc_trimmed _ LF Ht Hno) as H.
        rewrite (proj1 (noPair_spec _ _) H l a b r1 Heq) in Hab. discriminate.
      * apply app_inj_tail in Heq as [_ <-]. injection Heq' as <- <-.
        repeat split; reflexivity.
      * exfalso.
        assert (H : noPair twoBlanks (LF :: CTA) = true) by (vm_compute; reflexivity).
        rewrite (proj1 (noPair_spec _ _) H l' a b r Heq) in Hab. discriminate.
Qed.

(** X19.  With the two normalisers as the server has them, two blanks
    in a row occur in a reply of [POST /api/chat] at one place only: the
    blank line the server itself puts before the call-to-action of a
    consultation reply.  Any blank line, indentation or double space in the
    provider's text is gone from the reply: [fixSpacing], [fixNumberedLists]
    and [limitList] keep them, [fixButtonReferences] then flattens each to a
    single space. *)
Theorem reply_has_one_blank_line_at_most
    (complete : ProviderRequest -> ProviderOutcome) (SYSTEM_PROMPT : jsstring)
    (message : jsstring) (conversationHistory : JsValue)
    (code : Z) (response : jsstring) (consultationIntent : bool)
    (l : jsstring) (a b : ascii) (r : jsstring) :
  fst (chatHandler complete SYSTEM_PROMPT removeContactInfo fixButtonReferences
         message conversationHistory)
  = {| status := code; body := ChatReply response consultationIntent |} ->
  response = l ++ a :: b :: r ->
  twoBlanks a b = true ->
  consultationIntent = true /\ a = LF /\ b = LF /\ r = CTA.
Proof.
  assert (Hconst : forall text : jsstring,
            noPair twoBlanks text = true ->
            text = l ++ a :: b :: r -> twoBlanks a b = true -> False).
  { intros text H Heq Hab.
    rewrite (proj1 (noPair_spec _ _) H l a b r Heq) in Hab. discriminate. }
  assert (Hfix : forall text, noPair twoBlanks (fixButtonReferences text) = true).
  { intros text. apply fixButtonReferences_no_two_blanks. }
  unfold chatHandler.
  destruct (sanitizeString (JString message) 250) as [|c t]; [discriminate|].
  destruct (isRepeated _ _).
  { cbn [fst]. intros [= _ <- _] Heq Hab. exfalso.
    apply (Hconst REFUSAL); [vm_compute; reflexivity | exact Heq | exact Hab]. }
  destruct (detectConsultationIntent _ _).
  - cbn [negb andb].
    destruct (complete _) as [text|e]; [|unfold handleError; cbn [fst]; discriminate].
    cbn [fst]. intros [= _ <- <-] Heq Hab. split; [reflexivity|].
    unfold postProcess in Heq.
    apply (twoBlanks_in_cta_reply _ l a b r) in Heq; auto.
    apply fixButtonReferences_no_two_blanks.
  - cbn [negb andb]. destruct (isOffTopic _ _).
    { cbn [fst]. intros [= _ <- _] Heq Hab. exfalso.
      apply (Hconst REDIRECT); [vm_compute; reflexivity | exact Heq | exact Hab]. }
    destruct (complete _) as [text|e]; [|unfold handleError; cbn [fst]; discriminate].
    cbn [fst]. intros [= _ <- _] Heq Hab. exfalso.
    unfold postProcess in Heq. exact (Hconst _ (Hfix _) Heq Hab).
Qed.

Lemma reply_has_one_blank_line_at_most_witness :
  true = true /\ LF = LF /\ LF = LF /\ CTA = CTA.
Proof.
  apply (reply_has_one_blank_line_at_most
           (fun _ => Completed (lines ["We price  per building."; "";
                                       "Call us at 1-888-859-2673 ."]))
           (str "persona") (str "what is your pricing") JUndefined 200
           (str "We price per building." ++ [LF; LF] ++ CTA) true
           (str "We price per building.") LF LF CTA).
  - vm_compute. reflexivity.
  - reflexivity.
  - reflexivity.
Defined.

(** ** The pattern matcher *)

Lemma repeatWith_step
    (m : option ascii -> jsstring -> Captures -> Continuation -> option MatchResult)
    (clear : Captures -> Captures) (k : Continuation)
    (fuel min : nat) (max : option nat) (prev : option ascii)
    (s : jsstring) (caps : Captures) :
  repeatWith m clear k (S fuel) min max prev s caps
  = match max with
    | Some 0 => k prev s caps
    | _ =>
        let z := m prev s (clear caps)
                   (fun prev' s' caps' =>
                      if (min =? 0) && (length s' =? length s) then None
                      else repeatWith m clear k fuel (pred min)
                             (option_map pred max) prev' s' caps') in
        match min with
        | S _ => z
        | 0 => match z with Some z => Some z | None => k prev s caps end
        end
    end.
Proof. reflexivity. Qed.

Lemma repeatWith_ext
    (m : option ascii -> jsstring -> Captures -> Continuation -> option MatchResult)
    (clear : Captures -> Captures) (fuel min : nat) (max : option nat) :
  respectsSuffixes m ->
  respectsSuffixes
    (fun prev s caps k => repeatWith m clear k fuel min max prev s caps).
Proof.
  intros Hm. revert min max.
  induction fuel as [|fuel IH]; intros min max prev s caps k1 k2 Hk; [reflexivity|].
  rewrite !repeatWith_step.
  assert (Hd : m prev s (clear caps)
                 (fun prev' s' caps' =>
                    if (min =? 0) && (length s' =? length s) then None
                    else repeatWith m clear k1 fuel (pred min)
                           (option_map pred max) prev' s' caps')
               = m prev s (clear caps)
                   (fun prev' s' caps' =>
                      if (min =? 0) && (length s' =? length s) then None
                      else repeatWith m clear k2 fuel (pred min)
                             (option_map pred max) prev' s' caps')).
  { apply Hm. intros prev' s' caps' Hle.
    destruct ((min =? 0) && (length s' =? length s)); [reflexivity|].
    apply (IH (pred min) (option_map pred max) prev' s' caps' k1 k2).
    intros p'' s'' c'' Hle'. apply Hk. lia. }
  cbv zeta. rewrite Hd, (Hk prev s caps) by lia. reflexivity.
Qed.

Lemma repeatWith_fuel
    (m : option ascii -> jsstring -> Captures -> Continuation -> option MatchResult)
    (clear : Captures -> Captures) (k : Continuation) :
  respectsSuffixes m ->
  forall fuel1 fuel2 min max prev s caps,
    S (min + length s) <= fuel1 -> S (min + length s) <= fuel2 ->
    repeatWith m clear k fuel1 min max prev s caps
    = repeatWith m clear k fuel2 min max prev s caps.
Proof.
  intros Hm. induction fuel1 as [|fuel1 IH]; intros fuel2 min max prev s caps H1 H2;
    [lia|].
  destruct fuel2 as [|fuel2]; [lia|]. rewrite !repeatWith_step.
  assert (Hd : m prev s (clear caps)
                 (fun prev' s' caps' =>
                    if (min =? 0) && (length s' =? length s) then None
                    else repeatWith m clear k fuel1 (pred min)
                           (option_map pred max) prev' s' caps')
               = m prev s (clear caps)
                   (fun prev' s' caps' =>
                      if (min =? 0) && (length s' =? length s) then None
                      else repeatWith m clear k fuel2 (pred min)
                             (option_map pred max) prev' s' caps')).
  { apply Hm. intros prev' s' caps' Hle.
    destruct (min =? 0) eqn:Hmin; destruct (length s' =? length s) eqn:Hlen;
      cbn [andb]; try reflexivity.
    - apply Nat.eqb_eq in Hmin. apply Nat.eqb_neq in Hlen. apply IH; lia.
    - apply Nat.eqb_neq in Hmin. apply IH; lia.
    - apply Nat.eqb_neq in Hmin. apply IH; lia. }
  cbv zeta. rewrite Hd. reflexivity.
Qed.

Lemma repeatWith_matcher
    (m1 m2 : option ascii -> jsstring -> Captures -> Continuation
             -> option MatchResult)
    (clear : Captures -> Captures) (k : Continuation) :
  (forall prev s caps k', m1 prev s caps k' = m2 prev s caps k') ->
  respectsSuffixes m2 ->
  forall fuel min max prev s caps,
    repeatWith m1 clear k fuel min max prev s caps
    = repeatWith m2 clear k fuel min max prev s caps.
Proof.
  intros H12 Hm. induction fuel as [|fuel IH]; intros min max prev s caps;
    [reflexivity|].
  rewrite !repeatWith_step. cbv zeta. rewrite H12.
  assert (Hd : m2 prev s (clear caps)
                 (fun prev' s' caps' =>
                    if (min =? 0) && (length s' =? length s) then None
                    else repeatWith m1 clear k fuel (pred min)
                           (option_map pred max) prev' s' caps')
               = m2 prev s (clear caps)
                   (fun prev' s' caps' =>
                      if (min =? 0) && (length s' =? length s) then None
                      else repeatWith m2 clear k fuel (pred min)
                             (option_map pred max) prev' s' caps')).
  { apply Hm. intros prev' s' caps' _.
    destruct ((min =? 0) && (length s' =? length s)); [reflexivity | apply IH]. }
  rewrite Hd. reflexivity.
Qed.

Lemma matchReWith_ext (extra : nat) (r : Regex) :
  respectsSuffixes (matchReWith extra r).
Proof.
  induction r as [|p|r1 IH1 r2 IH2|r1 IH1 r2 IH2|min max r1 IH1|i r1 IH1|];
    intros prev s caps k1 k2 Hk; cbn [matchReWith].
  - apply Hk. lia.
  - destruct s as [|c s']; [reflexivity|].
    destruct (p c); [|reflexivity]. apply Hk. cbn. lia.
  - apply IH1. intros prev' s' caps' Hle. apply IH2.
    intros p'' s'' c'' Hle'. apply Hk. lia.
  - rewrite (IH1 prev s caps k1 k2 Hk), (IH2 prev s caps k1 k2 Hk). reflexivity.
  - apply (repeatWith_ext (matchReWith extra r1) (clearCaptures r1)
             (extra + S (min + length s)) min max IH1 prev s caps k1 k2 Hk).
  - apply IH1. intros prev' s' caps' Hle. apply Hk. exact Hle.
  - rewrite (Hk prev s caps) by lia. reflexivity.
Qed.

(** The bound on the iterations of a quantifier is never what makes a
    match fail: a larger bound gives the same result. *)
Lemma matchReWith_extra (r : Regex) (extra : nat) (prev : option ascii)
    (s : jsstring) (caps : Captures) (k : Continuation) :
  matchReWith extra r prev s caps k = matchRe r prev s caps k.
Proof.
  unfold matchRe. revert prev s caps k.
  induction r as [|p|r1 IH1 r2 IH2|r1 IH1 r2 IH2|min max r1 IH1|i r1 IH1|];
    intros prev s caps k; cbn [matchReWith]; try reflexivity.
  - rewrite IH1. apply matchReWith_ext. intros prev' s' caps' _. apply IH2.
  - rewrite IH1, IH2. reflexivity.
  - rewrite (repeatWith_matcher (matchReWith extra r1) (matchReWith 0 r1)
               (clearCaptures r1) k IH1 (matchReWith_ext 0 r1)).
    apply repeatWith_fuel; [apply matchReWith_ext | lia | lia].
  - apply IH1.
Qed.

Lemma repeatWith_sound (L : jsstring -> Prop)
    (m : option ascii -> jsstring -> Captures -> Continuation -> option MatchResult)
    (clear : Captures -> Captures) (k : Continuation) :
  soundFor L m ->
  forall fuel min max prev s caps z,
    (forall n, max = Some n -> min <= n) ->
    repeatWith m clear k fuel min max prev s caps = Some z ->
    exists ws s' prev' caps',
      s = concat ws ++ s' /\ Forall L ws /\ min <= length ws
      /\ (forall n, max = Some n -> length ws <= n)
      /\ k prev' s' caps' = Some z.
Proof.
  intros Hm. induction fuel as [|fuel IH]; intros min max prev s caps z Hwf;
    [discriminate|].
  rewrite repeatWith_step.
  assert (Hstop : k prev s caps = Some z -> min = 0 ->
            exists ws s' prev' caps',
              s = concat ws ++ s' /\ Forall L ws /\ min <= length ws
              /\ (forall n, max = Some n -> length ws <= n)
              /\ k prev' s' caps' = Some z).
  { intros Hk ->. exists [], s, prev, caps. cbn.
    repeat split; [constructor | lia | intros; lia | exact Hk]. }
  assert (Hiter : max <> Some 0 ->
            m prev s (clear caps)
              (fun prev' s' caps' =>
                 if (min =? 0) && (length s' =? length s) then None
                 else repeatWith m clear k fuel (pred min)
                        (option_map pred max) prev' s' caps') = Some z ->
            exists ws s' prev' caps',
              s = concat ws ++ s' /\ Forall L ws /\ min <= length ws
              /\ (forall n, max = Some n -> length ws <= n)
              /\ k prev' s' caps' = Some z).
  { intros Hmax Hz.
    destruct (Hm _ _ _ _ _ Hz) as (w & s1 & prev1 & caps1 & -> & Hw & Hd).
    destruct ((min =? 0) && (length s1 =? length (w ++ s1))); [discriminate|].
    apply IH in Hd.
    - destruct Hd as (ws & s' & prev' & caps' & -> & Hws & Hmin & Hle & Hk).
      exists (w :: ws), s', prev', caps'. cbn [concat length].
      rewrite <- app_assoc. repeat split; [constructor; assumption | lia | | exact Hk].
      intros n ->. specialize (Hle (pred n) eq_refl).
      destruct n; [congruence | cbn in Hle; lia].
    - intros n Hn. destruct max as [n0|]; [|discriminate].
      cbn in Hn. injection Hn as <-. specialize (Hwf n0 eq_refl). lia. }
  destruct max as [[|n]|].
  - intros Hk. apply Hstop; [exact Hk|]. specialize (Hwf 0 eq_refl). lia.
  - cbv zeta. destruct min as [|min'].
    + destruct (m prev s (clear caps) _) as [z'|] eqn:Hz.
      * intros [= <-]. apply Hiter; [discriminate | first [exact Hz | reflexivity]].
      * intros Hk. apply Hstop; [exact Hk | reflexivity].
    + intros Hz. apply Hiter; [discriminate | exact Hz].
  - cbv zeta. destruct min as [|min'].
    + destruct (m prev s (clear caps) _) as [z'|] eqn:Hz.
      * intros [= <-]. apply Hiter; [discriminate | first [exact Hz | reflexivity]].
      * intros Hk. apply Hstop; [exact Hk | reflexivity].
    + intros Hz. apply Hiter; [discriminate | exact Hz].
Qed.

(** Soundness of the matcher: a successful match has consumed a word of
    the pattern. *)
Lemma matchReWith_sound (r : Regex) (extra : nat) :
  wellFormed r = true -> soundFor (lang r) (matchReWith extra r).
Proof.
  induction r as [|p|r1 IH1 r2 IH2|r1 IH1 r2 IH2|min max r1 IH1|i r1 IH1|];
    intros Hwf prev s caps k z; cbn [matchReWith wellFormed lang] in *.
  - intros Hk. exists [], s, prev, caps. repeat split. exact Hk.
  - destruct s as [|c s']; [discriminate|].
    destruct (p c) eqn:Hp; [|discriminate].
    intros Hk. exists [c], s', (Some c), caps.
    repeat split; [exists c; split; [reflexivity | exact Hp] | exact Hk].
  - apply andb_prop in Hwf as [Hwf1 Hwf2]. intros Hz.
    destruct (IH1 Hwf1 _ _ _ _ _ Hz) as (w1 & s1 & prev1 & caps1 & -> & Hw1 & Hz2).
    destruct (IH2 Hwf2 _ _ _ _ _ Hz2) as (w2 & s2 & prev2 & caps2 & -> & Hw2 & Hk).
    exists (w1 ++ w2), s2, prev2, caps2. rewrite <- app_assoc.
    repeat split; [exists w1, w2; repeat split; assumption | exact Hk].
  - apply andb_prop in Hwf as [Hwf1 Hwf2].
    destruct (matchReWith extra r1 prev s caps k) as [z1|] eqn:Hz1.
    + intros [= <-].
      destruct (IH1 Hwf1 _ _ _ _ _ Hz1) as (w & s' & prev' & caps' & -> & Hw & Hk).
      exists w, s', prev', caps'. repeat split; [left; exact Hw | exact Hk].
    + intros Hz2.
      destruct (IH2 Hwf2 _ _ _ _ _ Hz2) as (w & s' & prev' & caps' & -> & Hw & Hk).
      exists w, s', prev', caps'. repeat split; [right; exact Hw | exact Hk].
  - apply andb_prop in Hwf as [Hmax Hwf1]. intros Hz.
    apply (repeatWith_sound (lang r1) _ _ _ (IH1 Hwf1)) in Hz.
    + destruct Hz as (ws & s' & prev' & caps' & -> & Hws & Hmin & Hle & Hk).
      exists (concat ws), s', prev', caps'.
      repeat split; [exists ws; repeat split; assumption | exact Hk].
    + intros n ->. apply Nat.leb_le. exact Hmax.
  - intros Hz.
    destruct (IH1 Hwf _ _ _ _ _ Hz) as (w & s' & prev' & caps' & -> & Hw & Hk).
    eexists w, s', prev', _. repeat split; [exact Hw | exact Hk].
  - destruct (xorb _ _); [|discriminate].
    intros Hk. exists [], s, prev, caps. repeat split. exact Hk.
Qed.

Lemma In_allAscii (c : ascii) : In c allAscii.
Proof.
  unfold allAscii. apply in_map_iff. exists (nat_of_ascii c).
  split; [apply ascii_nat_embedding|]. apply in_seq.
  pose proof (nat_ascii_bounded c). lia.
Qed.

Lemma charsWithin_spec (p q : ascii -> bool) (c : ascii) :
  charsWithin p q = true -> p c = true -> q c = true.
Proof.
  unfold charsWithin. intros H Hp.
  pose proof (proj1 (forallb_forall _ _) H c (In_allAscii c)) as Hc.
  cbv beta in Hc. rewrite Hp in Hc. exact Hc.
Qed.

Lemma count_app (q : ascii -> bool) (a b : jsstring) :
  count q (a ++ b) = count q a + count q b.
Proof. unfold count. rewrite List.filter_app, length_app. reflexivity. Qed.

Lemma lang_minCount (q : ascii -> bool) (r : Regex) (w : jsstring) :
  lang r w -> minCount q r <= count q w.
Proof.
  revert w.
  induction r as [|p|r1 IH1 r2 IH2|r1 IH1 r2 IH2|min max r1 IH1|i r1 IH1|];
    intros w; cbn [lang minCount].
  - lia.
  - intros (c & -> & Hp). destruct (charsWithin p q) eqn:Hpq; [|lia].
    unfold count. cbn. rewrite (charsWithin_spec p q c Hpq Hp). cbn. lia.
  - intros (w1 & w2 & -> & H1 & H2). rewrite count_app.
    specialize (IH1 _ H1). specialize (IH2 _ H2). lia.
  - intros [H|H]; [specialize (IH1 _ H) | specialize (IH2 _ H)]; lia.
  - intros (ws & -> & Hws & Hmin & _).
    assert (Hall : length ws * minCount q r1 <= count q (concat ws)).
    { clear Hmin. induction Hws as [|w ws Hw _ IHws]; [cbn; lia|].
      cbn [concat length]. rewrite count_app. specialize (IH1 _ Hw). lia. }
    nia.
  - apply IH1.
  - lia.
Qed.

Lemma lang_allChars (q : ascii -> bool) (r : Regex) (w : jsstring) :
  allChars q r = true -> lang r w -> Forall (fun c => q c = true) w.
Proof.
  revert w.
  induction r as [|p|r1 IH1 r2 IH2|r1 IH1 r2 IH2|min max r1 IH1|i r1 IH1|];
    intros w; cbn [lang allChars].
  - intros _ ->. constructor.
  - intros Hpq (c & -> & Hp). repeat constructor.
    exact (charsWithin_spec p q c Hpq Hp).
  - intros Hq (w1 & w2 & -> & H1 & H2). apply andb_prop in Hq as [Hq1 Hq2].
    apply List.Forall_app. split; [apply IH1 | apply IH2]; assumption.
  - intros Hq [H|H]; apply andb_prop in Hq as [Hq1 Hq2];
      [apply IH1 | apply IH2]; assumption.
  - intros Hq (ws & -> & Hws & _).
    induction Hws as [|w ws Hw _ IHws]; [constructor|].
    cbn [concat]. apply List.Forall_app. split; [apply IH1; assumption | exact IHws].
  - apply IH1.
  - intros _ ->. constructor.
Qed.

(** What a successful search at a position has found. *)
Lemma matchRe_found (regex : Regex) (prev : option ascii) (s s' : jsstring)
    (caps : Captures) :
  wellFormed regex = true ->
  matchRe regex prev s [] (fun _ s' caps => Some (s', caps)) = Some (s', caps) ->
  exists w, s = w ++ s' /\ lang regex w.
Proof.
  intros Hwf Hz.
  destruct (matchReWith_sound regex 0 Hwf _ _ _ _ _ Hz)
    as (w & s1 & prev1 & caps1 & -> & Hw & [= <- _]).
  exists w. split; [reflexivity | exact Hw].
Qed.

Lemma count_suffix (q : ascii -> bool) (c : ascii) (s : jsstring) :
  count q s <= count q (c :: s).
Proof. unfold count. cbn. destruct (q c); cbn; lia. Qed.

(** A text that holds fewer code units of a class than every word of the
    pattern needs is left as it is. *)
Lemma replaceFrom_inert (q : ascii -> bool) (regex : Regex)
    (replacement : list Piece) (s : jsstring) (prev : option ascii) :
  wellFormed regex = true ->
  count q s < minCount q regex ->
  replaceFrom regex replacement 0 prev s = s.
Proof.
  intros Hwf. revert prev; induction s as [|c s IH]; intros prev Hlt.
  - cbn [replaceFrom].
    destruct (matchRe regex prev [] [] _) as [[s' caps]|] eqn:Hz; [|reflexivity].
    exfalso. destruct (matchRe_found _ _ _ _ _ Hwf Hz) as (w & Hs & Hw).
    pose proof (lang_minCount q _ _ Hw) as Hmin.
    destruct w; [|discriminate]. cbn in Hmin, Hlt. lia.
  - cbn [replaceFrom].
    destruct (matchRe regex prev (c :: s) [] _) as [[s' caps]|] eqn:Hz.
    + exfalso. destruct (matchRe_found _ _ _ _ _ Hwf Hz) as (w & Hs & Hw).
      pose proof (lang_minCount q _ _ Hw) as Hmin.
      rewrite Hs, count_app in Hlt. lia.
    + rewrite IH; [reflexivity|]. pose proof (count_suffix q c s). lia.
Qed.

(** A pattern whose words hold no code unit of the class [q], replaced by
    nothing, leaves the code units of that class as they are. *)
Lemma replaceFrom_deleting (q : ascii -> bool) (regex : Regex) (s : jsstring) :
  wellFormed regex = true ->
  allChars (fun c => negb (q c)) regex = true ->
  forall skip prev,
    Forall (fun c => q c = false) (firstn skip s) ->
    List.filter q (replaceFrom regex [] skip prev s) = List.filter q s.
Proof.
  intros Hwf Hall. induction s as [|c s IH]; intros skip prev Hskip.
  - destruct skip; cbn [replaceFrom]; [|reflexivity].
    destruct (matchRe regex prev [] [] _) as [[s' caps]|]; reflexivity.
  - destruct skip as [|skip]; cbn [replaceFrom].
    + destruct (matchRe regex prev (c :: s) [] _) as [[s' caps]|] eqn:Hz.
      * destruct (matchRe_found _ _ _ _ _ Hwf Hz) as (w & Hs & Hw).
        pose proof (lang_allChars _ _ _ Hall Hw) as Hnone.
        cbn [expand flat_map app].
        replace (length (c :: s) - length s') with (length w)
          by (rewrite Hs, length_app; lia).
        destruct w as [|c' w]; cbn [length].
        -- cbn [List.filter]. rewrite (IH 0 (Some c)) by constructor. reflexivity.
        -- cbn [app] in Hs. injection Hs as <- Hs.
           inversion Hnone as [|? ? Hc Hw']; subst.
           apply negb_true_iff in Hc. cbn [List.filter]. rewrite Hc.
           apply IH. rewrite firstn_app, firstn_all, Nat.sub_diag.
           cbn [firstn]. rewrite app_nil_r.
           apply List.Forall_forall. intros x Hx.
           apply negb_true_iff. revert x Hx. apply List.Forall_forall. exact Hw'.
      * cbn [List.filter]. rewrite (IH 0 (Some c)) by constructor. reflexivity.
    + cbn [firstn] in Hskip. inversion Hskip as [|? ? Hc Hrest]; subst.
      cbn [List.filter]. rewrite Hc. apply IH. exact Hrest.
Qed.

Lemma filter_blanks (q : ascii -> bool) (blanks : jsstring) :
  (forall c, q c = true -> isWhiteSpace c = false) ->
  Forall (fun c => isWhiteSpace c = true) blanks ->
  List.filter q blanks = [].
Proof.
  intros Hq. induction 1 as [|c blanks Hc _ IH]; [reflexivity|].
  cbn [List.filter]. destruct (q c) eqn:Hqc; [|exact IH].
  rewrite (Hq c Hqc) in Hc. discriminate.
Qed.

Lemma filter_trim (q : ascii -> bool) (s : jsstring) :
  (forall c, q c = true -> isWhiteSpace c = false) ->
  List.filter q (trim s) = List.filter q s.
Proof.
  intros Hq. unfold trim.
  destruct (trimEnd_blanks (trimStart s)) as (blanks & Hb & Hblank).
  rewrite <- (takeWhile_dropWhile isWhiteSpace s) at 2.
  fold (trimStart s). rewrite Hb at 2.
  rewrite !List.filter_app, (filter_blanks q blanks Hq Hblank), app_nil_r.
  rewrite (filter_blanks q _ Hq (takeWhile_Forall isWhiteSpace s)). reflexivity.
Qed.

Lemma filter_collapseFrom (q : ascii -> bool) (s : jsstring) (skipping : bool) :
  (forall c, q c = true -> isWhiteSpace c = false) ->
  List.filter q (collapseFrom skipping s) = List.filter q s.
Proof.
  intros Hq.
  assert (Hblank : forall c, isWhiteSpace c = true -> q c = false).
  { intros c Hc. destruct (q c) eqn:Hqc; [|reflexivity].
    rewrite (Hq c Hqc) in Hc. discriminate. }
  revert skipping; induction s as [|c s IH]; intros skipping; [reflexivity|].
  cbn [collapseFrom List.filter]. destruct (isWhiteSpace c) eqn:Hc.
  - rewrite (Hblank c Hc). destruct skipping; [apply IH|].
    destruct s as [|c2 s]; [cbn; rewrite (Hblank c Hc); reflexivity|].
    destruct (isWhiteSpace c2).
    + cbn [List.filter]. rewrite (Hblank " "%char eq_refl). apply IH.
    + cbn [List.filter]. rewrite (Hblank c Hc). apply IH.
  - cbn [List.filter]. rewrite IH. reflexivity.
Qed.

Lemma filter_dropSpacesBefore (q isMark : ascii -> bool) (s pending : jsstring) :
  (forall c, q c = true -> isWhiteSpace c = false) ->
  Forall (fun c => isWhiteSpace c = true) pending ->
  List.filter q (dropSpacesBefore isMark pending s) = List.filter q s.
Proof.
  intros Hq. revert pending; induction s as [|c s IH]; intros pending Hp.
  - cbn. apply filter_blanks; assumption.
  - cbn [dropSpacesBefore]. destruct (isWhiteSpace c) eqn:Hc.
    + rewrite IH.
      * cbn [List.filter]. destruct (q c) eqn:Hqc; [|reflexivity].
        rewrite (Hq c Hqc) in Hc. discriminate.
      * apply List.Forall_app. split; [exact Hp | repeat constructor; exact Hc].
    + destruct (isMark c).
      * cbn [List.filter]. rewrite (IH [] (List.Forall_nil _)). reflexivity.
      * rewrite List.filter_app, (filter_blanks q pending Hq Hp).
        cbn [app List.filter]. rewrite (IH [] (List.Forall_nil _)). reflexivity.
Qed.

Lemma isDigit_not_blank (c : ascii) : isDigit c = true -> isWhiteSpace c = false.
Proof.
  destruct (isWhiteSpace c) eqn:Hw; [|reflexivity]. intros Hd. exfalso.
  revert Hw Hd. unfold isWhiteSpace, isDigit, inRange. cbn [existsb].
  rewrite !orb_true_iff, andb_true_iff, !N.eqb_eq, !N.leb_le. lia.
Qed.

Lemma count_none (q : ascii -> bool) (s : jsstring) :
  (forall c, In c s -> q c = false) -> count q s = 0.
Proof.
  unfold count. induction s as [|c s IH]; intros H; [reflexivity|].
  cbn [List.filter]. rewrite (H c (or_introl eq_refl)).
  apply IH. intros x Hx. apply H. right. exact Hx.
Qed.

Lemma phoneRe_inert (text : jsstring) :
  count isDigit text < 11 -> replaceAll phoneRe [] text = text.
Proof.
  intros H. apply (replaceFrom_inert isDigit); [reflexivity|].
  replace (minCount isDigit phoneRe) with 11 by (vm_compute; reflexivity). exact H.
Qed.

Lemma emailRe_inert (text : jsstring) :
  ~ In "@"%char text -> replaceAll emailRe [] text = text.
Proof.
  intros H. apply (replaceFrom_inert (Ascii.eqb "@"%char)); [reflexivity|].
  replace (minCount (Ascii.eqb "@"%char) emailRe) with 1 by (vm_compute; reflexivity).
  rewrite count_none; [lia|]. intros c Hc. apply Ascii.eqb_neq. congruence.
Qed.

(** X20.  [removeContactInfo] removes a phone number only when it has at
    least eleven digits.  A text with fewer than eleven digits and no at
    sign keeps every one of its digits, in order: a ten-digit number such
    as 555-123-4567 stays in the reply. *)
Theorem removeContactInfo_keeps_short_numbers (text : jsstring) :
  count isDigit text < 11 ->
  ~ In "@"%char text ->
  replaceAll phoneRe [] text = text
  /\ List.filter isDigit (removeContactInfo text) = List.filter isDigit text.
Proof.
  intros Hdigits Hat. split; [apply phoneRe_inert, Hdigits|].
  unfold removeContactInfo. cbv zeta.
  rewrite (phoneRe_inert text Hdigits), (emailRe_inert text Hat).
  rewrite (filter_trim isDigit _ isDigit_not_blank).
  rewrite (filter_dropSpacesBefore isDigit _ _ [] isDigit_not_blank (List.Forall_nil _)).
  unfold collapseSpaces. rewrite (filter_collapseFrom isDigit _ _ isDigit_not_blank).
  unfold replaceAll.
  rewrite (replaceFrom_deleting isDigit orYouCanCallRe _ eq_refl)
    by (vm_compute; reflexivity || constructor).
  rewrite (replaceFrom_deleting isDigit callUsRe _ eq_refl)
    by (vm_compute; reflexivity || constructor).
  reflexivity.
Qed.

Lemma removeContactInfo_keeps_short_numbers_witness :
  List.filter isDigit (removeContactInfo (str "Call us at 555-123-4567 today."))
  = str "5551234567".
Proof.
  apply (removeContactInfo_keeps_short_numbers (str "Call us at 555-123-4567 today.")).
  - vm_compute. lia.
  - vm_compute. intuition discriminate.
Defined.

Lemma startsWithBy_app (eqc : ascii -> ascii -> bool) (s t p : jsstring) :
  startsWithBy eqc s p = true -> startsWithBy eqc (s ++ t) p = true.
Proof.
  revert s; induction p as [|a p IH]; intros s; [reflexivity|].
  destruct s as [|c s]; [discriminate|]. cbn [startsWithBy app].
  intros H. apply andb_prop in H as [H1 H2]. rewrite H1, (IH s H2). reflexivity.
Qed.

Lemma includesBy_app_r (eqc : ascii -> ascii -> bool) (s after k : jsstring) :
  includesBy eqc s k = true -> includesBy eqc (s ++ after) k = true.
Proof.
  induction s as [|c s IH].
  - cbn [includesBy]. rewrite orb_false_r. intros H.
    destruct k as [|a k]; [destruct after; reflexivity | discriminate].
  - cbn [includesBy app]. intros H. apply orb_prop in H as [H|H].
    + change (c :: s ++ after) with ((c :: s) ++ after).
      rewrite (startsWithBy_app eqc _ after _ H). reflexivity.
    + rewrite (IH H). apply orb_true_r.
Qed.

Lemma mentions_infix (l w r : jsstring) (word : string) :
  mentions w word = true -> mentions (l ++ w ++ r) word = true.
Proof. intros H. apply includesBy_app_l, includesBy_app_r, H. Qed.

Lemma lang_literal (l w : jsstring) :
  lang (seqs (map (fun a => Chars (fun c => ciEqb c a)) l)) w ->
  startsWithBy ciEqb w l = true.
Proof.
  revert w; induction l as [|a l IH]; intros w.
  - cbn. intros ->. reflexivity.
  - destruct l as [|a' l].
    + cbn. intros (c & -> & Hc). rewrite Hc. reflexivity.
    + change (seqs (map (fun a => Chars (fun c => ciEqb c a)) (a :: a' :: l)))
        with (Seq (Chars (fun c => ciEqb c a))
                (seqs (map (fun a => Chars (fun c => ciEqb c a)) (a' :: l)))).
      cbn [lang]. intros (w1 & w2 & -> & (c & -> & Hc) & H2).
      cbn [app startsWithBy]. rewrite Hc. exact (IH _ H2).
Qed.

Lemma lang_lit (word : string) (w : jsstring) :
  lang (lit word) w -> mentions w word = true.
Proof.
  intros H. apply lang_literal in H. unfold mentions.
  destruct w; cbn [includesBy]; rewrite H; reflexivity.
Qed.

Lemma lang_seqs_In (r : Regex) (rs : list Regex) (w : jsstring) :
  In r rs -> lang (seqs rs) w -> exists l x t, w = l ++ x ++ t /\ lang r x.
Proof.
  revert w; induction rs as [|r0 rs IH]; intros w; [intros []|].
  destruct rs as [|r1 rs].
  - intros [<-|[]] H. exists [], w, []. rewrite app_nil_r. split; [reflexivity | exact H].
  - change (seqs (r0 :: r1 :: rs)) with (Seq r0 (seqs (r1 :: rs))).
    cbn [lang]. intros Hin (w1 & w2 & -> & H1 & H2). destruct Hin as [<-|Hin].
    + exists [], w1, w2. split; [reflexivity | exact H1].
    + destruct (IH w2 Hin H2) as (l & x & t & -> & Hx).
      exists (w1 ++ l), x, t. rewrite <- app_assoc. split; [reflexivity | exact Hx].
Qed.

(** A pattern all of whose words have a property that no part of the text
    has leaves the text as it is. *)
Lemma replaceFrom_without (has : jsstring -> bool) (regex : Regex)
    (replacement : list Piece) :
  wellFormed regex = true ->
  (forall w, lang regex w -> has w = true) ->
  (forall l w r, has w = true -> has (l ++ w ++ r) = true) ->
  forall s prev, has s = false -> replaceFrom regex replacement 0 prev s = s.
Proof.
  intros Hwf Hlang Hmono.
  assert (Hfound : forall prev s s' caps,
            has s = false ->
            matchRe regex prev s [] (fun _ s' caps => Some (s', caps))
            = Some (s', caps) -> False).
  { intros prev s s' caps Hs Hz.
    destruct (matchRe_found _ _ _ _ _ Hwf Hz) as (w & -> & Hw).
    pose proof (Hmono [] w s' (Hlang w Hw)) as H. cbn [app] in H. congruence. }
  induction s as [|c s IH]; intros prev Hs; cbn [replaceFrom].
  - destruct (matchRe regex prev [] [] _) as [[s' caps]|] eqn:Hz; [|reflexivity].
    exfalso. exact (Hfound _ _ _ _ Hs Hz).
  - destruct (matchRe regex prev (c :: s) [] _) as [[s' caps]|] eqn:Hz.
    + exfalso. exact (Hfound _ _ _ _ Hs Hz).
    + rewrite IH; [reflexivity|].
      destruct (has s) eqn:Hs'; [|reflexivity].
      pose proof (Hmono [c] s [] Hs') as H. rewrite app_nil_r in H.
      cbn [app] in H. congruence.
Qed.

Lemma pattern_needs_below (pattern : Regex * list Piece) (w : jsstring) :
  In pattern patterns -> lang (fst pattern) w -> mentions w "below" = true.
Proof.
  intros Hin Hw.
  assert (H : exists rs, fst pattern = seqs rs /\ In (lit "below") rs).
  { destruct Hin as [<-|[<-|[<-|[]]]]; cbn [fst]; eexists; (split; [reflexivity|]);
      repeat first [left; reflexivity | right]. }
  destruct H as (rs & Heq & Hbelow). rewrite Heq in Hw.
  destruct (lang_seqs_In _ _ _ Hbelow Hw) as (l & x & t & -> & Hx).
  apply mentions_infix, lang_lit, Hx.
Qed.

Lemma collapseFrom_clean (s : jsstring) :
  noPair twoBlanks s = true -> collapseFrom false s = s.
Proof.
  induction s as [|c s IH]; [reflexivity|]. rewrite noPair_cons. intros H.
  apply andb_prop in H as [Hc H]. cbn [collapseFrom].
  destruct (isWhiteSpace c) eqn:Hw; [|rewrite (IH H); reflexivity].
  destruct s as [|c2 s]; [reflexivity|].
  unfold twoBlanks in Hc. rewrite Hw in Hc. cbn [andb] in Hc.
  apply negb_true_iff in Hc. rewrite Hc, (IH H). reflexivity.
Qed.

Lemma dropSpacesBefore_clean (isMark : ascii -> bool) (s pending : jsstring) :
  Forall (fun c => isWhiteSpace c = true) pending ->
  noPair (blankBefore isMark) (pending ++ s) = true ->
  dropSpacesBefore isMark pending s = pending ++ s.
Proof.
  revert pending; induction s as [|c s IH]; intros pending Hp Hno.
  - cbn. rewrite app_nil_r. reflexivity.
  - cbn [dropSpacesBefore]. destruct (isWhiteSpace c) eqn:Hc.
    + rewrite IH.
      * rewrite <- app_assoc. reflexivity.
      * apply List.Forall_app. split; [exact Hp | repeat constructor; exact Hc].
      * rewrite <- app_assoc. exact Hno.
    + assert (Hrest : dropSpacesBefore isMark [] s = s).
      { apply (IH [] (List.Forall_nil _)).
        apply (noPair_app_r _ (pending ++ [c])). rewrite <- app_assoc. exact Hno. }
      rewrite Hrest. destruct (isMark c) eqn:Hm; [|reflexivity].
      destruct pending as [|d pending] using rev_ind; [reflexivity|]. exfalso.
      clear IHpending. apply List.Forall_app in Hp as [_ Hp].
      inversion Hp as [|? ? Hd _]; subst.
      rewrite <- app_assoc in Hno. apply noPair_app_r in Hno.
      cbn [app] in Hno. rewrite noPair_cons in Hno.
      apply andb_prop in Hno as [Hno _]. unfold blankBefore in Hno.
      rewrite Hd, Hm in Hno. discriminate.
Qed.

Lemma collapseDots_clean (s : jsstring) :
  noPair twoDots s = true -> collapseDots s = s.
Proof.
  induction s as [|c s IH]; [reflexivity|].
  destruct s as [|c2 s]; [reflexivity|]. intros H.
  change (collapseDots (c :: c2 :: s))
    with (if isDot c && isDot c2 then collapseDots (c2 :: s)
          else c :: collapseDots (c2 :: s)).
  rewrite noPair_cons in H. apply andb_prop in H as [Hc H].
  unfold twoDots in Hc. apply negb_true_iff in Hc. rewrite Hc, (IH H). reflexivity.
Qed.

(** X21.  A reply that does not hold the word below, in whatever case, goes
    through [fixButtonReferences] with no more than the clean-up of blanks
    and full stops: none of the three patterns can match.  When moreover it
    is clean already - no blank at either end, no two blanks in a row, no
    blank before a full stop, no two full stops in a row - it comes back
    unchanged. *)
Theorem fixButtonReferences_without_below (text : jsstring) :
  mentions text "below" = false ->
  fixButtonReferences text = cleanUpDots text
  /\ (isClean isDot text -> noPair twoDots text = true ->
      fixButtonReferences text = text).
Proof.
  intros Hno.
  assert (Hpatterns : forall ps,
            (forall p, In p ps -> In p patterns) ->
            fold_left (fun fixed pattern =>
                         replaceAll (fst pattern) (snd pattern) fixed) ps text
            = text).
  { induction ps as [|p ps IH]; intros Hin; [reflexivity|].
    cbn [fold_left]. unfold replaceAll at 2.
    rewrite (replaceFrom_without (fun s => mentions s "below") (fst p) (snd p)).
    - apply IH. intros p' Hp'. apply Hin. right. exact Hp'.
    - assert (Hall : forallb (fun p => wellFormed (fst p)) patterns = true)
        by (vm_compute; reflexivity).
      apply (proj1 (forallb_forall _ _) Hall p), Hin. left. reflexivity.
    - intros w. apply pattern_needs_below, Hin. left. reflexivity.
    - intros l w r. apply mentions_infix.
    - exact Hno. }
  assert (Heq : fixButtonReferences text = cleanUpDots text).
  { unfold fixButtonReferences. destruct text as [|c0 t0]; [reflexivity|].
    cbv zeta. rewrite (Hpatterns patterns (fun p H => H)). reflexivity. }
  split; [exact Heq|]. intros (Htrim & Hblanks & Hbefore) Hdots.
  rewrite Heq. unfold cleanUpDots, collapseSpaces.
  rewrite (collapseFrom_clean text Hblanks).
  rewrite (dropSpacesBefore_clean isDot text [] (List.Forall_nil _) Hbefore).
  cbn [app]. rewrite (collapseDots_clean text Hdots). apply isTrimmed_trim, Htrim.
Qed.

Lemma fixButtonReferences_without_below_witness :
  fixButtonReferences (lines ["We cover  stadiums ."; ""; "1. Design"])
  = cleanUpDots (lines ["We cover  stadiums ."; ""; "1. Design"]).
Proof.
  apply (fixButtonReferences_without_below
           (lines ["We cover  stadiums ."; ""; "1. Design"])).
  vm_compute. reflexivity.
Defined.

Lemma callUsRe_needs_word (w : jsstring) :
  lang callUsRe w -> mentions w "call" || mentions w "phone" = true.
Proof.
  intros Hw.
  assert (Hin : exists rs, callUsRe = seqs rs
                           /\ In (Group 1 (Alt (lit "call") (lit "phone"))) rs).
  { eexists. split; [reflexivity|]. right. left. reflexivity. }
  destruct Hin as (rs & Heq & Hin). rewrite Heq in Hw.
  destruct (lang_seqs_In _ _ _ Hin Hw) as (l & x & t & -> & Hx).
  cbn [lang] in Hx. apply orb_true_iff.
  destruct Hx as [Hx|Hx]; [left|right]; apply mentions_infix, lang_lit, Hx.
Qed.

Lemma orYouCanCallRe_needs_word (w : jsstring) :
  lang orYouCanCallRe w -> mentions w "call" = true.
Proof.
  intros Hw.
  assert (Hin : exists rs, orYouCanCallRe = seqs rs /\ In (lit "call") rs).
  { eexists. split; [reflexivity|]. repeat first [left; reflexivity | right]. }
  destruct Hin as (rs & Heq & Hin). rewrite Heq in Hw.
  destruct (lang_seqs_In _ _ _ Hin Hw) as (l & x & t & -> & Hx).
  apply mentions_infix, lang_lit, Hx.
Qed.

(** X22.  A text with fewer than eleven digits, no at sign, and neither
    the word call nor the word phone, in whatever case, goes through
    [removeContactInfo] with no more than the clean-up of blanks before
    punctuation: none of its four patterns can match.  When it is clean
    already it comes back unchanged. *)
Theorem removeContactInfo_without_contact_words (text : jsstring) :
  count isDigit text < 11 ->
  ~ In "@"%char text ->
  mentions text "call" = false ->
  mentions text "phone" = false ->
  removeContactInfo text = cleanUpPunctuation text
  /\ (isClean isPunctuation text -> removeContactInfo text = text).
Proof.
  intros Hdigits Hat Hcall Hphone.
  assert (Heq : removeContactInfo text = cleanUpPunctuation text).
  { unfold removeContactInfo. cbv zeta.
    rewrite (phoneRe_inert text Hdigits), (emailRe_inert text Hat).
    unfold replaceAll.
    rewrite (replaceFrom_without
               (fun s => mentions s "call" || mentions s "phone") callUsRe []
               eq_refl callUsRe_needs_word).
    - rewrite (replaceFrom_without (fun s => mentions s "call") orYouCanCallRe []
                 eq_refl orYouCanCallRe_needs_word).
      + reflexivity.
      + intros l w r. apply mentions_infix.
      + exact Hcall.
    - intros l w r H. apply orb_true_iff. apply orb_true_iff in H.
      destruct H as [H|H]; [left|right]; apply mentions_infix, H.
    - cbv beta. rewrite Hcall, Hphone. reflexivity. }
  split; [exact Heq|]. intros (Htrim & Hblanks & Hbefore).
  rewrite Heq. unfold cleanUpPunctuation, collapseSpaces.
  rewrite (collapseFrom_clean text Hblanks).
  rewrite (dropSpacesBefore_clean isPunctuation text [] (List.Forall_nil _) Hbefore).
  cbn [app]. apply isTrimmed_trim, Htrim.
Qed.

Lemma removeContactInfo_without_contact_words_witness :
  removeContactInfo (str "We cover 12 stadiums , all indoors.")
  = cleanUpPunctuation (str "We cover 12 stadiums , all indoors.").
Proof.
  apply (removeContactInfo_without_contact_words
           (str "We cover 12 stadiums , all indoors.")).
  - vm_compute. lia.
  - vm_compute. intuition discriminate.
  - vm_compute. reflexivity.
  - vm_compute. reflexivity.
Defined.

(** ** The fallback environment loader *)

Lemma indexOf_split (a : ascii) (s : jsstring) (idx : nat) :
  indexOf a s = Some idx ->
  s = firstn idx s ++ a :: skipn (S idx) s /\ ~ In a (firstn idx s).
Proof.
  revert idx; induction s as [|c s IH]; intros idx; [discriminate|].
  cbn [indexOf]. destruct (Ascii.eqb c a) eqn:Hc.
  - intros [= <-]. apply Ascii.eqb_eq in Hc. subst c. split; [reflexivity | intros []].
  - destruct (indexOf a s) as [i|]; [|discriminate]. intros [= <-].
    destruct (IH i eq_refl) as [Hs Hnot]. cbn [firstn skipn app]. split.
    + cbn [skipn] in Hs. rewrite <- Hs. reflexivity.
    + intros [->|Hin]; [|exact (Hnot Hin)]. rewrite Ascii.eqb_refl in Hc. discriminate.
Qed.

Lemma loadLine_keeps (env : gmap string jsstring) (line : jsstring) (key : string) :
  isSet env key = true ->
  loadLine env line !! key = env !! key /\ isSet (loadLine env line) key = true.
Proof.
  assert (Hsame : loadLine env line = env
                  \/ exists key' val, isSet env key' = false
                                      /\ loadLine env line = <[key' := val]> env).
  { unfold loadLine. destruct (_ || _); [left; reflexivity|].
    destruct (indexOf _ _) as [idx|]; [|left; reflexivity].
    destruct (0 <? idx); [|left; reflexivity]. cbv zeta.
    destruct (isSet env _) eqn:Hk; [left; reflexivity|].
    right. eexists _, _. split; [exact Hk | reflexivity]. }
  intros Hset.
  destruct Hsame as [->|(key' & val & Hk & ->)]; [split; [reflexivity | exact Hset]|].
  assert (Hne : key' <> key) by (intros ->; congruence).
  unfold isSet. rewrite lookup_insert_ne by exact Hne.
  split; [reflexivity | exact Hset].
Qed.

Lemma loadLines_keep (ls : list jsstring) (env : gmap string jsstring) (key : string) :
  isSet env key = true -> fold_left loadLine ls env !! key = env !! key.
Proof.
  revert env; induction ls as [|line ls IH]; intros env Hset; [reflexivity|].
  cbn [fold_left]. destruct (loadLine_keeps env line key Hset) as [Heq Hset'].
  rewrite (IH _ Hset'). exact Heq.
Qed.

Lemma loadLine_origin (env : gmap string jsstring) (line : jsstring)
    (key : string) (val : jsstring) :
  loadLine env line !! key = Some val ->
  env !! key = Some val \/ (isSet env key = false /\ defines line key val).
Proof.
  unfold loadLine. destruct (negb (truthy (trim line)) || _) eqn:Hskip; [auto|].
  destruct (indexOf "="%char (trim line)) as [idx|] eqn:Hidx; [|auto].
  destruct (0 <? idx) eqn:Hpos; [|auto]. cbv zeta.
  destruct (isSet env _) eqn:Hk; [auto|].
  destruct (decide (string_of_list_ascii (firstn idx (trim line)) = key)) as [Heq|Hne].
  - rewrite Heq, lookup_insert_eq. intros [= <-]. right.
    rewrite Heq in Hk. split; [exact Hk|].
    destruct (indexOf_split _ _ _ Hidx) as [Hs Hnot].
    assert (Hkey : str key = firstn idx (trim line)).
    { rewrite <- Heq. apply list_ascii_of_string_of_list_ascii. }
    apply orb_false_iff in Hskip as [_ Hhash]. apply Nat.ltb_lt in Hpos.
    unfold defines. rewrite Hkey. repeat split; [exact Hs | | exact Hnot | exact Hhash].
    intros ->. cbn in Hkey. destruct (trim line); [discriminate|].
    destruct idx; [lia | discriminate].
  - rewrite lookup_insert_ne by exact Hne. auto.
Qed.

Lemma loadLines_origin (ls : list jsstring) (env : gmap string jsstring)
    (key : string) (val : jsstring) :
  fold_left loadLine ls env !! key = Some val ->
  env !! key = Some val
  \/ (isSet env key = false /\ exists line, In line ls /\ defines line key val).
Proof.
  revert env; induction ls as [|line ls IH]; intros env; [auto|].
  cbn [fold_left]. intros H. destruct (IH _ H) as [H1|[Hk (line' & Hin & Hd)]].
  - destruct (loadLine_origin _ _ _ _ H1) as [H0|[Hk Hd]]; [auto|].
    right. split; [exact Hk|]. exists line. split; [left; reflexivity | exact Hd].
  - right. split.
    + destruct (isSet env key) eqn:Hset; [|reflexivity].
      destruct (loadLine_keeps env line key Hset) as [_ Hset']. congruence.
    + exists line'. split; [right; exact Hin | exact Hd].
Qed.

(** X23.  The fallback loader of [.env] never changes a variable that is
    set to a non-empty value, and does nothing at all when OPENAI_API_KEY is
    set or the file is missing.  Every variable it does define was unset or
    empty before and comes from a line of the file which, once trimmed, is
    the name, an equals sign and the value, with a non-empty name that holds
    no equals sign and no leading hash: blank lines and comments define
    nothing. *)
Theorem loadEnvFallback_sound (file : option jsstring)
    (env : gmap string jsstring) :
  (forall key, isSet env key = true -> loadEnvFallback file env !! key = env !! key)
  /\ (isSet env "OPENAI_API_KEY" = true \/ file = None ->
      loadEnvFallback file env = env)
  /\ (forall key val,
        loadEnvFallback file env !! key = Some val ->
        env !! key = Some val
        \/ (isSet env key = false
            /\ exists content line,
                 file = Some content /\ In line (splitLines content)
                 /\ defines line key val)).
Proof.
  unfold loadEnvFallback. repeat split.
  - intros key Hset. destruct (isSet env "OPENAI_API_KEY"); [reflexivity|].
    destruct file as [content|]; [|reflexivity]. apply loadLines_keep, Hset.
  - intros [->| ->]; [reflexivity|]. destruct (isSet env _); reflexivity.
  - intros key val. destruct (isSet env "OPENAI_API_KEY"); [auto|].
    destruct file as [content|]; [|auto]. intros H.
    destruct (loadLines_origin _ _ _ _ H) as [H0|[Hk (line & Hin & Hd)]]; [auto|].
    right. split; [exact Hk|]. exists content, line. auto.
Qed.

Lemma loadEnvFallback_sound_witness :
  loadEnvFallback
    (Some (lines ["# keys"; "PORT=8080"; " OPENAI_API_KEY=sk-test "; "PORT=1"]))
    {[ "PORT"%string := str "3000" ]} !! "PORT"%string
  = Some (str "3000").
Proof.
  rewrite (proj1 (loadEnvFallback_sound
                    (Some (lines ["# keys"; "PORT=8080";
                                  " OPENAI_API_KEY=sk-test "; "PORT=1"]))
                    {[ "PORT"%string := str "3000" ]}) "PORT"%string);
    vm_compute; reflexivity.
Defined.

(** ** Rendering plain paragraphs *)

Lemma boldLoop_no_star (fuel : nat) (s : jsstring) :
  ~ In "*"%char s -> boldLoop fuel s = s.
Proof.
  revert s; induction fuel as [|fuel IH]; intros s Hs; [reflexivity|].
  destruct s as [|c s]; [reflexivity|]. cbn [boldLoop].
  assert (Hc : Ascii.eqb c "*"%char = false).
  { apply Ascii.eqb_neq. intros ->. apply Hs. left. reflexivity. }
  assert (Hstart : startsWith (c :: s) (str "**") = false).
  { unfold startsWith. cbn [str list_ascii_of_string startsWithBy]. rewrite Hc. reflexivity. }
  rewrite Hstart, IH; [reflexivity|]. intros Hin. apply Hs. right. exact Hin.
Qed.

Lemma In_escapeHtml (x : ascii) (s : jsstring) :
  In x (escapeHtml s) -> In x s \/ In x (str "&amp;nbsp;lt;gt;").
Proof.
  unfold escapeHtml. intros H. apply in_flat_map in H as (c & Hc & Hx).
  unfold escapeChar in Hx.
  destruct (Ascii.eqb c "&"); [right; cbn in *; tauto|].
  destruct (Ascii.eqb c NBSP); [right; cbn in *; tauto|].
  destruct (Ascii.eqb c "<"); [right; cbn in *; tauto|].
  destruct (Ascii.eqb c ">"); [right; cbn in *; tauto|].
  destruct Hx as [<-|[]]. left. exact Hc.
Qed.

Lemma escapeHtml_no_star (s : jsstring) :
  ~ In "*"%char s -> ~ In "*"%char (escapeHtml s).
Proof.
  intros Hs Hin. apply In_escapeHtml in Hin as [Hin|Hin]; [exact (Hs Hin)|].
  cbn in Hin. intuition discriminate.
Qed.

Lemma escapeHtml_no_lt (s : jsstring) : ~ In "<"%char (escapeHtml s).
Proof.
  unfold escapeHtml. intros H. apply in_flat_map in H as (c & Hc & Hx).
  unfold escapeChar in Hx.
  destruct (Ascii.eqb c "&"); [cbn in Hx; intuition discriminate|].
  destruct (Ascii.eqb c NBSP); [cbn in Hx; intuition discriminate|].
  destruct (Ascii.eqb c "<") eqn:Hlt; [cbn in Hx; intuition discriminate|].
  destruct (Ascii.eqb c ">"); [cbn in Hx; intuition discriminate|].
  destruct Hx as [->|[]]. rewrite Ascii.eqb_refl in Hlt. discriminate.
Qed.

Lemma no_lt_no_list (s : jsstring) : ~ In "<"%char s -> mentionsList s = false.
Proof.
  intros Hs. unfold mentionsList.
  destruct (includes s (str "<ol>")) eqn:H1.
  { exfalso. apply includes_spec in H1 as (b & a & ->). apply Hs.
    apply in_or_app. right. left. reflexivity. }
  destruct (includes s (str "<ul>")) eqn:H2; [|reflexivity].
  exfalso. apply includes_spec in H2 as (b & a & ->). apply Hs.
  apply in_or_app. right. left. reflexivity.
Qed.

Lemma trim_not_nil (x : ascii) (rest : jsstring) :
  isWhiteSpace x = false -> trim (x :: rest) <> [].
Proof.
  intros Hx Hnil. unfold trim, trimStart in Hnil.
  rewrite dropWhile_fixed in Hnil by exact Hx.
  destruct (trimEnd_blanks (x :: rest)) as (blanks & Hb & Hblank).
  rewrite Hnil in Hb. cbn [app] in Hb. subst blanks.
  inversion Hblank as [|? ? Hw _]; subst. congruence.
Qed.

Lemma escaped_line_kept (l : jsstring) :
  trim l <> [] -> truthy (trim (escapeHtml (trim l))) = true.
Proof.
  intros Hne. pose proof (trim_isTrimmed l) as Ht. unfold isTrimmed in Ht.
  destruct (trim l) as [|c r]; [congruence|].
  destruct (rev (c :: r)) as [|d r']; [discriminate|]. destruct Ht as [Hc _].
  change (escapeHtml (c :: r)) with (escapeChar c ++ escapeHtml r).
  assert (H : exists x rest, escapeChar c ++ escapeHtml r = x :: rest
                             /\ isWhiteSpace x = false).
  { unfold escapeChar.
    destruct (Ascii.eqb c "&"); [eexists _, _; split; reflexivity|].
    destruct (Ascii.eqb c NBSP); [eexists _, _; split; reflexivity|].
    destruct (Ascii.eqb c "<"); [eexists _, _; split; reflexivity|].
    destruct (Ascii.eqb c ">"); [eexists _, _; split; reflexivity|].
    eexists _, _. split; [reflexivity | exact Hc]. }
  destruct H as (x & rest & -> & Hx).
  pose proof (trim_not_nil x rest Hx) as Hnil.
  destruct (trim (x :: rest)); [congruence | reflexivity].
Qed.

Lemma renderLines_plain (ls res : list jsstring) :
  Forall isPlainLine ls ->
  fold_left renderLine ls {| result := res; currentList := None; listItems := [] |}
  = {| result := res ++ flat_map (fun l => match trim l with
                                           | [] => []
                                           | _ :: _ => [escapeHtml (trim l)]
                                           end) ls;
       currentList := None; listItems := [] |}.
Proof.
  intros Hall. revert res; induction Hall as [|l ls (Hn & Hb & Hstar) _ IH]; intros res.
  - cbn. rewrite app_nil_r. reflexivity.
  - cbn [fold_left flat_map]. unfold renderLine at 2. rewrite Hn, Hb.
    unfold closeCurrentList. cbn [currentList listItems result].
    destruct (trim l) as [|c r] eqn:Ht.
    + rewrite IH. reflexivity.
    + cbn [result currentList listItems]. rewrite IH, <- app_assoc.
      unfold replaceBold. rewrite boldLoop_no_star; [reflexivity|].
      apply escapeHtml_no_star. rewrite <- Ht. intros Hin. apply Hstar.
      exact (In_trim _ _ Hin).
Qed.

Lemma spaceAfterLists_none (ls : list jsstring) (prev : option jsstring) :
  match prev with Some p => mentionsList p = false | None => True end ->
  Forall (fun line => mentionsList line = false) ls ->
  spaceAfterLists prev ls = ls.
Proof.
  intros Hprev Hall. revert prev Hprev.
  induction Hall as [|line ls Hline _ IH]; intros prev Hprev; [reflexivity|].
  cbn [spaceAfterLists]. rewrite (IH (Some line) Hline).
  destruct prev as [p|]; [|reflexivity].
  rewrite Hprev, andb_false_r. reflexivity.
Qed.

Lemma joinWith_nil (ls : list jsstring) : joinWith [] ls = concat ls.
Proof.
  induction ls as [|l ls IH]; [reflexivity|].
  destruct ls as [|l' ls]; [cbn; rewrite app_nil_r; reflexivity|].
  change (joinWith [] (l :: l' :: ls)) with (l ++ [] ++ joinWith [] (l' :: ls)).
  rewrite IH. reflexivity.
Qed.

(** X24.  A text none of whose lines is a list item or holds a star is
    rendered as one paragraph element that holds its lines, each trimmed and
    escaped, one directly after the other: the line breaks between them are
    dropped, not replaced.  When every line is blank the rendering is
    empty. *)
Theorem markdownToHTML_plain_lines (text : jsstring) :
  Forall isPlainLine (splitLines text) ->
  markdownToHTML text
  = paragraph (concat (map (fun l => escapeHtml (trim l)) (splitLines text))).
Proof.
  intros Hplain. unfold markdownToHTML. destruct text as [|c0 t0]; [reflexivity|].
  generalize dependent (splitLines (c0 :: t0)). intros ls Hplain. cbv zeta.
  rewrite (renderLines_plain ls [] Hplain). cbn [app].
  unfold closeCurrentList. cbn [currentList listItems result].
  set (pieces := flat_map _ ls).
  assert (Hpieces : Forall (fun p => truthy (trim p) = true /\ ~ In "<"%char p) pieces).
  { apply List.Forall_forall. intros p Hp. apply in_flat_map in Hp as (l & _ & Hp).
    destruct (trim l) as [|c r] eqn:Ht; [destruct Hp|].
    destruct Hp as [<-|[]]. rewrite <- Ht. split.
    - apply escaped_line_kept. rewrite Ht. discriminate.
    - apply escapeHtml_no_lt. }
  assert (Hkept : List.filter (fun line => truthy (trim line)) pieces = pieces).
  { clear -Hpieces. induction Hpieces as [|p ps [Hp _] _ IH]; [reflexivity|].
    cbn [List.filter]. rewrite Hp, IH. reflexivity. }
  rewrite Hkept, spaceAfterLists_none.
  2:{ exact I. }
  2:{ apply List.Forall_forall. intros p Hp. apply no_lt_no_list.
      exact (proj2 (proj1 (List.Forall_forall _ _) Hpieces p Hp)). }
  rewrite joinWith_nil.
  assert (Hbody : concat pieces = concat (map (fun l => escapeHtml (trim l)) ls)).
  { unfold pieces. clear. induction ls as [|l ls IH]; [reflexivity|].
    cbn [flat_map map concat]. rewrite concat_app, IH.
    destruct (trim l); [reflexivity|]. cbn [concat]. rewrite app_nil_r. reflexivity. }
  assert (Hlt : ~ In "<"%char (concat pieces)).
  { intros Hin. apply in_concat in Hin as (p & Hp & Hin).
    exact (proj2 (proj1 (List.Forall_forall _ _) Hpieces p Hp) Hin). }
  pose proof (no_lt_no_list _ Hlt) as Hlist. unfold mentionsList in Hlist.
  apply orb_false_iff in Hlist as [Hol Hul]. rewrite Hol, Hul, <- Hbody.
  destruct (concat pieces); reflexivity.
Qed.

Lemma not_In_existsb (a : ascii) (s : jsstring) :
  existsb (Ascii.eqb a) s = false -> ~ In a s.
Proof.
  intros H Hin. assert (Ht : existsb (Ascii.eqb a) s = true).
  { apply existsb_exists. exists a. split; [exact Hin | apply Ascii.eqb_refl]. }
  congruence.
Qed.

Lemma markdownToHTML_plain_lines_witness :
  markdownToHTML (lines ["Hello <b>"; ""; "  world "])
  = str "<p>Hello &lt;b&gt;world</p>".
Proof.
  apply (markdownToHTML_plain_lines (lines ["Hello <b>"; ""; "  world "])).
  replace (splitLines (lines ["Hello <b>"; ""; "  world "]))
    with [str "Hello <b>"; str ""; str "  world "] by (vm_compute; reflexivity).
  repeat constructor; apply not_In_existsb; reflexivity.
Defined.

(** ** The rendering is well-formed markup *)

Lemma escapeHtml_escaped (s : jsstring) : escapedText (escapeHtml s).
Proof.
  induction s as [|x s IH]; [constructor|].
  change (escapeHtml (x :: s)) with (escapeChar x ++ escapeHtml s).
  destruct (escapeChar_cases x) as [He | [Hx Hplain]].
  - apply escaped_entity; assumption.
  - rewrite Hx. apply escaped_char; assumption.
Qed.

Lemma boldLoop_inline (fuel : nat) (s : jsstring) :
  length (escapeHtml s) <= fuel -> inlineMarkup (boldLoop fuel (escapeHtml s)).
Proof.
  revert s. induction fuel as [fuel IH] using lt_wf_ind. intros s Hlen.
  destruct s as [|x s].
  - destruct fuel; constructor.
  - change (escapeHtml (x :: s)) with (escapeChar x ++ escapeHtml s) in *.
    destruct (escapeChar_cases x) as [He | [Hx Hplain]].
    + destruct (boldLoop_entity _ (escapeHtml s) fuel He Hlen)
        as (fuel' & Hle & Hlt & ->).
      apply inline_entity; [exact He | exact (IH fuel' Hlt s Hle)].
    + rewrite Hx in *. cbn [app] in *.
      destruct fuel as [|fuel]; [simpl in Hlen; lia|].
      assert (Hskip : inlineMarkup (x :: boldLoop fuel (escapeHtml s))).
      { apply inline_char; [exact Hplain|].
        apply (IH fuel (Nat.lt_succ_diag_r _) s). simpl in Hlen. lia. }
      cbn [boldLoop].
      destruct (startsWith (x :: escapeHtml s) (str "**")) eqn:Hstart; [|exact Hskip].
      apply startsWith_spec in Hstart as [s2 Hs2].
      cbn [str list_ascii_of_string app] in Hs2. injection Hs2 as -> Hs2.
      rewrite Hs2 in *.
      change (skipn 2 ("*"%char :: "*"%char :: s2)) with s2.
      destruct (findClose s2) as [[inner after]|] eqn:Hclose; [|exact Hskip].
      apply findClose_split in Hclose. subst s2.
      destruct (escapeHtml_split_star s [] _ Hs2) as (s1 & t1 & -> & Hs1 & Ht1).
      symmetry in Hs1. apply escapeHtml_nil in Hs1. subst s1.
      symmetry in Ht1.
      destruct (escapeHtml_split_star t1 inner _ Ht1) as (i1 & t2 & -> & -> & Ht2).
      symmetry in Ht2.
      destruct (escapeHtml_split_star t2 [] _ Ht2) as (s3 & t3 & -> & Hs3 & ->).
      symmetry in Hs3. apply escapeHtml_nil in Hs3. subst s3.
      apply inline_strong; [apply escapeHtml_escaped|].
      apply (IH fuel (Nat.lt_succ_diag_r _) t3).
      simpl in Hlen. rewrite length_app in Hlen. simpl in Hlen. lia.
Qed.

Lemma replaceBold_inline (s : jsstring) : inlineMarkup (replaceBold (escapeHtml s)).
Proof. apply boldLoop_inline. reflexivity. Qed.

Lemma listItem_isItem (text : jsstring) : isItem (listItem text).
Proof.
  exists (replaceBold (escapeHtml text)). split; [apply replaceBold_inline | reflexivity].
Qed.

Lemma inline_app (a b : jsstring) :
  inlineMarkup a -> inlineMarkup b -> inlineMarkup (a ++ b).
Proof.
  intros Ha Hb. induction Ha as [|c s Hc _ IH|e s He _ IH|inner s Hi _ IH|s _ IH].
  - exact Hb.
  - apply inline_char; assumption.
  - rewrite <- app_assoc. apply inline_entity; assumption.
  - repeat rewrite <- app_assoc. rewrite (app_assoc (str "<strong>")).
    change (str "<strong>" ++ inner ++ str "</strong>" ++ s ++ b)
      with (str "<strong>" ++ inner ++ str "</strong>" ++ (s ++ b)) in *.
    rewrite <- app_assoc. apply inline_strong; assumption.
  - rewrite <- app_assoc. apply inline_br. exact IH.
Qed.

Lemma closeCurrentList_wellFormed (st : RenderState) :
  stateWellFormed st -> stateWellFormed (closeCurrentList st).
Proof.
  unfold stateWellFormed, closeCurrentList. intros [Hres Hitems].
  destruct (currentList st) as [k|]; [|split; assumption].
  destruct (listItems st) as [|item items] eqn:Hl; cbn [result listItems];
    [split; assumption|].
  split; [|constructor]. apply List.Forall_app. split; [exact Hres|].
  constructor; [|constructor]. right. exists k, (item :: items).
  split; [discriminate|]. split; [exact Hitems|]. rewrite joinWith_nil. reflexivity.
Qed.

Lemma pushItem_wellFormed (k : ListKind) (text : jsstring) (st : RenderState) :
  stateWellFormed st -> stateWellFormed (pushItem k text st).
Proof.
  intros Hst. unfold pushItem.
  assert (Hpush : forall st', stateWellFormed st' ->
            stateWellFormed
              {| result := result st'; currentList := currentList st';
                 listItems := listItems st' ++ [listItem text] |}).
  { intros st' [Hres Hitems]. split; [exact Hres|]. cbn [listItems].
    apply List.Forall_app. split; [exact Hitems|].
    constructor; [|constructor]. apply listItem_isItem. }
  destruct (isCurrent k st); [exact (Hpush st Hst)|].
  apply Hpush. destruct (closeCurrentList_wellFormed st Hst) as [Hres Hitems].
  split; assumption.
Qed.

Lemma renderLine_wellFormed (st : RenderState) (line : jsstring) :
  stateWellFormed st -> stateWellFormed (renderLine st line).
Proof.
  intros Hst. unfold renderLine.
  destruct (numberedMatch (trim line)); [apply pushItem_wellFormed, Hst|].
  destruct (bulletMatch (trim line)); [apply pushItem_wellFormed, Hst|].
  pose proof (closeCurrentList_wellFormed st Hst) as [Hres Hitems].
  destruct (trim line) as [|c r]; [split; assumption|].
  split; [|exact Hitems]. cbn [result].
  apply List.Forall_app. split; [exact Hres|].
  constructor; [|constructor]. left. apply replaceBold_inline.
Qed.

Lemma renderLines_wellFormed (ls : list jsstring) (st : RenderState) :
  stateWellFormed st -> stateWellFormed (fold_left renderLine ls st).
Proof.
  revert st; induction ls as [|l ls IH]; intros st Hst; [exact Hst|].
  cbn [fold_left]. apply IH, renderLine_wellFormed, Hst.
Qed.

Lemma listElement_starts (p : jsstring) :
  isListElement p -> startsWith p (str "<") = true /\ mentionsList p = true.
Proof.
  intros (k & items & _ & _ & ->). unfold mentionsList. destruct k.
  - split; [reflexivity|]. apply orb_true_iff. left.
    apply includes_spec. exists [], (concat items ++ closeTag (tagName ol)). reflexivity.
  - split; [reflexivity|]. apply orb_true_iff. right.
    apply includes_spec. exists [], (concat items ++ closeTag (tagName ul)). reflexivity.
Qed.

Lemma spaceAfterLists_blocks (blocks : list jsstring) (prev : option jsstring) :
  Forall isBlock blocks -> Forall isBlock (spaceAfterLists prev blocks).
Proof.
  intros H. revert prev; induction H as [|p ps Hp _ IH]; intros prev; [constructor|].
  cbn [spaceAfterLists]. constructor; [|apply IH].
  destruct prev as [q|]; [|exact Hp].
  destruct (truthy q && mentionsList q && truthy p) ; [|exact Hp].
  destruct (startsWith p (str "<")) eqn:Hstart; [exact Hp|]. cbn [negb andb].
  destruct Hp as [Hp|Hp]; [left; apply inline_br, Hp|].
  apply listElement_starts in Hp as [Hp _]. congruence.
Qed.

Lemma mentionsList_concat (p : jsstring) (ps : list jsstring) :
  In p ps -> mentionsList p = true -> mentionsList (concat ps) = true.
Proof.
  intros Hin Hp. apply in_split in Hin as (before & after & ->).
  rewrite concat_app. cbn [concat]. unfold mentionsList in *.
  apply orb_true_iff. apply orb_true_iff in Hp.
  destruct Hp as [Hp|Hp]; [left|right];
    apply includes_spec in Hp as (b & a & ->); apply includes_spec;
    exists (concat before ++ b), (a ++ concat after);
    repeat rewrite <- app_assoc; reflexivity.
Qed.

Lemma inline_concat (ps : list jsstring) :
  Forall inlineMarkup ps -> inlineMarkup (concat ps).
Proof.
  induction 1 as [|p ps Hp _ IH]; [constructor|].
  cbn [concat]. apply inline_app; assumption.
Qed.

(** X25.  Whatever the text, the rendering is well-formed markup: either
    one paragraph element around inline markup - escaped text, [strong]
    elements around escaped text, line breaks - or a sequence of inline runs
    and of list elements, each list a non-empty run of [li] elements around
    inline markup.  Every element the renderer opens it closes, in the right
    order; an unfinished bold marker or list leaves no open tag. *)
Theorem markdownToHTML_well_formed (text : jsstring) :
  wellFormedMarkup (markdownToHTML text).
Proof.
  unfold markdownToHTML. destruct text as [|c0 t0].
  { left. exists []. split; [constructor | reflexivity]. }
  cbv zeta.
  set (st := closeCurrentList (fold_left renderLine _ _)).
  assert (Hst : stateWellFormed st).
  { apply closeCurrentList_wellFormed, renderLines_wellFormed.
    split; constructor. }
  destruct Hst as [Hres _].
  set (kept := List.filter _ (result st)).
  assert (Hkept : Forall isBlock kept).
  { apply List.Forall_forall. intros p Hp. apply filter_In in Hp as [Hp _].
    exact (proj1 (List.Forall_forall _ _) Hres p Hp). }
  pose proof (spaceAfterLists_blocks kept None Hkept) as Hblocks.
  rewrite joinWith_nil.
  set (blocks := spaceAfterLists None kept) in *.
  destruct (truthy (concat blocks) && negb (includes (concat blocks) (str "<ol>"))
            && negb (includes (concat blocks) (str "<ul>"))) eqn:Hcond.
  - left. exists (concat blocks). split.
    + apply inline_concat, List.Forall_forall. intros p Hp.
      destruct (proj1 (List.Forall_forall _ _) Hblocks p Hp) as [Hi|Hl]; [exact Hi|].
      exfalso. apply listElement_starts in Hl as [_ Hl].
      pose proof (mentionsList_concat p blocks Hp Hl) as Hm.
      unfold mentionsList in Hm.
      apply andb_prop in Hcond as [Hcond Hul]. apply andb_prop in Hcond as [_ Hol].
      apply negb_true_iff in Hol, Hul. rewrite Hol, Hul in Hm. discriminate.
    + apply andb_prop in Hcond as [Hcond _]. apply andb_prop in Hcond as [Hne _].
      destruct (concat blocks); [discriminate | reflexivity].
  - right. exists blocks. split; [exact Hblocks | reflexivity].
Qed.

(** ** The repeated-question check, in the specification's words *)

Lemma lowerChar_blank (c : ascii) : isWhiteSpace (lowerChar c) = isWhiteSpace c.
Proof. destruct c as [[] [] [] [] [] [] [] []]; vm_compute; reflexivity. Qed.

Lemma lower_dropWhile (s : jsstring) :
  dropWhile isWhiteSpace (map lowerChar s) = map lowerChar (dropWhile isWhiteSpace s).
Proof.
  induction s as [|c s IH]; [reflexivity|]. cbn [map dropWhile].
  rewrite lowerChar_blank. destruct (isWhiteSpace c); [exact IH | reflexivity].
Qed.

Lemma toLowerCase_trim (s : jsstring) : trim (toLowerCase s) = toLowerCase (trim s).
Proof.
  unfold trim, trimStart, trimEnd, toLowerCase.
  rewrite lower_dropWhile, <- map_rev, lower_dropWhile, map_rev. reflexivity.
Qed.

Lemma coreOf_trim (s : jsstring) : coreOf s (trim s).
Proof.
  destruct (trimEnd_blanks (trimStart s)) as (blanks & Hb & Hblank).
  exists (takeWhile isWhiteSpace s), blanks.
  split; [|split; [apply takeWhile_Forall | split; [exact Hblank | apply trim_isTrimmed]]].
  unfold trim. rewrite <- Hb. unfold trimStart.
  symmetry. apply takeWhile_dropWhile.
Qed.


Lemma coreOf_unique (s core : jsstring) : coreOf s core -> trim s = core.
Proof.
  intros (l & r & -> & Hl & Hr & Hcore).
  destruct core as [|c t].
  - apply trim_all_blank. apply List.Forall_app. split; assumption.
  - unfold isTrimmed in Hcore.
    destruct (rev (c :: t)) as [|d t'] eqn:Hrev; [discriminate|].
    destruct Hcore as [Hc Hd].
    unfold trim, trimStart. cbn [app].
    rewrite (dropWhile_app_stop isWhiteSpace l c (t ++ r) Hl Hc).
    unfold trimEnd.
    change (c :: t ++ r) with ((c :: t) ++ r).
    rewrite rev_app_distr, Hrev.
    rewrite (dropWhile_app_stop isWhiteSpace (rev r) d t' (List.Forall_rev Hr) Hd).
    rewrite <- Hrev. apply rev_involutive.
Qed.

(** The normal form of the code compares as the specification says. *)
Lemma normalize_eq_iff (a b : jsstring) :
  normalize a = normalize b <-> equalAfterLowercasingAndTrimming a b.
Proof.
  unfold normalize. rewrite !toLowerCase_trim. split.
  - intros H. exists (trim a), (trim b).
    split; [apply coreOf_trim|]. split; [apply coreOf_trim | exact H].
  - intros (ca & cb & Ha & Hb & H).
    apply coreOf_unique in Ha, Hb. subst ca cb. exact H.
Qed.

(** C3.  [isRepeated message history] holds exactly when the history has at
    least three user-role messages and the last three of them each equal the
    current message after lowercasing and trimming: blanks at the two ends
    aside, they are the same text in lower case.  With fewer than three
    user-role messages it is false.  So a question asked in other capitals
    and with other blanks around it counts as the same, with assistant turns
    in between, and one that differs by a question mark does not. *)
Theorem isRepeated_iff_last_three_user_turns (message : jsstring)
    (history : list Message) :
  (isRepeated message history = true <->
   exists earlier m1 m2 m3,
     List.filter isUser history = earlier ++ [m1; m2; m3]
     /\ equalAfterLowercasingAndTrimming (content m1) message
     /\ equalAfterLowercasingAndTrimming (content m2) message
     /\ equalAfterLowercasingAndTrimming (content m3) message)
  /\ (length (List.filter isUser history) < 3 -> isRepeated message history = false)
  /\ isRepeated (str "  What is DAS? ") history_C3 = true
  /\ isRepeated (str "what is das") history_C3 = false.
Proof.
  destruct (isRepeated_normalized message history) as [Hiff Hfew].
  split; [|split; [exact Hfew | split; vm_compute; reflexivity]].
  rewrite Hiff. split.
  - intros (earlier & m1 & m2 & m3 & Hu & H1 & H2 & H3).
    exists earlier, m1, m2, m3. rewrite <- !normalize_eq_iff. tauto.
  - intros (earlier & m1 & m2 & m3 & Hu & H1 & H2 & H3).
    exists earlier, m1, m2, m3. rewrite !normalize_eq_iff. tauto.
Qed.

(** ** The renumbering, in the specification's words *)













(** ** The widget and the server together *)








Lemma jsstring_eqb_refl (s : jsstring) : jsstring_eqb s s = true.
Proof. apply jsstring_eqb_eq. reflexivity. Qed.

Lemma jsstring_eqb_false (a b : jsstring) : a <> b -> jsstring_eqb a b = false.
Proof.
  intros H. destruct (jsstring_eqb a b) eqn:He; [|reflexivity].
  apply jsstring_eqb_eq in He. contradiction.
Qed.




(** The same three posts of a text with an apostrophe, as the chain hands
    it on: the third is answered by the provider. *)
Example apostrophe_is_not_refused :
  snd (chatHandler (completeOk "DAS is an antenna system.") (str "persona")
         removeContactInfo fixButtonReferences (str "What&#x27;s DAS?")
         (requestHistory
            [mkMessage user (str "What's DAS?");
             mkMessage assistant (str "An antenna system.");
             mkMessage user (str "What's DAS?");
             mkMessage assistant (str "An antenna system.");
             mkMessage user (str "What's DAS?")]))
  <> [].
Proof. vm_compute. discriminate. Qed.
